(** * LingStorage Go SDK: a shallow embedding of client.go

    The client is request/response glue around an HTTP transport.  The
    embedding keeps the shape of the Go code: the remote side, the local
    file system and the heap cell holding the caller's [Config] are an
    explicit [World] threaded through a small state monad [Go]; calls of
    [httpClient.Do], [time.Sleep] and of the progress observers are
    recorded, in order, in the world's event trace.

    Go values are modelled as follows.
    - [int], [int64] and [time.Duration] are [Z]; where the program does
      arithmetic on them the 64-bit wrap-around is written out ([wrap64]).
    - [string] is [string] (a byte sequence), [[]byte] is [list byte].
    - [url.Values] and [http.Header] are finite maps ([gmap]).
    - A [*Config] is a location in the world's heap of configs.
    - An [error] is a value of the inductive type [error]; [Error] computes
      its text.
    - A panic (nil dereference) is the [Panicked] outcome of the monad.
    - A [float64] is a binary64 number of [SpecFloat], with its rounding.

    The helpers of utils.go and the progress monitor of funcs.go are pure
    but for the clock and the terminal: the monitor is given the clock
    reading and returns what it prints. *)

From Stdlib Require Import ZArith String Ascii List Lia Bool DecimalString.
From Stdlib Require Floats.SpecFloat.
From stdpp Require Import gmap strings list.

Local Open Scope Z_scope.
Set Warnings "-register-all".

Abbreviation byte := Byte.byte.

(* ------------------------------------------------------------------ *)
(** ** Machine integers, strconv and strings *)

(** Two's-complement reduction to 64 bits. *)
Definition wrap64 (z : Z) : Z := (z + 2 ^ 63) mod 2 ^ 64 - 2 ^ 63.

Definition max_int : Z := 2 ^ 63 - 1.
Definition min_int : Z := - 2 ^ 63.

Definition in_int64 (z : Z) : bool := (min_int <=? z) && (z <=? max_int).

(** [len(x)] as a Go [int]. *)
Definition len {A} (l : list A) : Z := Z.of_nat (length l).

(** [strconv.Itoa], also the [%d] verb of [fmt]. *)
Definition Itoa (z : Z) : string := NilZero.string_of_int (Z.to_int z).

Definition mem_char (c : ascii) (cutset : string) : bool :=
  existsb (Ascii.eqb c) (list_ascii_of_string cutset).

Definition is_empty (s : string) : bool :=
  match s with EmptyString => true | _ => false end.

(** [strings.TrimRight]: drop every trailing byte that is in [cutset]. *)
Fixpoint TrimRight (s cutset : string) : string :=
  match s with
  | EmptyString => EmptyString
  | String c rest =>
      let r := TrimRight rest cutset in
      if is_empty r && mem_char c cutset then EmptyString else String c r
  end.

(** The text after the last ['/'] of [s], continuing from [acc]. *)
Fixpoint last_element (s acc : string) : string :=
  match s with
  | EmptyString => acc
  | String c rest =>
      if Ascii.eqb c "/" then last_element rest EmptyString
      else last_element rest (acc +:+ String c EmptyString)
  end.

(** [filepath.Base] with ['/'] as the separator. *)
Definition Base (path : string) : string :=
  if is_empty path then "."%string
  else
    let p := last_element (TrimRight path "/") EmptyString in
    if is_empty p then "/"%string else p.

(* ------------------------------------------------------------------ *)
(** ** time.Duration *)

Definition Duration := Z.

Definition Nanosecond : Duration := 1.
Definition Microsecond : Duration := 1000.
Definition Millisecond : Duration := 1000000.
Definition Second : Duration := 1000000000.
Definition Minute : Duration := 60 * Second.
Definition Hour : Duration := 60 * Minute.

(** [time.Duration(n) * unit]: an [int64] product. *)
Definition Duration_mul (n : Z) (unit : Duration) : Duration := wrap64 (n * unit).

Definition digit (d : Z) : ascii := ascii_of_N (Z.to_N (48 + d)).

(** [fmtFrac] of package time: writes the fraction of [v / 10^prec] in front
    of [buf], without trailing zeros and without the point when the
    fraction is zero; returns the new text and [v / 10^prec]. *)
Fixpoint fmtFrac_loop (prec : nat) (buf : string) (v : Z) (print : bool)
  : string * Z * bool :=
  match prec with
  | O => (buf, v, print)
  | S p =>
      let d := v mod 10 in
      let print := print || negb (d =? 0) in
      let buf := if print then String (digit d) buf else buf in
      fmtFrac_loop p buf (v / 10) print
  end.

Definition fmtFrac (buf : string) (v : Z) (prec : nat) : string * Z :=
  let '(buf, v, print) := fmtFrac_loop prec buf v false in
  (if print then String "." buf else buf, v).

(** [fmtInt] of package time: writes [v] in decimal in front of [buf]. *)
Definition fmtInt (buf : string) (v : Z) : string := Itoa v +:+ buf.

(** The two bytes of U+00B5, the micro sign. *)
Definition micro : string := String "194" (String "181" EmptyString).

(** [time.Duration.String]. Modelled from the Go standard library. *)
Definition Duration_String (d : Duration) : string :=
  let u := Z.abs d in
  let text :=
    if u <? Second then
      if u =? 0 then "0s"%string
      else if u <? Microsecond then fmtInt "ns" u
      else if u <? Millisecond then
        let '(buf, u) := fmtFrac (micro +:+ "s") u 3 in fmtInt buf u
      else
        let '(buf, u) := fmtFrac "ms" u 6 in fmtInt buf u
    else
      let '(buf, u) := fmtFrac "s" u 9 in
      let buf := fmtInt buf (u mod 60) in
      let u := u / 60 in
      if 0 <? u then
        let buf := fmtInt (String "m" buf) (u mod 60) in
        let u := u / 60 in
        if 0 <? u then fmtInt (String "h" buf) u else buf
      else buf
  in
  if d <? 0 then String "-" text else text.

(* ------------------------------------------------------------------ *)
(** ** The types of client.go *)

Record Config := {
  BaseURL : string;
  APIKey : string;
  APISecret : string;
  Timeout : Duration;
  RetryCount : Z;
  UserAgent : string
}.

Definition loc := positive.

Record http_Client := { http_Timeout : Duration }.

Record Client := {
  config : loc;
  httpClient : http_Client
}.

Record APIError := {
  api_StatusCode : Z;
  api_Message : string;
  api_Details : string
}.

(** Go's [error] values as this package produces them. *)
Inductive error :=
| ErrAPI (e : APIError)                        (* *APIError *)
| Errorf (text : string) (cause : error)       (* fmt.Errorf("text: %w", cause) *)
| ErrText (text : string)                      (* fmt.Errorf without a cause *)
| ErrLib (text : string)                       (* an error of os, io, net/http, encoding/json *)
| EOF.                                         (* io.EOF *)

Definition APIError_Error (e : APIError) : string :=
  "ling storage api error " +:+ Itoa (api_StatusCode e) +:+ ": " +:+ api_Message e.

Fixpoint Error (e : error) : string :=
  match e with
  | ErrAPI a => APIError_Error a
  | Errorf text cause => text +:+ ": " +:+ Error cause
  | ErrText text => text
  | ErrLib text => text
  | EOF => "EOF"
  end.

(** A Go result pair [(T, error)]. *)
Inductive result (T : Type) :=
| Ok (v : T)
| Err (e : error).
Arguments Ok {T} v.
Arguments Err {T} e.

Record UploadResult := {
  ur_Key : string;
  ur_Bucket : string;
  ur_Filename : string;
  ur_Size : Z;
  ur_OriginalSize : Z;
  ur_Compressed : bool;
  ur_Watermarked : bool;
  ur_URL : string
}.

Record UploadError := {
  ue_File : string;
  ue_Error : string
}.

Record BatchUploadResult := {
  Success : list UploadResult;
  Failed : list UploadError;
  Total : Z
}.

(** [OnProgress] fields hold an observer or nil; calling the observer is an
    event of the trace, so the field records only whether one is set. *)
Record UploadRequest := {
  FilePath : string;
  Bucket : string;
  Key : string;
  AllowedTypes : list string;
  Compress : bool;
  Quality : Z;
  Watermark : bool;
  WatermarkText : string;
  WatermarkPosition : string;
  OnProgress : bool
}.

Record UploadBytesRequest := {
  ub_Data : list byte;
  ub_Filename : string;
  ub_Bucket : string;
  ub_Key : string;
  ub_AllowedTypes : list string;
  ub_Compress : bool;
  ub_Quality : Z;
  ub_Watermark : bool;
  ub_WatermarkText : string;
  ub_WatermarkPosition : string;
  ub_OnProgress : bool
}.

Record BatchUploadRequest := {
  Files : list string;
  bu_Bucket : string;
  KeyPrefix : string;
  bu_AllowedTypes : list string;
  bu_Compress : bool;
  bu_Quality : Z;
  bu_Watermark : bool;
  bu_WatermarkText : string;
  bu_WatermarkPosition : string;
  bu_OnProgress : bool;
  OnFileProgress : bool
}.

Record FileInfo := {
  fi_Key : string;
  fi_Size : Z;
  fi_LastModified : Z;
  fi_ETag : string;
  fi_ContentType : string
}.

Record ListFilesRequest := {
  lf_Bucket : string;
  lf_Prefix : string;
  lf_Marker : string;
  lf_Delimiter : string;
  lf_Limit : Z
}.

Record ListFilesResult := {
  lr_Files : list FileInfo;
  lr_Directories : list string;
  lr_NextMarker : string;
  lr_IsTruncated : bool
}.

Record CreateBucketRequest := {
  cb_BucketName : string;
  cb_Region : string
}.

Record CopyFileRequest := {
  cp_SrcBucket : string;
  cp_SrcKey : string;
  cp_DestBucket : string;
  cp_DestKey : string
}.

Record MoveFileRequest := {
  mv_SrcBucket : string;
  mv_SrcKey : string;
  mv_DestBucket : string;
  mv_DestKey : string
}.

Record SetBucketPrivateRequest := {
  sp_BucketName : string;
  sp_IsPrivate : bool
}.

(* ------------------------------------------------------------------ *)
(** ** io.Reader *)

(** What one call of [Read] hands back: the bytes placed in the buffer and
    the error, if any. *)
Definition ReadResult : Type := list byte * option error.

(** An [io.Reader] is given by the results of its successive [Read] calls;
    once they are used up it reports [io.EOF].  [seek_end] is [Some n] when
    the reader also implements [io.Seeker] and [Seek(0, io.SeekEnd)]
    answers [n]. *)
Record Reader := {
  reads : list ReadResult;
  seek_end : option Z
}.

Definition Reader_Read (r : Reader) : ReadResult * Reader :=
  match reads r with
  | [] => (([], Some EOF), r)
  | res :: rest => (res, {| reads := rest; seek_end := seek_end r |})
  end.

(** The buffer [io.Copy] allocates: 32 KiB. *)
Definition copyBufSize : nat := Z.to_nat (32 * 1024).

(** The chunks in which a reader over in-memory or on-disk bytes fills
    buffers of [size] bytes. *)
Fixpoint chunks_of (fuel size : nat) (data : list byte) : list (list byte) :=
  match fuel, data with
  | S f, _ :: _ => take size data :: chunks_of f size (drop size data)
  | _, _ => []
  end.

(** [bytes.NewReader(data)], and an [*os.File] over a file holding [data]. *)
Definition bytes_NewReader (data : list byte) : Reader :=
  {| reads := (fun c => (c, None)) <$> chunks_of (length data) copyBufSize data;
     seek_end := Some (len data) |}.

Record UploadFromReaderRequest := {
  fr_Reader : Reader;
  fr_Filename : string;
  fr_Size : Z;
  fr_Bucket : string;
  fr_Key : string;
  fr_AllowedTypes : list string;
  fr_Compress : bool;
  fr_Quality : Z;
  fr_Watermark : bool;
  fr_WatermarkText : string;
  fr_WatermarkPosition : string;
  fr_OnProgress : bool
}.

(* ------------------------------------------------------------------ *)
(** ** encoding/json *)

(** A parsed JSON document.  Number literals that are integers carry their
    value; any other number literal is kept as text. *)
Inductive JSON :=
| JNull
| JBool (b : bool)
| JInt (n : Z)
| JFloat (literal : string)
| JString (s : string)
| JArray (items : list JSON)
| JObject (members : list (string * JSON)).

(** Unmarshalling into a Go value of type [T]: the value so far goes in, the
    updated value comes out, [None] stands for a returned error.  JSON
    [null] leaves a non-pointer value as it is. *)
Definition Unmarshaler (T : Type) : Type := JSON -> T -> option T.

Definition dec_string : Unmarshaler string := fun v cur =>
  match v with JNull => Some cur | JString s => Some s | _ => None end.

Definition dec_bool : Unmarshaler bool := fun v cur =>
  match v with JNull => Some cur | JBool b => Some b | _ => None end.

Definition dec_int : Unmarshaler Z := fun v cur =>
  match v with
  | JNull => Some cur
  | JInt n => if in_int64 n then Some n else None
  | _ => None
  end.

Fixpoint dec_items {T} (dec : Unmarshaler T) (zero : T) (items : list JSON)
  : option (list T) :=
  match items with
  | [] => Some []
  | x :: rest =>
      match dec x zero, dec_items dec zero rest with
      | Some v, Some vs => Some (v :: vs)
      | _, _ => None
      end
  end.

(** Elements are decoded into zero values, as they are for a slice that
    is being filled for the first time. *)
Definition dec_slice {T} (dec : Unmarshaler T) (zero : T) : Unmarshaler (list T) :=
  fun v cur =>
    match v with
    | JNull => Some cur
    | JArray items => dec_items dec zero items
    | _ => None
    end.

(** Case folding of object keys: ASCII letters, plus the two non-ASCII
    runes that fold to ASCII letters (U+017F to s, U+212A to k). *)
Definition lower (c : ascii) : ascii :=
  let n := N_of_ascii c in
  if ((65 <=? n) && (n <=? 90))%N then ascii_of_N (n + 32) else c.

Fixpoint foldName (s : string) : string :=
  match s with
  | String "197" (String "191" rest) => String "s" (foldName rest)
  | String "226" (String "132" (String "170" rest)) => String "k" (foldName rest)
  | String c rest => String (lower c) (foldName rest)
  | EmptyString => EmptyString
  end.

(** A struct field: its JSON name and how a member value updates the struct. *)
Definition Field (T : Type) : Type := string * (JSON -> T -> option T).

(** The field a key addresses: an exact match is preferred, a
    case-insensitive one accepted. *)
Definition find_field {T} (fields : list (Field T)) (key : string) : option (Field T) :=
  match find (fun f => String.eqb (fst f) key) fields with
  | Some f => Some f
  | None => find (fun f => String.eqb (foldName (fst f)) (foldName key)) fields
  end.

Definition dec_member {T} (fields : list (Field T)) (acc : option T)
  (member : string * JSON) : option T :=
  match acc with
  | None => None
  | Some cur =>
      match find_field fields (fst member) with
      | None => Some cur
      | Some f => snd f (snd member) cur
      end
  end.

(** Unmarshalling an object into a struct: members are taken in order,
    unknown keys are skipped, a member of the wrong kind is an error. *)
Definition dec_struct {T} (fields : list (Field T)) : Unmarshaler T :=
  fun v cur =>
    match v with
    | JNull => Some cur
    | JObject members => fold_left (dec_member fields) members (Some cur)
    | _ => None
    end.

(** A field decoded by [dec] from the part read by [get] and stored by [set]. *)
Definition field {T A} (name : string) (dec : Unmarshaler A)
  (get : T -> A) (set : A -> T -> T) : Field T :=
  (name, fun v cur => match dec v (get cur) with
                      | Some a => Some (set a cur)
                      | None => None
                      end).

Definition set_api_StatusCode (v : Z) (e : APIError) : APIError :=
  {| api_StatusCode := v; api_Message := api_Message e; api_Details := api_Details e |}.
Definition set_api_Message (v : string) (e : APIError) : APIError :=
  {| api_StatusCode := api_StatusCode e; api_Message := v; api_Details := api_Details e |}.
Definition set_api_Details (v : string) (e : APIError) : APIError :=
  {| api_StatusCode := api_StatusCode e; api_Message := api_Message e; api_Details := v |}.

(** [APIError] with its json tags. *)
Definition dec_APIError : Unmarshaler APIError :=
  dec_struct
    [ field "statusCode" dec_int api_StatusCode set_api_StatusCode;
      field "message" dec_string api_Message set_api_Message;
      field "details" dec_string api_Details set_api_Details ].

Definition zero_APIError : APIError :=
  {| api_StatusCode := 0; api_Message := ""; api_Details := "" |}.

Definition zero_UploadResult : UploadResult :=
  {| ur_Key := ""; ur_Bucket := ""; ur_Filename := ""; ur_Size := 0;
     ur_OriginalSize := 0; ur_Compressed := false; ur_Watermarked := false;
     ur_URL := "" |}.

(** [UploadResult] with its json tags. *)
Definition dec_UploadResult : Unmarshaler UploadResult :=
  dec_struct
    [ field "key" dec_string ur_Key (fun v r =>
        {| ur_Key := v; ur_Bucket := ur_Bucket r; ur_Filename := ur_Filename r;
           ur_Size := ur_Size r; ur_OriginalSize := ur_OriginalSize r;
           ur_Compressed := ur_Compressed r; ur_Watermarked := ur_Watermarked r;
           ur_URL := ur_URL r |});
      field "bucket" dec_string ur_Bucket (fun v r =>
        {| ur_Key := ur_Key r; ur_Bucket := v; ur_Filename := ur_Filename r;
           ur_Size := ur_Size r; ur_OriginalSize := ur_OriginalSize r;
           ur_Compressed := ur_Compressed r; ur_Watermarked := ur_Watermarked r;
           ur_URL := ur_URL r |});
      field "filename" dec_string ur_Filename (fun v r =>
        {| ur_Key := ur_Key r; ur_Bucket := ur_Bucket r; ur_Filename := v;
           ur_Size := ur_Size r; ur_OriginalSize := ur_OriginalSize r;
           ur_Compressed := ur_Compressed r; ur_Watermarked := ur_Watermarked r;
           ur_URL := ur_URL r |});
      field "size" dec_int ur_Size (fun v r =>
        {| ur_Key := ur_Key r; ur_Bucket := ur_Bucket r; ur_Filename := ur_Filename r;
           ur_Size := v; ur_OriginalSize := ur_OriginalSize r;
           ur_Compressed := ur_Compressed r; ur_Watermarked := ur_Watermarked r;
           ur_URL := ur_URL r |});
      field "originalSize" dec_int ur_OriginalSize (fun v r =>
        {| ur_Key := ur_Key r; ur_Bucket := ur_Bucket r; ur_Filename := ur_Filename r;
           ur_Size := ur_Size r; ur_OriginalSize := v;
           ur_Compressed := ur_Compressed r; ur_Watermarked := ur_Watermarked r;
           ur_URL := ur_URL r |});
      field "compressed" dec_bool ur_Compressed (fun v r =>
        {| ur_Key := ur_Key r; ur_Bucket := ur_Bucket r; ur_Filename := ur_Filename r;
           ur_Size := ur_Size r; ur_OriginalSize := ur_OriginalSize r;
           ur_Compressed := v; ur_Watermarked := ur_Watermarked r;
           ur_URL := ur_URL r |});
      field "watermarked" dec_bool ur_Watermarked (fun v r =>
        {| ur_Key := ur_Key r; ur_Bucket := ur_Bucket r; ur_Filename := ur_Filename r;
           ur_Size := ur_Size r; ur_OriginalSize := ur_OriginalSize r;
           ur_Compressed := ur_Compressed r; ur_Watermarked := v;
           ur_URL := ur_URL r |});
      field "url" dec_string ur_URL (fun v r =>
        {| ur_Key := ur_Key r; ur_Bucket := ur_Bucket r; ur_Filename := ur_Filename r;
           ur_Size := ur_Size r; ur_OriginalSize := ur_OriginalSize r;
           ur_Compressed := ur_Compressed r; ur_Watermarked := ur_Watermarked r;
           ur_URL := v |}) ].

(** The response struct declared inside [uploadReader]: both envelopes at once. *)
Record uploadResponse := {
  up_Success : bool;
  up_Message : string;
  up_Data : UploadResult;
  up_Code : Z;
  up_Msg : string
}.

Definition zero_uploadResponse : uploadResponse :=
  {| up_Success := false; up_Message := ""; up_Data := zero_UploadResult;
     up_Code := 0; up_Msg := "" |}.

Definition dec_uploadResponse : Unmarshaler uploadResponse :=
  dec_struct
    [ field "success" dec_bool up_Success (fun v r =>
        {| up_Success := v; up_Message := up_Message r; up_Data := up_Data r;
           up_Code := up_Code r; up_Msg := up_Msg r |});
      field "message" dec_string up_Message (fun v r =>
        {| up_Success := up_Success r; up_Message := v; up_Data := up_Data r;
           up_Code := up_Code r; up_Msg := up_Msg r |});
      field "data" dec_UploadResult up_Data (fun v r =>
        {| up_Success := up_Success r; up_Message := up_Message r; up_Data := v;
           up_Code := up_Code r; up_Msg := up_Msg r |});
      field "code" dec_int up_Code (fun v r =>
        {| up_Success := up_Success r; up_Message := up_Message r; up_Data := up_Data r;
           up_Code := v; up_Msg := up_Msg r |});
      field "msg" dec_string up_Msg (fun v r =>
        {| up_Success := up_Success r; up_Message := up_Message r; up_Data := up_Data r;
           up_Code := up_Code r; up_Msg := v |}) ].

(** The response structs of the read operations: [{success, data}], the
    data being a struct with one member [name], or a struct [T]. *)
Record dataResponse (T : Type) := {
  dr_Success : bool;
  dr_Data : T
}.
Arguments dr_Success {T} d.
Arguments dr_Data {T} d.

Definition dec_dataResponse {T} (dec : Unmarshaler T) : Unmarshaler (dataResponse T) :=
  dec_struct
    [ field "success" dec_bool dr_Success (fun v r =>
        {| dr_Success := v; dr_Data := dr_Data r |});
      field "data" dec dr_Data (fun v r =>
        {| dr_Success := dr_Success r; dr_Data := v |}) ].

(** [struct { X T `json:"name"` }] *)
Definition dec_wrapped {T} (name : string) (dec : Unmarshaler T) : Unmarshaler T :=
  dec_struct [ field name dec (fun x => x) (fun v _ => v) ].

(* ------------------------------------------------------------------ *)
(** ** net/http and mime/multipart *)

(** A part of a multipart form, as [multipart.Writer] lays them out. *)
Inductive Part :=
| FormFile (fieldname filename : string) (content : list byte)
| FormField (fieldname value : string).

Definition part_name (p : Part) : string :=
  match p with FormFile n _ _ => n | FormField n _ => n end.

Inductive RequestBody :=
| NoBody
| MultipartBody (parts : list Part)
| JSONBody (v : JSON).

Record Request := {
  Method : string;
  URL : string;
  Query : gmap string (list string);      (* URL.Query() / URL.RawQuery *)
  Header : gmap string string;
  ReqBody : RequestBody
}.

(** [url.Values]. *)
Definition Values_Set (q : gmap string (list string)) (k v : string) :=
  <[k := [v]]> q.
Definition Values_Add (q : gmap string (list string)) (k v : string) :=
  <[k := default [] (q !! k) ++ [v]]> q.
Definition Values_Get (q : gmap string (list string)) (k : string) : string :=
  match q !! k with Some (v :: _) => v | _ => ""%string end.

(** A response body: its text together with the document [encoding/json]
    parses from it ([None] when the text is not JSON), or a body whose
    reading fails. *)
Inductive ResponseBody :=
| Readable (text : string) (doc : option JSON)
| Unreadable (e : error).

Record Response := {
  StatusCode : Z;
  Body : ResponseBody
}.

(** What [httpClient.Do] returns: [(resp, nil)] or [(nil, err)]. *)
Inductive Outcome :=
| Responded (resp : Response)
| TransportError (e : error).

(** [json.Unmarshal(body, &v)] for [v] freshly declared (zero). *)
Definition json_Unmarshal {T} (dec : Unmarshaler T) (zero : T) (doc : option JSON)
  : option T :=
  match doc with
  | Some v => dec v zero
  | None => None
  end.

(* ------------------------------------------------------------------ *)
(** ** The world and the monad *)

Inductive Event :=
| EvDo (req : Request) (out : Outcome)                  (* httpClient.Do(req) *)
| EvSleep (d : Duration)                                (* time.Sleep(d) *)
| EvProgress (uploaded total : Z)                       (* an upload observer called *)
| EvBatchProgress (completed total : Z) (current : string). (* the batch observer called *)

Record World := {
  configs : gmap loc Config;                 (* the Config objects, by address *)
  disk : gmap string (list byte);            (* the files os.Open can open *)
  remote : nat -> Request -> Outcome;        (* what the k-th call of Do returns, k from 0 *)
  events : list Event                        (* what has happened, oldest first *)
}.

Inductive outcome (A : Type) :=
| Returned (a : A)
| Panicked (reason : string).
Arguments Returned {A} a.
Arguments Panicked {A} reason.

Definition Go (A : Type) : Type := World -> outcome A * World.

Definition ret {A} (a : A) : Go A := fun w => (Returned a, w).

Definition bind {A B} (m : Go A) (k : A -> Go B) : Go B := fun w =>
  match m w with
  | (Returned a, w') => k a w'
  | (Panicked r, w') => (Panicked r, w')
  end.

Definition panic {A} (reason : string) : Go A := fun w => (Panicked reason, w).

Notation "'let*' x ':=' m 'in' k" := (bind m (fun x => k))
  (at level 10, x name, m at level 100, k at level 200).
Notation "'run' m 'then' k" := (bind m (fun _ => k))
  (at level 10, m at level 100, k at level 200).

(** How many calls of [Do] a trace holds. *)
Fixpoint attempts (evs : list Event) : nat :=
  match evs with
  | [] => O
  | EvDo _ _ :: rest => S (attempts rest)
  | _ :: rest => attempts rest
  end.

Definition emit (e : Event) : Go unit := fun w =>
  (Returned tt,
   {| configs := configs w; disk := disk w; remote := remote w;
      events := events w ++ [e] |}).

Definition httpClient_Do (req : Request) : Go Outcome := fun w =>
  let out := remote w (attempts (events w)) req in
  (Returned out,
   {| configs := configs w; disk := disk w; remote := remote w;
      events := events w ++ [EvDo req out] |}).

Definition time_Sleep (d : Duration) : Go unit := emit (EvSleep d).

(** Reading through a [*Config]; a nil or dangling pointer panics. *)
Definition load (l : loc) : Go Config := fun w =>
  match configs w !! l with
  | Some cfg => (Returned cfg, w)
  | None => (Panicked "nil pointer dereference", w)
  end.

(** Writing through a [*Config]. *)
Definition store (l : loc) (cfg : Config) : Go unit := fun w =>
  match configs w !! l with
  | Some _ =>
      (Returned tt,
       {| configs := <[l := cfg]> (configs w); disk := disk w; remote := remote w;
          events := events w |})
  | None => (Panicked "nil pointer dereference", w)
  end.

(** [os.Open] followed by [file.Stat]: the reader and the size.  [Stat] on
    a file that has just been opened is taken to succeed. *)
Definition os_Open (path : string) : Go (result (Reader * Z)) := fun w =>
  match disk w !! path with
  | Some data => (Returned (Ok (bytes_NewReader data, len data)), w)
  | None => (Returned (Err (ErrLib ("open " +:+ path +:+ ": no such file or directory"))), w)
  end.

(* ------------------------------------------------------------------ *)
(** ** Package constants *)

(** Modelled from the spec: package [constants] is not among the sources.
    The spec speaks of a fixed default user-agent string; client_test.go
    expects this one from [NewClient]. *)
Definition DEFAULT_USER_AGENT : string := "LingStorage-SDK/1.0.0".

(** Modelled from the spec: the header names of package [constants], which
    the spec gives as [User-Agent], [X-API-Key] and [X-API-Secret]. *)
Definition USER_AGENT : string := "User-Agent".

(** Modelled from the spec: see [USER_AGENT]. *)
Definition XAPIKEY : string := "X-API-Key".

(** Modelled from the spec: see [USER_AGENT]. *)
Definition XAPISECRET : string := "X-API-Secret".

(** Modelled from the spec: the header the spec calls Content-Type. *)
Definition CONETENT_TYPE : string := "Content-Type".

(* ------------------------------------------------------------------ *)
(** ** client.go *)

Definition set_Timeout (v : Duration) (c : Config) : Config :=
  {| BaseURL := BaseURL c; APIKey := APIKey c; APISecret := APISecret c;
     Timeout := v; RetryCount := RetryCount c; UserAgent := UserAgent c |}.
Definition set_RetryCount (v : Z) (c : Config) : Config :=
  {| BaseURL := BaseURL c; APIKey := APIKey c; APISecret := APISecret c;
     Timeout := Timeout c; RetryCount := v; UserAgent := UserAgent c |}.
Definition set_UserAgent (v : string) (c : Config) : Config :=
  {| BaseURL := BaseURL c; APIKey := APIKey c; APISecret := APISecret c;
     Timeout := Timeout c; RetryCount := RetryCount c; UserAgent := v |}.

Definition when (b : bool) (m : Go unit) : Go unit := if b then m else ret tt.

(** [NewClient]: the three assignments go through the pointer it is given,
    and the client keeps that same pointer. *)
Definition NewClient (p : loc) : Go Client :=
  let* cfg := load p in
  run when (Timeout cfg =? 0) (store p (set_Timeout (30 * Second) cfg)) then
  let* cfg := load p in
  run when (RetryCount cfg =? 0) (store p (set_RetryCount 3 cfg)) then
  let* cfg := load p in
  run when (is_empty (UserAgent cfg)) (store p (set_UserAgent DEFAULT_USER_AGENT cfg)) then
  let* cfg := load p in
  ret {| config := p; httpClient := {| http_Timeout := Timeout cfg |} |}.

(** *** progressReader *)

Record progressReader := {
  pr_reader : Reader;
  pr_total : Z;
  pr_read : Z;
  pr_callback : bool
}.

Definition progressReader_Read (pr : progressReader) : Go (ReadResult * progressReader) :=
  let '(res, r) := Reader_Read (pr_reader pr) in
  let read := wrap64 (pr_read pr + len (fst res)) in
  run when (pr_callback pr) (emit (EvProgress read (pr_total pr))) then
  ret (res, {| pr_reader := r; pr_total := pr_total pr; pr_read := read;
               pr_callback := pr_callback pr |}).

(** The two dynamic types the [io.Reader] given to [uploadReader] has. *)
Inductive ioReader :=
| PlainReader (r : Reader)
| ProgressReader (pr : progressReader).

Definition Read (src : ioReader) : Go (ReadResult * ioReader) :=
  match src with
  | PlainReader r =>
      let '(res, r') := Reader_Read r in ret (res, PlainReader r')
  | ProgressReader pr =>
      let* x := progressReader_Read pr in ret (fst x, ProgressReader (snd x))
  end.

Definition pending (src : ioReader) : nat :=
  match src with
  | PlainReader r => length (reads r)
  | ProgressReader pr => length (reads (pr_reader pr))
  end.

(** The loop of [io.Copy]: read, write what was read, stop at the first
    error; [io.EOF] ends the copy without being reported.  The destination
    is an in-memory buffer, whose writes do not fail. *)
Fixpoint copy_loop (fuel : nat) (src : ioReader) (written : list byte)
  : Go (list byte * option error) :=
  match fuel with
  | O => ret (written, None)
  | S f =>
      let* x := Read src in
      let written := written ++ fst (fst x) in
      match snd (fst x) with
      | Some EOF => ret (written, None)
      | Some er => ret (written, Some er)
      | None => copy_loop f (snd x) written
      end
  end.

(** A reader reports [io.EOF] at the latest when its results are used up,
    so one more round than results pending always ends the loop. *)
Definition io_Copy (src : ioReader) : Go (list byte * option error) :=
  copy_loop (S (pending src)) src [].

(** *** The retry loop

    [for i := 0; i <= RetryCount; i++ { resp, lastErr = Do(req); ... }],
    written out three times in the source ([Ping], [uploadReader],
    [doRequestWithRetry]).  [n] counts the rounds left, [RetryCount + 1 - i];
    the state left behind is the last outcome of [Do], if any.  For a
    RetryCount of [max_int] the Go counter would wrap around instead of
    passing the bound; the statements about the loop leave that value
    out.  Every round hands the same request value to [Do]; what [Do]
    makes of a request whose body an earlier round has read (it may fail
    without reaching the server) is part of what the call returns, which
    the world's [remote] gives call by call. *)
Definition retryable (out : Outcome) : bool :=
  match out with
  | Responded resp => negb (StatusCode resp <? 500)
  | TransportError _ => true
  end.

Fixpoint retry_loop (n : nat) (i : Z) (retryCount : Z) (req : Request)
  (last : option Outcome) : Go (option Outcome) :=
  match n with
  | O => ret last
  | S n' =>
      let* out := httpClient_Do req in
      if retryable out then
        run when (i <? retryCount) (time_Sleep (Duration_mul (i + 1) Second)) then
        retry_loop n' (i + 1) retryCount req (Some out)
      else ret (Some out)
  end.

Definition retry (cfg : Config) (req : Request) : Go (option Outcome) :=
  retry_loop (Z.to_nat (RetryCount cfg + 1)) 0 (RetryCount cfg) req None.

(** [doRequestWithRetry]; [Ok None] is the pair [(nil, nil)] it returns
    when the loop body never ran. *)
Definition doRequestWithRetry (c : Client) (req : Request)
  : Go (result (option Response)) :=
  let* cfg := load (config c) in
  let* last := retry cfg req in
  match last with
  | Some (TransportError e) =>
      ret (Err (Errorf ("request failed after " +:+ Itoa (RetryCount cfg) +:+ " retries") e))
  | Some (Responded resp) => ret (Ok (Some resp))
  | None => ret (Ok None)
  end.

Definition handleErrorResponse (resp : Response) : error :=
  match Body resp with
  | Unreadable e => Errorf "failed to read error response" e
  | Readable text doc =>
      match json_Unmarshal dec_APIError zero_APIError doc with
      | Some apiErr => ErrAPI (set_api_StatusCode (StatusCode resp) apiErr)
      | None =>
          ErrAPI {| api_StatusCode := StatusCode resp; api_Message := text;
                    api_Details := "" |}
      end
  end.

(** The three header assignments every operation makes. *)
Definition auth_headers (cfg : Config) (h : gmap string string) : gmap string string :=
  let h := <[USER_AGENT := UserAgent cfg]> h in
  let h := if is_empty (APIKey cfg) then h else <[XAPIKEY := APIKey cfg]> h in
  if is_empty (APISecret cfg) then h else <[XAPISECRET := APISecret cfg]> h.

Definition set_Header (h : gmap string string) (r : Request) : Request :=
  {| Method := Method r; URL := URL r; Query := Query r; Header := h;
     ReqBody := ReqBody r |}.
Definition set_Query (q : gmap string (list string)) (r : Request) : Request :=
  {| Method := Method r; URL := URL r; Query := q; Header := Header r;
     ReqBody := ReqBody r |}.

(** The form fields [uploadReader] writes after the file part. *)
Definition form_fields (req : UploadRequest) : list Part :=
  (if is_empty (Bucket req) then [] else [FormField "bucket" (Bucket req)]) ++
  (if is_empty (Key req) then [] else [FormField "key" (Key req)]) ++
  (if Compress req then
     FormField "compress" "true" ::
     (if 0 <? Quality req then [FormField "quality" (Itoa (Quality req))] else [])
   else []) ++
  (if Watermark req then
     FormField "watermark" "true" ::
     (if is_empty (WatermarkText req) then []
      else [FormField "watermarkText" (WatermarkText req)]) ++
     (if is_empty (WatermarkPosition req) then []
      else [FormField "watermarkPosition" (WatermarkPosition req)])
   else []).

(** [writer.FormDataContentType()], without the boundary parameter the
    writer draws at random. *)
Definition FormDataContentType : string := "multipart/form-data".

(** The loop [for _, t := range AllowedTypes { q.Add("allowedTypes", t) }]. *)
Definition add_allowedTypes (q : gmap string (list string)) (types : list string) :=
  fold_left (fun q t => Values_Add q "allowedTypes" t) types q.

(** Two functions of the Go standard library the client goes through and
    whose definitions are outside this package:
    - [url.Parse], which [http.NewRequest] applies to the URL text: [None]
      when the text is not a URL, else the query the URL carries;
    - [time.Time]'s JSON decoding of an RFC 3339 text. *)
Class Library := {
  url_Parse : string -> option (gmap string (list string));
  time_Parse : string -> option Z
}.

Section Client.

Context `{Library}.

Definition http_NewRequest (method url : string) (body : RequestBody) : result Request :=
  match url_Parse url with
  | Some q =>
      Ok {| Method := method; URL := url; Query := q; Header := ∅; ReqBody := body |}
  | None => Err (ErrLib ("parse " +:+ url))
  end.

(** The body of an upload request. *)
Definition upload_body (filename : string) (data : list byte) (req : UploadRequest)
  : RequestBody :=
  MultipartBody (FormFile "file" filename data :: form_fields req).

(** What [uploadReader] makes of the response once the loop is over.  When
    [json.Unmarshal] fails, the cause [ErrLib "json"] stands for the error
    of encoding/json: its text, which depends on the place and kind of the
    fault, is not computed. *)
Definition upload_reply (resp : Response) : result UploadResult :=
  match Body resp with
  | Unreadable e => Err (Errorf "failed to read response" e)
  | Readable text doc =>
      if negb (StatusCode resp =? 200) then
        match json_Unmarshal dec_APIError zero_APIError doc with
        | Some apiErr => Err (ErrAPI (set_api_StatusCode (StatusCode resp) apiErr))
        | None =>
            Err (ErrAPI {| api_StatusCode := StatusCode resp; api_Message := text;
                           api_Details := "" |})
        end
      else
        match json_Unmarshal dec_uploadResponse zero_uploadResponse doc with
        | None => Err (Errorf "failed to parse response" (ErrLib "json"))
        | Some apiResp =>
            let isSuccess := up_Success apiResp || (up_Code apiResp =? 200) in
            if negb isSuccess then
              let message :=
                if is_empty (up_Message apiResp) then up_Msg apiResp
                else up_Message apiResp in
              Err (ErrAPI {| api_StatusCode := StatusCode resp; api_Message := message;
                             api_Details := "" |})
            else Ok (up_Data apiResp)
        end
  end.

(** The request [uploadReader] builds from the copied payload. *)
Definition upload_request (cfg : Config) (filename : string) (data : list byte)
  (req : UploadRequest) : result Request :=
  let url := TrimRight (BaseURL cfg) "/" +:+ "/api/public/upload" in
  match http_NewRequest "POST" url (upload_body filename data req) with
  | Err e => Err (Errorf "failed to create request" e)
  | Ok httpReq =>
      let h := <[CONETENT_TYPE := FormDataContentType]> (Header httpReq) in
      let httpReq := set_Header (auth_headers cfg h) httpReq in
      Ok (if 0 <? len (AllowedTypes req)
          then set_Query (add_allowedTypes (Query httpReq) (AllowedTypes req)) httpReq
          else httpReq)
  end.

Definition uploadReader (c : Client) (reader : ioReader) (filename : string)
  (size : Z) (req : UploadRequest) : Go (result UploadResult) :=
  let* copied := io_Copy reader in
  match snd copied with
  | Some e => ret (Err (Errorf "failed to copy file data" e))
  | None =>
      let* cfg := load (config c) in
      match upload_request cfg filename (fst copied) req with
      | Err e => ret (Err e)
      | Ok httpReq =>
          let* last := retry cfg httpReq in
          match last with
          | Some (TransportError e) =>
              ret (Err (Errorf ("request failed after " +:+ Itoa (RetryCount cfg)
                                +:+ " retries") e))
          | None => panic "nil pointer dereference"
          | Some (Responded resp) => ret (upload_reply resp)
          end
      end
  end.

Definition UploadFile (c : Client) (req : UploadRequest) : Go (result UploadResult) :=
  let* opened := os_Open (FilePath req) in
  match opened with
  | Err e => ret (Err (Errorf "failed to open file" e))
  | Ok (file, size) =>
      let reader :=
        if OnProgress req
        then ProgressReader {| pr_reader := file; pr_total := size; pr_read := 0;
                               pr_callback := OnProgress req |}
        else PlainReader file in
      uploadReader c reader (Base (FilePath req)) size req
  end.

(** The size [UploadFromReader] works with: the one it is given, or, when
    that is not positive and the reader can seek, the offset of its end
    (the three [Seek] calls leave the reader where it was). *)
Definition determined_size (req : UploadFromReaderRequest) : Z :=
  let size := fr_Size req in
  if size <=? 0 then
    match seek_end (fr_Reader req) with
    | Some n => n
    | None => size
    end
  else size.

Definition UploadFromReader (c : Client) (req : UploadFromReaderRequest)
  : Go (result UploadResult) :=
  let size := determined_size req in
  let reader :=
    if fr_OnProgress req && (0 <? size)
    then ProgressReader {| pr_reader := fr_Reader req; pr_total := size; pr_read := 0;
                           pr_callback := fr_OnProgress req |}
    else PlainReader (fr_Reader req) in
  let uploadReq :=
    {| FilePath := ""; Bucket := fr_Bucket req; Key := fr_Key req;
       AllowedTypes := fr_AllowedTypes req; Compress := fr_Compress req;
       Quality := fr_Quality req; Watermark := fr_Watermark req;
       WatermarkText := fr_WatermarkText req;
       WatermarkPosition := fr_WatermarkPosition req; OnProgress := false |} in
  uploadReader c reader (fr_Filename req) size uploadReq.

Definition UploadBytes (c : Client) (req : UploadBytesRequest) : Go (result UploadResult) :=
  let reader := bytes_NewReader (ub_Data req) in
  let readerWithProgress :=
    if ub_OnProgress req
    then ProgressReader {| pr_reader := reader; pr_total := len (ub_Data req);
                           pr_read := 0; pr_callback := ub_OnProgress req |}
    else PlainReader reader in
  let uploadReq :=
    {| FilePath := ""; Bucket := ub_Bucket req; Key := ub_Key req;
       AllowedTypes := ub_AllowedTypes req; Compress := ub_Compress req;
       Quality := ub_Quality req; Watermark := ub_Watermark req;
       WatermarkText := ub_WatermarkText req;
       WatermarkPosition := ub_WatermarkPosition req; OnProgress := false |} in
  uploadReader c readerWithProgress (ub_Filename req) (len (ub_Data req)) uploadReq.

(** The [UploadRequest] [BatchUpload] makes for one file. *)
Definition batch_item (req : BatchUploadRequest) (filePath : string) : UploadRequest :=
  {| FilePath := filePath; Bucket := bu_Bucket req;
     Key := if is_empty (KeyPrefix req) then ""%string
            else KeyPrefix req +:+ "/" +:+ Base filePath;
     AllowedTypes := bu_AllowedTypes req; Compress := bu_Compress req;
     Quality := bu_Quality req; Watermark := bu_Watermark req;
     WatermarkText := bu_WatermarkText req;
     WatermarkPosition := bu_WatermarkPosition req;
     OnProgress := OnFileProgress req |}.

(** What one upload adds to the batch result. *)
Definition record_upload (filePath : string) (r : result UploadResult)
  (res : BatchUploadResult) : BatchUploadResult :=
  match r with
  | Err e =>
      {| Success := Success res;
         Failed := Failed res ++ [{| ue_File := filePath; ue_Error := Error e |}];
         Total := Total res |}
  | Ok uploadResult =>
      {| Success := Success res ++ [uploadResult]; Failed := Failed res;
         Total := Total res |}
  end.

(** [for i, filePath := range req.Files { ... }], from index [i] on. *)
Fixpoint BatchUpload_loop (c : Client) (req : BatchUploadRequest) (i : Z)
  (files : list string) (res : BatchUploadResult) : Go BatchUploadResult :=
  match files with
  | [] => ret res
  | filePath :: rest =>
      run when (bu_OnProgress req)
            (emit (EvBatchProgress i (len (Files req)) filePath)) then
      let* r := UploadFile c (batch_item req filePath) in
      BatchUpload_loop c req (i + 1) rest (record_upload filePath r res)
  end.

Definition BatchUpload (c : Client) (req : BatchUploadRequest)
  : Go (result BatchUploadResult) :=
  let res := {| Success := []; Failed := []; Total := len (Files req) |} in
  let* res := BatchUpload_loop c req 0 (Files req) res in
  run when (bu_OnProgress req)
        (emit (EvBatchProgress (len (Files req)) (len (Files req)) "")) then
  ret (Ok res).

Definition Ping (c : Client) : Go (result unit) :=
  let* cfg := load (config c) in
  let url := TrimRight (BaseURL cfg) "/" in
  match http_NewRequest "HEAD" url NoBody with
  | Err e => ret (Err (Errorf "failed to create ping request" e))
  | Ok httpReq =>
      let httpReq := set_Header (auth_headers cfg (Header httpReq)) httpReq in
      let* last := retry cfg httpReq in
      match last with
      | Some (TransportError e) =>
          ret (Err (Errorf ("ping request failed after " +:+ Itoa (RetryCount cfg)
                            +:+ " retries") e))
      | None => panic "nil pointer dereference"
      | Some (Responded resp) =>
          if 400 <=? StatusCode resp
          then ret (Err (ErrText ("ping failed with status code: "
                                  +:+ Itoa (StatusCode resp))))
          else ret (Ok tt)
      end
  end.

(** The lines every other operation shares once its request is built:
    [doRequestWithRetry], [defer resp.Body.Close()], and the check of the
    status against 200; [decode] is what the operation does with a 200
    response. *)
Definition roundtrip {T} (c : Client) (httpReq : Request)
  (decode : Response -> result T) : Go (result T) :=
  let* r := doRequestWithRetry c httpReq in
  match r with
  | Err e => ret (Err e)
  | Ok None => panic "nil pointer dereference"
  | Ok (Some resp) =>
      if negb (StatusCode resp =? 200) then ret (Err (handleErrorResponse resp))
      else ret (decode resp)
  end.

(** [json.NewDecoder(resp.Body).Decode(&apiResp)] and the return of
    [apiResp.Data]; the [Success] member is decoded and not looked at.  As
    in [upload_reply], [ErrLib "json"] stands for the error of
    encoding/json. *)
Definition decode_data {T} (dec : Unmarshaler T) (zero : T) (resp : Response) : result T :=
  match Body resp with
  | Unreadable e => Err (Errorf "failed to parse response" e)
  | Readable _ doc =>
      match json_Unmarshal (dec_dataResponse dec)
              {| dr_Success := false; dr_Data := zero |} doc with
      | Some apiResp => Ok (dr_Data apiResp)
      | None => Err (Errorf "failed to parse response" (ErrLib "json"))
      end
  end.

Definition no_decode (resp : Response) : result unit := Ok tt.

Definition api (cfg : Config) (path : string) : string :=
  TrimRight (BaseURL cfg) "/" +:+ path.

Definition DeleteFile (c : Client) (bucket key : string) : Go (result unit) :=
  let* cfg := load (config c) in
  let url := api cfg ("/api/public/files/" +:+ bucket +:+ "/" +:+ key) in
  match http_NewRequest "DELETE" url NoBody with
  | Err e => ret (Err (Errorf "failed to create request" e))
  | Ok httpReq =>
      let httpReq := set_Header (auth_headers cfg (Header httpReq)) httpReq in
      roundtrip c httpReq no_decode
  end.

(** The request [GetFileURL] builds. *)
Definition GetFileURL_request (cfg : Config) (bucket key : string) (expires : Duration)
  : result Request :=
  let url := api cfg ("/api/public/files/" +:+ bucket +:+ "/" +:+ key +:+ "/url") in
  match http_NewRequest "GET" url NoBody with
  | Err e => Err (Errorf "failed to create request" e)
  | Ok httpReq =>
      let httpReq :=
        if 0 <? expires
        then set_Query (Values_Set (Query httpReq) "expires" (Duration_String expires))
                       httpReq
        else httpReq in
      Ok (set_Header (auth_headers cfg (Header httpReq)) httpReq)
  end.

Definition GetFileURL (c : Client) (bucket key : string) (expires : Duration)
  : Go (result string) :=
  let* cfg := load (config c) in
  match GetFileURL_request cfg bucket key expires with
  | Err e => ret (Err e)
  | Ok httpReq => roundtrip c httpReq (decode_data (dec_wrapped "url" dec_string) "")
  end.

Definition dec_time : Unmarshaler Z := fun v cur =>
  match v with
  | JNull => Some cur
  | JString s => time_Parse s
  | _ => None
  end.

Definition zero_FileInfo : FileInfo :=
  {| fi_Key := ""; fi_Size := 0; fi_LastModified := 0; fi_ETag := "";
     fi_ContentType := "" |}.

Definition dec_FileInfo : Unmarshaler FileInfo :=
  dec_struct
    [ field "key" dec_string fi_Key (fun v r =>
        {| fi_Key := v; fi_Size := fi_Size r; fi_LastModified := fi_LastModified r;
           fi_ETag := fi_ETag r; fi_ContentType := fi_ContentType r |});
      field "size" dec_int fi_Size (fun v r =>
        {| fi_Key := fi_Key r; fi_Size := v; fi_LastModified := fi_LastModified r;
           fi_ETag := fi_ETag r; fi_ContentType := fi_ContentType r |});
      field "lastModified" dec_time fi_LastModified (fun v r =>
        {| fi_Key := fi_Key r; fi_Size := fi_Size r; fi_LastModified := v;
           fi_ETag := fi_ETag r; fi_ContentType := fi_ContentType r |});
      field "etag" dec_string fi_ETag (fun v r =>
        {| fi_Key := fi_Key r; fi_Size := fi_Size r; fi_LastModified := fi_LastModified r;
           fi_ETag := v; fi_ContentType := fi_ContentType r |});
      field "contentType" dec_string fi_ContentType (fun v r =>
        {| fi_Key := fi_Key r; fi_Size := fi_Size r; fi_LastModified := fi_LastModified r;
           fi_ETag := fi_ETag r; fi_ContentType := v |}) ].

Definition zero_ListFilesResult : ListFilesResult :=
  {| lr_Files := []; lr_Directories := []; lr_NextMarker := ""; lr_IsTruncated := false |}.

Definition dec_ListFilesResult : Unmarshaler ListFilesResult :=
  dec_struct
    [ field "files" (dec_slice dec_FileInfo zero_FileInfo) lr_Files (fun v r =>
        {| lr_Files := v; lr_Directories := lr_Directories r;
           lr_NextMarker := lr_NextMarker r; lr_IsTruncated := lr_IsTruncated r |});
      field "directories" (dec_slice dec_string ""%string) lr_Directories (fun v r =>
        {| lr_Files := lr_Files r; lr_Directories := v;
           lr_NextMarker := lr_NextMarker r; lr_IsTruncated := lr_IsTruncated r |});
      field "nextMarker" dec_string lr_NextMarker (fun v r =>
        {| lr_Files := lr_Files r; lr_Directories := lr_Directories r;
           lr_NextMarker := v; lr_IsTruncated := lr_IsTruncated r |});
      field "isTruncated" dec_bool lr_IsTruncated (fun v r =>
        {| lr_Files := lr_Files r; lr_Directories := lr_Directories r;
           lr_NextMarker := lr_NextMarker r; lr_IsTruncated := v |}) ].

Definition GetFileInfo (c : Client) (bucket key : string) : Go (result FileInfo) :=
  let* cfg := load (config c) in
  let url := api cfg ("/api/public/files/" +:+ bucket +:+ "/" +:+ key +:+ "/info") in
  match http_NewRequest "GET" url NoBody with
  | Err e => ret (Err (Errorf "failed to create request" e))
  | Ok httpReq =>
      let httpReq := set_Header (auth_headers cfg (Header httpReq)) httpReq in
      roundtrip c httpReq (decode_data dec_FileInfo zero_FileInfo)
  end.

Definition set_unless_empty (q : gmap string (list string)) (k v : string) :=
  if is_empty v then q else Values_Set q k v.

Definition ListFiles (c : Client) (req : ListFilesRequest) : Go (result ListFilesResult) :=
  let* cfg := load (config c) in
  let url := api cfg ("/api/public/buckets/" +:+ lf_Bucket req +:+ "/files") in
  match http_NewRequest "GET" url NoBody with
  | Err e => ret (Err (Errorf "failed to create request" e))
  | Ok httpReq =>
      let q := Query httpReq in
      let q := set_unless_empty q "prefix" (lf_Prefix req) in
      let q := set_unless_empty q "marker" (lf_Marker req) in
      let q := set_unless_empty q "delimiter" (lf_Delimiter req) in
      let q := if 0 <? lf_Limit req then Values_Set q "limit" (Itoa (lf_Limit req)) else q in
      let httpReq := set_Query q httpReq in
      let httpReq := set_Header (auth_headers cfg (Header httpReq)) httpReq in
      roundtrip c httpReq (decode_data dec_ListFilesResult zero_ListFilesResult)
  end.

Definition ListBuckets (c : Client) (tagCondition : string) (shared : bool)
  : Go (result (list string)) :=
  let* cfg := load (config c) in
  let url := api cfg "/api/public/buckets" in
  match http_NewRequest "GET" url NoBody with
  | Err e => ret (Err (Errorf "failed to create request" e))
  | Ok httpReq =>
      let q := Query httpReq in
      let q := set_unless_empty q "tagCondition" tagCondition in
      let q := if shared then Values_Set q "shared" "true" else q in
      let httpReq := set_Query q httpReq in
      let httpReq := set_Header (auth_headers cfg (Header httpReq)) httpReq in
      roundtrip c httpReq
        (decode_data (dec_wrapped "buckets" (dec_slice dec_string ""%string)) [])
  end.

(** The headers of the operations that send a JSON body. *)
Definition json_headers (cfg : Config) (h : gmap string string) : gmap string string :=
  auth_headers cfg (<[CONETENT_TYPE := "application/json"%string]> h).

Definition CreateBucket (c : Client) (req : CreateBucketRequest) : Go (result unit) :=
  let* cfg := load (config c) in
  let url := api cfg "/api/public/buckets" in
  let jsonData := JObject [("bucketName"%string, JString (cb_BucketName req));
                           ("region"%string, JString (cb_Region req))] in
  match http_NewRequest "POST" url (JSONBody jsonData) with
  | Err e => ret (Err (Errorf "failed to create request" e))
  | Ok httpReq =>
      let httpReq := set_Header (json_headers cfg (Header httpReq)) httpReq in
      roundtrip c httpReq no_decode
  end.

Definition DeleteBucket (c : Client) (bucketName : string) : Go (result unit) :=
  let* cfg := load (config c) in
  let url := api cfg ("/api/public/buckets/" +:+ bucketName) in
  match http_NewRequest "DELETE" url NoBody with
  | Err e => ret (Err (Errorf "failed to create request" e))
  | Ok httpReq =>
      let httpReq := set_Header (auth_headers cfg (Header httpReq)) httpReq in
      roundtrip c httpReq no_decode
  end.

Definition GetBucketDomains (c : Client) (bucketName : string) : Go (result (list string)) :=
  let* cfg := load (config c) in
  let url := api cfg ("/api/public/buckets/" +:+ bucketName +:+ "/domains") in
  match http_NewRequest "GET" url NoBody with
  | Err e => ret (Err (Errorf "failed to create request" e))
  | Ok httpReq =>
      let httpReq := set_Header (auth_headers cfg (Header httpReq)) httpReq in
      roundtrip c httpReq
        (decode_data (dec_wrapped "domains" (dec_slice dec_string ""%string)) [])
  end.

Definition SetBucketPrivate (c : Client) (req : SetBucketPrivateRequest) : Go (result unit) :=
  let* cfg := load (config c) in
  let url := api cfg ("/api/public/buckets/" +:+ sp_BucketName req +:+ "/private") in
  let jsonData := JObject [("isPrivate"%string, JBool (sp_IsPrivate req))] in
  match http_NewRequest "PUT" url (JSONBody jsonData) with
  | Err e => ret (Err (Errorf "failed to create request" e))
  | Ok httpReq =>
      let httpReq := set_Header (json_headers cfg (Header httpReq)) httpReq in
      roundtrip c httpReq no_decode
  end.

(** The body [CopyFile] and [MoveFile] marshal. *)
Definition dest_json (destBucket destKey : string) : JSON :=
  JObject [("destBucket"%string, JString destBucket); ("destKey"%string, JString destKey)].

Definition CopyFile (c : Client) (req : CopyFileRequest) : Go (result unit) :=
  let* cfg := load (config c) in
  let url := api cfg ("/api/public/files/" +:+ cp_SrcBucket req +:+ "/"
                      +:+ cp_SrcKey req +:+ "/copy") in
  match http_NewRequest "POST" url
          (JSONBody (dest_json (cp_DestBucket req) (cp_DestKey req))) with
  | Err e => ret (Err (Errorf "failed to create request" e))
  | Ok httpReq =>
      let httpReq := set_Header (json_headers cfg (Header httpReq)) httpReq in
      roundtrip c httpReq no_decode
  end.

Definition MoveFile (c : Client) (req : MoveFileRequest) : Go (result unit) :=
  let* cfg := load (config c) in
  let url := api cfg ("/api/public/files/" +:+ mv_SrcBucket req +:+ "/"
                      +:+ mv_SrcKey req +:+ "/move") in
  match http_NewRequest "POST" url
          (JSONBody (dest_json (mv_DestBucket req) (mv_DestKey req))) with
  | Err e => ret (Err (Errorf "failed to create request" e))
  | Ok httpReq =>
      let httpReq := set_Header (json_headers cfg (Header httpReq)) httpReq in
      roundtrip c httpReq no_decode
  end.

(** *** The operations of the client, as one type *)

Inductive Operation :=
| OpUploadFile (req : UploadRequest)
| OpUploadFromReader (req : UploadFromReaderRequest)
| OpUploadBytes (req : UploadBytesRequest)
| OpBatchUpload (req : BatchUploadRequest)
| OpPing
| OpDeleteFile (bucket key : string)
| OpGetFileURL (bucket key : string) (expires : Duration)
| OpGetFileInfo (bucket key : string)
| OpListFiles (req : ListFilesRequest)
| OpListBuckets (tagCondition : string) (shared : bool)
| OpCreateBucket (req : CreateBucketRequest)
| OpDeleteBucket (bucketName : string)
| OpGetBucketDomains (bucketName : string)
| OpSetBucketPrivate (req : SetBucketPrivateRequest)
| OpCopyFile (req : CopyFileRequest)
| OpMoveFile (req : MoveFileRequest).

Inductive Reply :=
| ReplyUpload (r : result UploadResult)
| ReplyBatch (r : result BatchUploadResult)
| ReplyNone (r : result unit)
| ReplyString (r : result string)
| ReplyFileInfo (r : result FileInfo)
| ReplyListFiles (r : result ListFilesResult)
| ReplyStrings (r : result (list string)).

Definition fmap_Go {A B} (f : A -> B) (m : Go A) : Go B :=
  let* a := m in ret (f a).

Definition call (c : Client) (op : Operation) : Go Reply :=
  match op with
  | OpUploadFile req => fmap_Go ReplyUpload (UploadFile c req)
  | OpUploadFromReader req => fmap_Go ReplyUpload (UploadFromReader c req)
  | OpUploadBytes req => fmap_Go ReplyUpload (UploadBytes c req)
  | OpBatchUpload req => fmap_Go ReplyBatch (BatchUpload c req)
  | OpPing => fmap_Go ReplyNone (Ping c)
  | OpDeleteFile bucket key => fmap_Go ReplyNone (DeleteFile c bucket key)
  | OpGetFileURL bucket key expires => fmap_Go ReplyString (GetFileURL c bucket key expires)
  | OpGetFileInfo bucket key => fmap_Go ReplyFileInfo (GetFileInfo c bucket key)
  | OpListFiles req => fmap_Go ReplyListFiles (ListFiles c req)
  | OpListBuckets tagCondition shared =>
      fmap_Go ReplyStrings (ListBuckets c tagCondition shared)
  | OpCreateBucket req => fmap_Go ReplyNone (CreateBucket c req)
  | OpDeleteBucket bucketName => fmap_Go ReplyNone (DeleteBucket c bucketName)
  | OpGetBucketDomains bucketName => fmap_Go ReplyStrings (GetBucketDomains c bucketName)
  | OpSetBucketPrivate req => fmap_Go ReplyNone (SetBucketPrivate c req)
  | OpCopyFile req => fmap_Go ReplyNone (CopyFile c req)
  | OpMoveFile req => fmap_Go ReplyNone (MoveFile c req)
  end.

End Client.

(* ------------------------------------------------------------------ *)
(** ** float64 and the verbs of fmt *)

(** A [float64] is an IEEE 754 binary64 number: 53 bits of precision,
    exponents below 1024.  The operations round to nearest, ties to even. *)
Definition float64 : Type := SpecFloat.spec_float.

(** [float64(z)] for an integer [z]. *)
Definition float64_of_int (z : Z) : float64 := SpecFloat.binary_normalize 53 1024 z 0 false.

Definition float64_add (x y : float64) : float64 := SpecFloat.SFadd 53 1024 x y.
Definition float64_div (x y : float64) : float64 := SpecFloat.SFdiv 53 1024 x y.

(** The integer nearest to [num / den] for [0 < den], ties to the even one. *)
Definition round_half_even (num den : Z) : Z :=
  let q := num / den in
  let r := num mod den in
  if 2 * r <? den then q
  else if den <? 2 * r then q + 1
  else if Z.even q then q else q + 1.

(** The verb [%.1f] of [fmt], which prints the decimal with one digit after
    the point that is nearest to the exact value of the float, ties to
    even. *)
Definition Sprintf_f1 (x : float64) : string :=
  match x with
  | SpecFloat.S754_nan => "NaN"%string
  | SpecFloat.S754_infinity s => if s then "-Inf"%string else "+Inf"%string
  | SpecFloat.S754_zero s => if s then "-0.0"%string else "0.0"%string
  | SpecFloat.S754_finite s m e =>
      let tenths :=
        if 0 <=? e then 10 * Z.pos m * 2 ^ e
        else round_half_even (10 * Z.pos m) (2 ^ (- e)) in
      (if s then "-"%string else ""%string) +:+ Itoa (tenths / 10) +:+ "."
      +:+ String (digit (tenths mod 10)) EmptyString
  end.

(* ------------------------------------------------------------------ *)
(** ** strings.Repeat and string indexing *)

Fixpoint repeat_string (s : string) (n : nat) : string :=
  match n with
  | O => EmptyString
  | S n' => s +:+ repeat_string s n'
  end.

(** [strings.Repeat(s, count)]: a negative count panics, and so does a
    result longer than the largest [int].  The memory for the result is
    taken to be there. *)
Definition Repeat (s : string) (count : Z) : outcome string :=
  if count <? 0 then Panicked "strings: negative Repeat count"
  else if max_int <? Z.of_nat (String.length s) * count
       then Panicked "strings: Repeat output length overflow"
       else Returned (repeat_string s (Z.to_nat count)).

(** [s[i]]: the byte at index [i], a panic outside of the string. *)
Definition index (s : string) (i : Z) : outcome ascii :=
  if i <? 0 then Panicked "index out of range"
  else match String.get (Z.to_nat i) s with
       | Some c => Returned c
       | None => Panicked "index out of range"
       end.

(* ------------------------------------------------------------------ *)
(** ** utils.go *)

(** [d.Seconds()], [d.Minutes()] and [d.Hours()] of package time: the whole
    units plus the remaining nanoseconds over the length of the unit, both
    as [float64]. *)
Definition Duration_in (unit : Duration) (d : Duration) : float64 :=
  float64_add (float64_of_int (Z.quot d unit))
              (float64_div (float64_of_int (Z.rem d unit)) (float64_of_int unit)).

Definition Seconds : Duration -> float64 := Duration_in Second.
Definition Minutes : Duration -> float64 := Duration_in Minute.
Definition Hours : Duration -> float64 := Duration_in Hour.

(** [d.Milliseconds()]. *)
Definition Milliseconds (d : Duration) : Z := Z.quot d 1000000.

Definition FormatDuration (d : Duration) : string :=
  if d <? Second then Itoa (Milliseconds d) +:+ "ms"
  else if d <? Minute then Sprintf_f1 (Seconds d) +:+ "s"
  else if d <? Hour then Sprintf_f1 (Minutes d) +:+ "m"
  else Sprintf_f1 (Hours d) +:+ "h".

(** The two runes of the bar, U+2588 and U+2591, in UTF-8. *)
Definition full_block : string := String "226" (String "150" (String "136" EmptyString)).
Definition light_shade : string := String "226" (String "150" (String "145" EmptyString)).

Definition CreateProgressBar (percentage width : Z) : outcome string :=
  let filled := Z.quot (wrap64 (percentage * width)) 100 in
  match Repeat full_block filled with
  | Panicked r => Panicked r
  | Returned done =>
      match Repeat light_shade (wrap64 (width - filled)) with
      | Panicked r => Panicked r
      | Returned rest => Returned ("[" +:+ done +:+ rest +:+ "]")
      end
  end.

(** [const unit = 1024]; the name [unit] is Rocq's one-element type. *)
Definition unit_ : Z := 1024.

(** The loop [for n := bytes / unit; n >= unit; n /= unit { div *= unit;
    exp++ }], with its three variables as state.  An [int64] is below
    2^63 and every round divides [n] by 1024, so the loop is over after at
    most six rounds. *)
Fixpoint FormatBytes_loop (rounds : nat) (n div exp : Z) : Z * Z * Z :=
  match rounds with
  | O => (n, div, exp)
  | S rounds' =>
      if unit_ <=? n
      then FormatBytes_loop rounds' (Z.quot n unit_) (wrap64 (div * unit_)) (wrap64 (exp + 1))
      else (n, div, exp)
  end.

Definition FormatBytes (bytes : Z) : outcome string :=
  if bytes <? unit_ then Returned (Itoa bytes +:+ " B")
  else
    let '(_, div, exp) := FormatBytes_loop 7 (Z.quot bytes unit_) unit_ 0 in
    match index "KMGTPE" exp with
    | Panicked r => Panicked r
    | Returned c =>
        Returned (Sprintf_f1 (float64_div (float64_of_int bytes) (float64_of_int div))
                  +:+ " " +:+ String c "B")
    end.

(* ------------------------------------------------------------------ *)
(** ** funcs.go *)

Definition float64_mul (x y : float64) : float64 := SpecFloat.SFmul 53 1024 x y.

(** [x > y] on [float64]: false when one of them is NaN. *)
Definition float64_gt (x y : float64) : bool := SpecFloat.SFltb y x.

(** Go leaves the result of the conversion of a [float64] to an integer
    type to the implementation when the value does not fit: [wild] is what
    the platform gives for such a float. *)
Class Platform := { wild : float64 -> Z }.

(** [int64(x)]: the fraction is dropped. *)
Definition int_of_float64 `{Platform} (x : float64) : Z :=
  match x with
  | SpecFloat.S754_zero _ => 0
  | SpecFloat.S754_finite s m e =>
      let magnitude := if 0 <=? e then Z.pos m * 2 ^ e else Z.pos m / 2 ^ (- e) in
      let v := if s then - magnitude else magnitude in
      if in_int64 v then v else wild x
  | _ => wild x
  end.

(** A [time.Time] as funcs.go meets it: the zero value, or what [time.Now]
    returned, which carries a reading of the monotonic clock in
    nanoseconds. *)
Inductive Time :=
| ZeroTime
| Reading (mono : Z).

Definition IsZero (t : Time) : bool :=
  match t with ZeroTime => true | Reading _ => false end.

(** [t.Sub(u)] for two readings of the clock: their difference, or the
    largest or smallest [Duration] when it does not fit. *)
Definition subMono (t u : Z) : Duration :=
  let d := wrap64 (t - u) in
  if (d <? 0) && (u <? t) then max_int
  else if (0 <? d) && (t <? u) then min_int
  else d.

Record ProgressMonitor := {
  startTime : Time;
  lastTime : Time;
  lastUploaded : Z;
  callback : bool
}.

(** [NewProgressMonitor], given what [time.Now] returns. *)
Definition NewProgressMonitor (now : Z) : ProgressMonitor :=
  {| startTime := Reading now; lastTime := ZeroTime; lastUploaded := 0; callback := false |}.

(** What a call of [OnProgress] shows: the arguments it hands to the
    callback, or the line it prints when there is none. *)
Inductive Report :=
| Called (uploaded total : Z) (percentage speed : float64) (eta : string)
| Printed (line : string).

(** The speed [OnProgress] computes, in KB/s. *)
Definition speed_of (pm : ProgressMonitor) (now uploaded : Z) : float64 :=
  match lastTime pm with
  | ZeroTime => SpecFloat.S754_zero false
  | Reading last =>
      let duration := Seconds (subMono now last) in
      if float64_gt duration (SpecFloat.S754_zero false)
      then
        let bytesPerSecond :=
          float64_div (float64_of_int (wrap64 (uploaded - lastUploaded pm))) duration in
        float64_div bytesPerSecond (float64_of_int 1024)
      else SpecFloat.S754_zero false
  end.

(** The estimate of the remaining time [OnProgress] computes. *)
Definition eta_of `{Platform} (speed : float64) (uploaded total : Z) : string :=
  if float64_gt speed (SpecFloat.S754_zero false) && (0 <? uploaded)
  then
    let remainingBytes := wrap64 (total - uploaded) in
    let remainingSeconds :=
      float64_div (float64_of_int remainingBytes) (float64_mul speed (float64_of_int 1024)) in
    FormatDuration (Duration_mul (int_of_float64 remainingSeconds) Second)
  else "Calculating..."%string.

(** The function literal [OnProgress] calls when there is no callback: the
    line it hands to [fmt.Printf]. *)
Definition print_progress `{Platform} (uploaded total : Z) (percentage speed : float64)
  (eta : string) : outcome string :=
  match CreateProgressBar (int_of_float64 percentage) 50 with
  | Panicked r => Panicked r
  | Returned progressBar =>
      match FormatBytes uploaded with
      | Panicked r => Panicked r
      | Returned uploadedStr =>
          match FormatBytes total with
          | Panicked r => Panicked r
          | Returned totalStr =>
              let speedStr := Sprintf_f1 speed +:+ " KB/s" in
              Returned (String "013" progressBar +:+ " " +:+ Sprintf_f1 percentage
                        +:+ "% (" +:+ uploadedStr +:+ "/" +:+ totalStr +:+ ") "
                        +:+ speedStr +:+ " ETA: " +:+ eta)
          end
      end
  end.

(** [pm.OnProgress(uploaded, total)], given what [time.Now] returns: what
    it shows and the monitor it leaves. *)
Definition ProgressMonitor_OnProgress `{Platform} (pm : ProgressMonitor) (now uploaded total : Z)
  : outcome (Report * ProgressMonitor) :=
  let percentage :=
    float64_mul (float64_div (float64_of_int uploaded) (float64_of_int total))
                (float64_of_int 100) in
  let speed := speed_of pm now uploaded in
  let eta := eta_of speed uploaded total in
  let pm' := {| startTime := startTime pm; lastTime := Reading now;
                lastUploaded := uploaded; callback := callback pm |} in
  if callback pm then Returned (Called uploaded total percentage speed eta, pm')
  else
    match print_progress uploaded total percentage speed eta with
    | Panicked r => Panicked r
    | Returned line => Returned (Printed line, pm')
    end.

(* ------------------------------------------------------------------ *)
(** ** Observing a run *)

(** The world after the events [evs] have happened. *)
Definition record (w : World) (evs : list Event) : World :=
  {| configs := configs w; disk := disk w; remote := remote w;
     events := events w ++ evs |}.

(** What running [m] from [w] returns, and the events it adds to the trace. *)
Definition value {A} (m : Go A) (w : World) : outcome A := fst (m w).
Definition during {A} (m : Go A) (w : World) : list Event :=
  drop (length (events w)) (events (snd (m w))).

(** [m], run from [w], gives [a] and adds exactly the events [evs]. *)
Definition steps {A} (m : Go A) (w : World) (a : outcome A) (evs : list Event) : Prop :=
  m w = (a, record w evs).

Definition is_net (e : Event) : bool :=
  match e with EvDo _ _ | EvSleep _ => true | _ => false end.

(** The network side of a trace: the calls of [Do] and the sleeps. *)
Definition net (evs : list Event) : list Event := List.filter is_net evs.

(** The arguments the upload observers were called with, in order. *)
Definition progress_calls (evs : list Event) : list (Z * Z) :=
  omap (fun e => match e with EvProgress u t => Some (u, t) | _ => None end) evs.

(** The arguments the batch observer was called with, in order. *)
Definition batch_calls (evs : list Event) : list (Z * Z * string) :=
  omap (fun e => match e with EvBatchProgress k t f => Some (k, t, f) | _ => None end) evs.

(** The requests handed to [Do], in order. *)
Definition requests (evs : list Event) : list Request :=
  omap (fun e => match e with EvDo r _ => Some r | _ => None end) evs.

(** The delay the code computes after attempt [i], and the delay of
    [(i+1)] seconds. *)
Definition backoff (i : Z) : Duration := Duration_mul (i + 1) Second.
Definition linear (i : Z) : Duration := (i + 1) * Second.

(** The network trace of one request whose attempts, numbered from [i],
    ended in [outs]: consecutive attempts are separated by one sleep. *)
Fixpoint schedule (delay : Z -> Duration) (i : Z) (req : Request) (outs : list Outcome)
  : list Event :=
  match outs with
  | [] => []
  | out :: rest =>
      EvDo req out ::
      match rest with
      | [] => []
      | _ :: _ => EvSleep (delay i) :: schedule delay (i + 1) req rest
      end
  end.

(** The outcomes of the attempts the retry loop makes with [n] rounds left,
    when the next call of [Do] is the [k]-th of the run and [srv] gives what
    every call returns. *)
Fixpoint retry_outs (srv : nat -> Request -> Outcome) (req : Request) (k n : nat)
  : list Outcome :=
  match n with
  | O => []
  | S n' =>
      let out := srv k req in
      out :: (if retryable out then retry_outs srv req (S k) n' else [])
  end.

(** One request of a run: the request and the outcomes of its attempts. *)
Definition Exchange : Type := Request * list Outcome.

(** What the retry contract says of one exchange under [cfg] when [srv]
    gives what the calls of [Do] return: at least one and at most
    [RetryCount + 1] attempts, every attempt but the last ended retryably, a
    retryable last attempt means the attempts were used up, and the
    outcomes are those [srv] gives. *)
Definition bounded_exchange (cfg : Config) (srv : nat -> Request -> Outcome)
  (x : Exchange) : Prop :=
  snd x <> [] /\
  len (snd x) <= RetryCount cfg + 1 /\
  Forall (fun out => retryable out = true) (removelast (snd x)) /\
  (forall out, last (snd x) = Some out -> retryable out = true ->
     len (snd x) = RetryCount cfg + 1) /\
  Forall (fun out => exists k, out = srv k (fst x)) (snd x).

(** The network trace of a sequence of exchanges. *)
Definition exchanges_trace (delay : Z -> Duration) (xs : list Exchange) : list Event :=
  flat_map (fun x => schedule delay 0 (fst x) (snd x)) xs.

(** How many requests an operation may send. *)
Definition request_limit (op : Operation) : nat :=
  match op with
  | OpBatchUpload req => length (Files req)
  | _ => 1%nat
  end.

(** The sizes of the results [io.Copy] gets from a reader with the results
    [rs] pending: it stops at the first error, and a reader whose results
    run out answers [(0, io.EOF)]. *)
Fixpoint read_sizes (rs : list ReadResult) : list Z :=
  match rs with
  | [] => [0]
  | (chunk, None) :: rest => len chunk :: read_sizes rest
  | (chunk, Some _) :: _ => [len chunk]
  end.

(** Running totals of [sizes], starting after [acc]. *)
Fixpoint running (acc : Z) (sizes : list Z) : list Z :=
  match sizes with
  | [] => []
  | n :: rest => (acc + n) :: running (acc + n) rest
  end.

(** The number of bytes a reader delivers to [io.Copy]. *)
Definition delivered (r : Reader) : Z := foldr Z.add 0 (read_sizes (reads r)).

(** What [io.Copy] returns for a reader with the results [rs] pending. *)
Fixpoint copied (rs : list ReadResult) : list byte * option error :=
  match rs with
  | [] => ([], None)
  | (chunk, None) :: rest => let '(data, e) := copied rest in (chunk ++ data, e)
  | (chunk, Some EOF) :: _ => (chunk, None)
  | (chunk, Some e) :: _ => (chunk, Some e)
  end.

(** The observer calls of an upload whose source has the known size
    [total]: one call after every [Read], with the running count of bytes
    and [total]; the counts never decrease, never exceed [total], and the
    last call reports [total] of [total]. *)
Definition reports_progress (r : Reader) (total : Z) (calls : list (Z * Z)) : Prop :=
  calls = (fun u => (u, total)) <$> running 0 (read_sizes (reads r)) /\
  (forall i j u v, (i <= j)%nat -> calls.*1 !! i = Some u -> calls.*1 !! j = Some v -> u <= v) /\
  Forall (fun c => 0 <= c.1 <= total /\ c.2 = total) calls /\
  last calls = Some (total, total).

(* ------------------------------------------------------------------ *)
(** ** Vocabulary of the statements and proofs *)

(** The outcomes of one run of the loop under [cfg]. *)
Definition retry_result (cfg : Config) (w : World) (req : Request) : list Outcome :=
  retry_outs (remote w) req (attempts (events w)) (Z.to_nat (RetryCount cfg + 1)).

(** [evs] is, on the network side, the trace of at most [n] exchanges, each
    within the retry contract. *)
Definition paced (cfg : Config) (srv : nat -> Request -> Outcome) (n : nat)
  (evs : list Event) : Prop :=
  exists xs : list Exchange,
    net evs = exchanges_trace backoff xs /\
    Forall (bounded_exchange cfg srv) xs /\
    (length xs <= n)%nat.

(** Run with the client's config in place, [m] adds a paced trace and
    leaves everything but the trace as it was. *)
Definition runs {A} (c : Client) (cfg : Config) (n : nat) (m : Go A) : Prop :=
  forall w, configs w !! config c = Some cfg ->
    exists a evs, steps m w a evs /\ paced cfg (remote w) n evs.

(** Running totals as [progressReader.Read] computes them, in [int64]. *)
Fixpoint running64 (acc : Z) (sizes : list Z) : list Z :=
  match sizes with
  | [] => []
  | n :: rest => wrap64 (acc + n) :: running64 (wrap64 (acc + n)) rest
  end.

(** The events [io.Copy] adds when it reads from [src]. *)
Definition copy_events (src : ioReader) : list Event :=
  match src with
  | PlainReader _ => []
  | ProgressReader pr =>
      if pr_callback pr
      then (fun u => EvProgress u (pr_total pr))
             <$> running64 (pr_read pr) (read_sizes (reads (pr_reader pr)))
      else []
  end.

Definition src_reads (src : ioReader) : list ReadResult :=
  match src with
  | PlainReader r => reads r
  | ProgressReader pr => reads (pr_reader pr)
  end.

(** The values of [RetryCount] for which the loop counter [i] reaches the
    bound without overflowing. *)
Definition retries_in_range (cfg : Config) : Prop := 0 <= RetryCount cfg < max_int.

(** Every call of [Do] returns a response with a status of 500 or more;
    every call of [Do] returns a response with status 400.  Both speak of
    what [Do] returns to the client, call by call, not of what reaches a
    server. *)
Definition always_5xx (srv : nat -> Request -> Outcome) : Prop :=
  forall k r, exists resp, srv k r = Responded resp /\ 500 <= StatusCode resp.
Definition always_400 (srv : nat -> Request -> Outcome) : Prop :=
  forall k r, exists resp, srv k r = Responded resp /\ StatusCode resp = 400.

(** Every call of [Do] ends in a way that calls for another attempt, a
    transport error or a status of 500 or more; no call of [Do] does. *)
Definition always_retryable (srv : nat -> Request -> Outcome) : Prop :=
  forall k r, retryable (srv k r) = true.
Definition never_retryable (srv : nat -> Request -> Outcome) : Prop :=
  forall k r, retryable (srv k r) = false.

(** [url.Parse] accepts every URL below the base URL of [cfg], so that
    [http.NewRequest] fails in no operation. *)
Definition base_url_parses `{Library} (cfg : Config) : Prop :=
  forall path, is_Some (url_Parse (TrimRight (BaseURL cfg) "/" +:+ path)).

(** The payload of [op] can be read: the file of an [UploadFile] and the
    files of a [BatchUpload] can be opened, no [Read] of the reader of an
    [UploadFromReader] fails.  The other operations read no payload. *)
Definition payload_readable (op : Operation) (w : World) : Prop :=
  match op with
  | OpUploadFile req => is_Some (disk w !! FilePath req)
  | OpUploadFromReader req => snd (copied (reads (fr_Reader req))) = None
  | OpBatchUpload req => forall f, f ∈ Files req -> is_Some (disk w !! f)
  | _ => True
  end.

(** [a] calls of [Do] for [m] requests, when the loop allows [n] rounds for
    each and [srv] gives what the calls return: at least one call for every
    request; [n] for every request when every call ends retryably; one for
    every request when none does. *)
Definition attempts_for (srv : nat -> Request -> Outcome) (n m a : nat) : Prop :=
  (m <= a)%nat /\
  (always_retryable srv -> a = (m * n)%nat) /\
  (never_retryable srv -> a = m).

(** The attempts of a sequence of exchanges. *)
Definition total_attempts (xs : list Exchange) : nat :=
  foldr (fun x n => (length (snd x) + n)%nat) 0%nat xs.

(** What [uploadReader] returns once the loop has ended in [lst]. *)
Definition upload_return (cfg : Config) (lst : option Outcome)
  : outcome (result UploadResult) :=
  match lst with
  | Some (TransportError e) =>
      Returned (Err (Errorf ("request failed after " +:+ Itoa (RetryCount cfg)
                             +:+ " retries") e))
  | None => Panicked "nil pointer dereference"
  | Some (Responded resp) => Returned (upload_reply resp)
  end.

(** What [uploadReader] returns and the events it adds, from the world and
    the arguments. *)
Definition upload_plan `{Library} (cfg : Config) (reader : ioReader) (filename : string)
  (req : UploadRequest) (w : World) : outcome (result UploadResult) * list Event :=
  match copied (src_reads reader) with
  | (_, Some e) => (Returned (Err (Errorf "failed to copy file data" e)), copy_events reader)
  | (data, None) =>
      match upload_request cfg filename data req with
      | Err e => (Returned (Err e), copy_events reader)
      | Ok httpReq =>
          let outs := retry_result cfg w httpReq in
          (upload_return cfg (last outs),
           copy_events reader ++ schedule backoff 0 httpReq outs)
      end
  end.

(** The reader [UploadFile] hands to [uploadReader] for a file holding [data]. *)
Definition file_reader (req : UploadRequest) (data : list byte) : ioReader :=
  if OnProgress req
  then ProgressReader {| pr_reader := bytes_NewReader data; pr_total := len data;
                         pr_read := 0; pr_callback := OnProgress req |}
  else PlainReader (bytes_NewReader data).

Definition UploadFile_plan `{Library} (cfg : Config) (req : UploadRequest) (w : World)
  : outcome (result UploadResult) * list Event :=
  match disk w !! FilePath req with
  | None =>
      (Returned (Err (Errorf "failed to open file"
                        (ErrLib ("open " +:+ FilePath req +:+ ": no such file or directory")))),
       [])
  | Some data => upload_plan cfg (file_reader req data) (Base (FilePath req)) req w
  end.

(** The outcomes of the calls of [Do] in a trace, in order. *)
Definition outcomes (evs : list Event) : list Outcome :=
  omap (fun e => match e with EvDo _ out => Some out | _ => None end) evs.

Definition is_upload (op : Operation) : bool :=
  match op with
  | OpUploadFile _ | OpUploadFromReader _ | OpUploadBytes _ => true
  | _ => false
  end.

(** The config [NewClient] leaves behind: each unset field at its default. *)
Definition with_defaults (cfg : Config) : Config :=
  {| BaseURL := BaseURL cfg; APIKey := APIKey cfg; APISecret := APISecret cfg;
     Timeout := if Timeout cfg =? 0 then 30 * Second else Timeout cfg;
     RetryCount := if RetryCount cfg =? 0 then 3 else RetryCount cfg;
     UserAgent := if is_empty (UserAgent cfg) then DEFAULT_USER_AGENT else UserAgent cfg |}.

(** The world with the config at [p] replaced. *)
Definition with_config (w : World) (p : loc) (cfg : Config) : World :=
  {| configs := <[p := cfg]> (configs w); disk := disk w; remote := remote w;
     events := events w |}.

(** The successes and the failures among per-file results, in order. *)
Definition successes (outs : list (result UploadResult)) : list UploadResult :=
  omap (fun r => match r with Ok v => Some v | Err _ => None end) outs.
Definition failures (outs : list (string * result UploadResult)) : list UploadError :=
  omap (fun x => match snd x with
                 | Err e => Some {| ue_File := fst x; ue_Error := Error e |}
                 | Ok _ => None
                 end) outs.

(** What the uploads of [files] return, one after the other, when the loop
    of [BatchUpload] reaches them at index [i] in the world [w]: each file
    is uploaded by [UploadFile] in the world the uploads before it have
    left.  A panic ends the list. *)
Fixpoint batch_uploads `{Library} (c : Client) (req : BatchUploadRequest) (i : Z)
  (files : list string) (w : World) : list (result UploadResult) :=
  match files with
  | [] => []
  | f :: rest =>
      let w1 := snd (when (bu_OnProgress req)
                       (emit (EvBatchProgress i (len (Files req)) f)) w) in
      match UploadFile c (batch_item req f) w1 with
      | (Returned r, w2) => r :: batch_uploads c req (i + 1) rest w2
      | (Panicked _, _) => []
      end
  end.

(** A 200 response whose envelope reports success and carries [data]. *)
Definition success_envelope (resp : Response) (data : UploadResult) : Prop :=
  StatusCode resp = 200 /\
  exists text doc env,
    Body resp = Readable text doc /\
    json_Unmarshal dec_uploadResponse zero_uploadResponse doc = Some env /\
    (up_Success env = true \/ up_Code env = 200) /\
    up_Data env = data.

(** A response that reports the error [e] without asking for a retry:
    either a 200 whose envelope says failure, or a status other than 200
    and below 500, whose body is an [APIError] in JSON or else plain text. *)
Definition error_envelope (resp : Response) (e : APIError) : Prop :=
  (StatusCode resp = 200 /\
   exists text doc env,
     Body resp = Readable text doc /\
     json_Unmarshal dec_uploadResponse zero_uploadResponse doc = Some env /\
     up_Success env = false /\ up_Code env <> 200 /\
     e = {| api_StatusCode := 200;
            api_Message := if is_empty (up_Message env) then up_Msg env
                           else up_Message env;
            api_Details := "" |}) \/
  (StatusCode resp <> 200 /\ StatusCode resp < 500 /\
   exists text doc,
     Body resp = Readable text doc /\
     e = match json_Unmarshal dec_APIError zero_APIError doc with
         | Some apiErr => set_api_StatusCode (StatusCode resp) apiErr
         | None => {| api_StatusCode := StatusCode resp; api_Message := text;
                      api_Details := "" |}
         end).

(* ------------------------------------------------------------------ *)
(** ** More vocabulary: replies, requests and traces *)

(** The error a reply carries, [None] for a nil error. *)
Definition reply_error (r : Reply) : option error :=
  match r with
  | ReplyUpload (Err e) | ReplyBatch (Err e) | ReplyNone (Err e) | ReplyString (Err e)
  | ReplyFileInfo (Err e) | ReplyListFiles (Err e) | ReplyStrings (Err e) => Some e
  | _ => None
  end.

(** The operations that go through the network once: all but [BatchUpload]. *)
Definition is_single (op : Operation) : bool :=
  match op with OpBatchUpload _ => false | _ => true end.

(** The operations that return nothing but an error. *)
Definition is_command (op : Operation) : bool :=
  match op with
  | OpDeleteFile _ _ | OpCreateBucket _ | OpDeleteBucket _ | OpSetBucketPrivate _
  | OpCopyFile _ | OpMoveFile _ => true
  | _ => false
  end.

Definition is_ping (op : Operation) : bool :=
  match op with OpPing => true | _ => false end.

(** The delays slept through, in order. *)
Definition sleeps (evs : list Event) : list Duration :=
  omap (fun e => match e with EvSleep d => Some d | _ => None end) evs.

Definition is_progress (e : Event) : bool :=
  match e with EvProgress _ _ => true | _ => false end.

(** Run with the client's config in place, [m] hands to [Do] only requests
    that satisfy [P]. *)
Definition sends {A} (c : Client) (cfg : Config) (P : Request -> Prop) (m : Go A) : Prop :=
  forall w, configs w !! config c = Some cfg ->
    exists a evs, steps m w a evs /\ Forall P (requests evs).

(** [s] ends in the byte [c]. *)
Definition ends_with (s : string) (c : ascii) : Prop :=
  exists s', s = s' +:+ String c EmptyString.

(** What every request of the client has in common: the address is the
    base URL without its trailing slashes followed by a path of the API (no
    path at all for [Ping]), and the headers are the credentials on top of
    at most a content type. *)
Definition addressed (cfg : Config) (r : Request) : Prop :=
  (exists path,
      URL r = TrimRight (BaseURL cfg) "/" +:+ path /\
      (path = ""%string \/ String.prefix "/api/public/" path = true)) /\
  (exists h : gmap string string,
      Header r = auth_headers cfg h /\
      (h = ∅ \/ exists v, h = {[ CONETENT_TYPE := v ]})).

Definition map_outcome {A B} (f : A -> B) (a : outcome A) : outcome B :=
  match a with Returned x => Returned (f x) | Panicked r => Panicked r end.

(** What [roundtrip] returns once the loop has ended in [lst]. *)
Definition roundtrip_return {T} (cfg : Config) (decode : Response -> result T)
  (lst : option Outcome) : outcome (result T) :=
  match lst with
  | Some (TransportError e) =>
      Returned (Err (Errorf ("request failed after " +:+ Itoa (RetryCount cfg)
                             +:+ " retries") e))
  | None => Panicked "nil pointer dereference"
  | Some (Responded resp) =>
      Returned (if negb (StatusCode resp =? 200) then Err (handleErrorResponse resp)
                else decode resp)
  end.

(** What [Ping] returns once the loop has ended in [lst]. *)
Definition Ping_return (cfg : Config) (lst : option Outcome) : outcome (result unit) :=
  match lst with
  | Some (TransportError e) =>
      Returned (Err (Errorf ("ping request failed after " +:+ Itoa (RetryCount cfg)
                             +:+ " retries") e))
  | None => Panicked "nil pointer dereference"
  | Some (Responded resp) =>
      Returned (if 400 <=? StatusCode resp
                then Err (ErrText ("ping failed with status code: "
                                   +:+ Itoa (StatusCode resp)))
                else Ok tt)
  end.

(** The operations built on [doRequestWithRetry]. *)
Definition is_roundtrip (op : Operation) : bool :=
  negb (is_upload op) && is_single op && negb (is_ping op).

(** The shape of a run of an operation built on [doRequestWithRetry]:
    either the request cannot be made and nothing happens, or one request
    is put through the loop and the last outcome decides the reply. *)
Definition roundtrip_shape `{Library} (c : Client) (cfg : Config) (op : Operation)
  (w : World) : Prop :=
  exists (T : Type) (decode : Response -> result T) (wrap : result T -> Reply),
    (forall e, reply_error (wrap (Err e)) = Some e) /\
    (forall v, reply_error (wrap (Ok v)) = None) /\
    (is_command op = true -> forall resp, exists v, decode resp = Ok v) /\
    ((exists e, steps (call c op) w
                  (Returned (wrap (Err (Errorf "failed to create request" e)))) []) \/
     (exists req,
        steps (call c op) w
          (map_outcome wrap (roundtrip_return cfg decode (last (retry_result cfg w req))))
          (schedule backoff 0 req (retry_result cfg w req)))).

(** The [UploadFromReaderRequest] that reads the bytes of an
    [UploadBytesRequest] through [bytes.NewReader], with their number as
    [Size]. *)
Definition as_reader_request (req : UploadBytesRequest) : UploadFromReaderRequest :=
  {| fr_Reader := bytes_NewReader (ub_Data req); fr_Filename := ub_Filename req;
     fr_Size := len (ub_Data req); fr_Bucket := ub_Bucket req; fr_Key := ub_Key req;
     fr_AllowedTypes := ub_AllowedTypes req; fr_Compress := ub_Compress req;
     fr_Quality := ub_Quality req; fr_Watermark := ub_Watermark req;
     fr_WatermarkText := ub_WatermarkText req;
     fr_WatermarkPosition := ub_WatermarkPosition req; fr_OnProgress := ub_OnProgress req |}.

(** [req] with another [Size] and with or without an observer. *)
Definition declare (size : Z) (observe : bool) (req : UploadFromReaderRequest)
  : UploadFromReaderRequest :=
  {| fr_Reader := fr_Reader req; fr_Filename := fr_Filename req;
     fr_Size := size; fr_Bucket := fr_Bucket req; fr_Key := fr_Key req;
     fr_AllowedTypes := fr_AllowedTypes req; fr_Compress := fr_Compress req;
     fr_Quality := fr_Quality req; fr_Watermark := fr_Watermark req;
     fr_WatermarkText := fr_WatermarkText req;
     fr_WatermarkPosition := fr_WatermarkPosition req; fr_OnProgress := observe |}.

(** The events of the loop of [BatchUpload] over [files], from index [i]
    and world [w]: for every file the call of the batch observer, if one is
    set, and the events of its upload. *)
Fixpoint batch_trace `{Library} (cfg : Config) (req : BatchUploadRequest) (i : Z)
  (files : list string) (w : World) : list Event :=
  match files with
  | [] => []
  | f :: rest =>
      let pre := if bu_OnProgress req
                 then [EvBatchProgress i (len (Files req)) f] else [] in
      let evs := snd (UploadFile_plan cfg (batch_item req f) (record w pre)) in
      pre ++ evs ++ batch_trace cfg req (i + 1) rest (record (record w pre) evs)
  end.

(** The failure [BatchUpload] records for a file that does not exist. *)
Definition not_found (f : string) : UploadError :=
  {| ue_File := f;
     ue_Error := "failed to open file: open " +:+ f +:+ ": no such file or directory" |}.

(* ------------------------------------------------------------------ *)
(** ** A concrete setting *)

(** A library for which every text is a URL without a query. *)
Definition plain_urls : Library :=
  {| url_Parse := fun _ => Some ∅; time_Parse := fun _ => None |}.

(** A config as a caller writes it, with only the address, the key and a
    retry count, and the same config once [NewClient] has seen it. *)
Definition fresh_config (retryCount : Z) : Config :=
  {| BaseURL := "http://storage.test/"; APIKey := "key"; APISecret := "";
     Timeout := 0; RetryCount := retryCount; UserAgent := "" |}.
Definition test_config (retryCount : Z) : Config := with_defaults (fresh_config retryCount).

(** Building the client from the config at [p] and calling [op] on it. *)
Definition session `{Library} (p : loc) (op : Operation) : Go Reply :=
  let* c := NewClient p in call c op.

Definition test_client : Client :=
  {| config := 1%positive; httpClient := {| http_Timeout := 30 * Second |} |}.

Definition hello : list byte := [Byte.x68; Byte.x65; Byte.x6c; Byte.x6c; Byte.x6f].

(** A world with one config, three files, no events yet and the server [srv]. *)
Definition test_world (cfg : Config) (srv : nat -> Request -> Outcome) : World :=
  {| configs := {[ 1%positive := cfg ]};
     disk := {[ "/tmp/a.txt"%string := hello; "/tmp/b.txt"%string := hello;
                "/tmp/c.txt"%string := [] ]};
     remote := srv;
     events := [] |}.

Definition quoted (s : string) : string := String "034" (s +:+ String "034" EmptyString).

(** The envelope [{"success":false,"code":500,"msg":"quota exceeded"}]. *)
Definition failure_doc : JSON :=
  JObject [("success"%string, JBool false); ("code"%string, JInt 500);
           ("msg"%string, JString "quota exceeded")].
Definition failure_text : string :=
  "{" +:+ quoted "success" +:+ ":false," +:+ quoted "code" +:+ ":500,"
  +:+ quoted "msg" +:+ ":" +:+ quoted "quota exceeded" +:+ "}".
Definition failure_response : Response :=
  {| StatusCode := 200; Body := Readable failure_text (Some failure_doc) |}.
Definition failure_envelope : uploadResponse :=
  {| up_Success := false; up_Message := ""; up_Data := zero_UploadResult;
     up_Code := 500; up_Msg := "quota exceeded" |}.

(** The envelope [{"code":200,"msg":"ok","data":{"key":"k","size":5}}]. *)
Definition success_doc : JSON :=
  JObject [("code"%string, JInt 200); ("msg"%string, JString "ok");
           ("data"%string, JObject [("key"%string, JString "k"); ("size"%string, JInt 5)])].
Definition success_text : string :=
  "{" +:+ quoted "code" +:+ ":200," +:+ quoted "msg" +:+ ":" +:+ quoted "ok" +:+ ","
  +:+ quoted "data" +:+ ":{" +:+ quoted "key" +:+ ":" +:+ quoted "k" +:+ ","
  +:+ quoted "size" +:+ ":5}}".
Definition success_response : Response :=
  {| StatusCode := 200; Body := Readable success_text (Some success_doc) |}.
Definition success_data : UploadResult :=
  {| ur_Key := "k"; ur_Bucket := ""; ur_Filename := ""; ur_Size := 5;
     ur_OriginalSize := 0; ur_Compressed := false; ur_Watermarked := false;
     ur_URL := "" |}.

(** Servers: one that always answers [resp], one that always answers with
    the bare status [st], one that fails the second request it sees. *)
Definition always (resp : Response) : nat -> Request -> Outcome :=
  fun _ _ => Responded resp.
Definition status_only (st : Z) : Response :=
  {| StatusCode := st; Body := Readable "" None |}.
Definition second_fails : nat -> Request -> Outcome :=
  fun k _ => match k with
             | 1%nat => Responded failure_response
             | _ => Responded success_response
             end.

Definition bytes_request (observe : bool) : UploadBytesRequest :=
  {| ub_Data := hello; ub_Filename := "hello.txt"; ub_Bucket := "docs"; ub_Key := "";
     ub_AllowedTypes := ["txt"%string; "md"%string]; ub_Compress := true;
     ub_Quality := 80; ub_Watermark := true; ub_WatermarkText := "X";
     ub_WatermarkPosition := ""; ub_OnProgress := observe |}.

Definition file_request (path : string) : UploadRequest :=
  {| FilePath := path; Bucket := "docs"; Key := ""; AllowedTypes := ["txt"%string; "md"%string];
     Compress := true; Quality := 80; Watermark := true; WatermarkText := "X";
     WatermarkPosition := ""; OnProgress := true |}.

Definition batch_request (files : list string) : BatchUploadRequest :=
  {| Files := files; bu_Bucket := "docs"; KeyPrefix := "batch"; bu_AllowedTypes := [];
     bu_Compress := false; bu_Quality := 0; bu_Watermark := false; bu_WatermarkText := "";
     bu_WatermarkPosition := ""; bu_OnProgress := true; OnFileProgress := false |}.

(** A non-seekable reader that hands out five bytes in two reads. *)
Definition stream_reader : Reader :=
  {| reads := [([Byte.x68; Byte.x65], None); ([Byte.x6c; Byte.x6c; Byte.x6f], None)];
     seek_end := None |}.

Definition reader_request (size : Z) : UploadFromReaderRequest :=
  {| fr_Reader := stream_reader; fr_Filename := "stream.bin"; fr_Size := size;
     fr_Bucket := ""; fr_Key := ""; fr_AllowedTypes := []; fr_Compress := false;
     fr_Quality := 0; fr_Watermark := false; fr_WatermarkText := "";
     fr_WatermarkPosition := ""; fr_OnProgress := true |}.

Definition success_envelope_value : uploadResponse :=
  {| up_Success := false; up_Message := ""; up_Data := success_data;
     up_Code := 200; up_Msg := "ok" |}.

Definition three_files : list string :=
  ["/tmp/a.txt"%string; "/tmp/b.txt"%string; "/tmp/c.txt"%string].

(** The server of TestRetryMechanism: two bare 500s, then success. *)
Definition third_time_lucky : nat -> Request -> Outcome :=
  fun k _ => match k with
             | 0%nat | 1%nat => Responded (status_only 500)
             | _ => Responded success_response
             end.

(** The answer of TestAPIError: status 400 with [{"code":400,"msg":"File too large"}]. *)
Definition too_large_response : Response :=
  {| StatusCode := 400;
     Body := Readable ("{" +:+ quoted "code" +:+ ":400," +:+ quoted "msg" +:+ ":"
                       +:+ quoted "File too large" +:+ "}")
               (Some (JObject [("code"%string, JInt 400);
                               ("msg"%string, JString "File too large")])) |}.

(* ------------------------------------------------------------------ *)
(** ** More of the concrete setting *)

(** A server that cannot be reached. *)
Definition unreachable : nat -> Request -> Outcome :=
  fun _ _ => TransportError (ErrLib "connection refused").

(** A library whose [url.Parse] refuses, as Go's does, a text with a line
    feed in it; the other texts are URLs without a query. *)
Fixpoint has_line_feed (s : string) : bool :=
  match s with
  | EmptyString => false
  | String a rest => (a =? "010")%char || has_line_feed rest
  end.
Definition no_line_feeds : Library :=
  {| url_Parse := fun s => if has_line_feed s then None else Some ∅;
     time_Parse := fun _ => None |}.

(** What [Do] returns for a request with a body against a server that
    answers 500: the first call is answered; the later calls find the body
    read and fail without reaching the server. *)
Definition body_drained : nat -> Request -> Outcome :=
  fun k _ => match k with
             | O => Responded (status_only 500)
             | _ => TransportError (ErrLib "http: ContentLength with Body length 0")
             end.

(** The answer 404 with the plain text [not found]. *)
Definition not_found_response : Response :=
  {| StatusCode := 404; Body := Readable "not found" None |}.

(** A reader that hands out one byte and then fails. *)
Definition broken_reader : Reader :=
  {| reads := [([Byte.x68], None); ([], Some (ErrLib "unexpected EOF"))];
     seek_end := None |}.

Definition broken_request : UploadFromReaderRequest :=
  {| fr_Reader := broken_reader; fr_Filename := "stream.bin"; fr_Size := 5;
     fr_Bucket := ""; fr_Key := ""; fr_AllowedTypes := []; fr_Compress := false;
     fr_Quality := 0; fr_Watermark := false; fr_WatermarkText := "";
     fr_WatermarkPosition := ""; fr_OnProgress := true |}.

Definition list_request : ListFilesRequest :=
  {| lf_Bucket := "docs"; lf_Prefix := "img/"; lf_Marker := ""; lf_Delimiter := "/";
     lf_Limit := 0 |}.

(** Two paths that are not on the disk of [test_world]. *)
Definition missing_files : list string := ["/tmp/x.txt"%string; "/tmp/y.txt"%string].

(** The conversion of amd64, which gives the smallest [int64] for every
    float that does not fit. *)
Definition amd64 : Platform := {| wild := fun _ => min_int |}.

(* ------------------------------------------------------------------ *)
(** ** Running the monad *)

Lemma record_nil w : record w [] = w.
Proof. destruct w; unfold record; simpl; by rewrite app_nil_r. Qed.

Lemma record_record w a b : record (record w a) b = record w (a ++ b).
Proof. unfold record; simpl; by rewrite app_assoc. Qed.

Lemma steps_ret {A} (a : A) w : steps (ret a) w (Returned a) [].
Proof. unfold steps, ret. by rewrite record_nil. Qed.

Lemma steps_panic {A} r w : steps (@panic A r) w (Panicked r) [].
Proof. unfold steps, panic. by rewrite record_nil. Qed.

Lemma steps_bind {A B} (m : Go A) (k : A -> Go B) w a evs1 o evs2 :
  steps m w (Returned a) evs1 ->
  steps (k a) (record w evs1) o evs2 ->
  steps (bind m k) w o (evs1 ++ evs2).
Proof.
  unfold steps, bind. intros -> ->. by rewrite record_record.
Qed.

Lemma steps_bind_panic {A B} (m : Go A) (k : A -> Go B) w r evs :
  steps m w (Panicked r) evs ->
  steps (bind m k) w (Panicked r) evs.
Proof. unfold steps, bind. by intros ->. Qed.

Lemma steps_emit e w : steps (emit e) w (Returned tt) [e].
Proof. reflexivity. Qed.

Lemma steps_when b m w evs :
  steps m w (Returned tt) evs ->
  steps (when b m) w (Returned tt) (if b then evs else []).
Proof. destruct b; simpl; [done | intros _; apply steps_ret]. Qed.

Lemma steps_Do req w :
  steps (httpClient_Do req) w
    (Returned (remote w (attempts (events w)) req))
    [EvDo req (remote w (attempts (events w)) req)].
Proof. reflexivity. Qed.

Lemma steps_load l cfg w :
  configs w !! l = Some cfg -> steps (load l) w (Returned cfg) [].
Proof. intros Hl. unfold steps, load. by rewrite Hl, record_nil. Qed.

Lemma steps_value {A} (m : Go A) w a evs : steps m w a evs -> value m w = a.
Proof. unfold steps, value. by intros ->. Qed.

Lemma steps_during {A} (m : Go A) w a evs : steps m w a evs -> during m w = evs.
Proof.
  unfold steps, during. intros ->. simpl. by rewrite drop_app_length.
Qed.

Lemma steps_fmap {A B} (f : A -> B) (m : Go A) w a evs :
  steps m w a evs ->
  steps (fmap_Go f m) w (match a with Returned x => Returned (f x) | Panicked r => Panicked r end) evs.
Proof.
  intros Hm. unfold fmap_Go. destruct a as [x|r].
  - rewrite <- (app_nil_r evs). eapply steps_bind; [done | apply steps_ret].
  - by apply steps_bind_panic.
Qed.

Lemma attempts_app a b : attempts (a ++ b) = (attempts a + attempts b)%nat.
Proof.
  induction a as [|[] a IH]; simpl; auto.
Qed.

Lemma net_app a b : net (a ++ b) = net a ++ net b.
Proof. apply List.filter_app. Qed.

Lemma progress_calls_app a b : progress_calls (a ++ b) = progress_calls a ++ progress_calls b.
Proof. apply omap_app. Qed.

Lemma batch_calls_app a b : batch_calls (a ++ b) = batch_calls a ++ batch_calls b.
Proof. apply omap_app. Qed.

Lemma requests_app a b : requests (a ++ b) = requests a ++ requests b.
Proof. apply omap_app. Qed.

Lemma steps_bind_eq {A B} (m : Go A) (k : A -> Go B) w a evs1 o evs2 evs :
  steps m w (Returned a) evs1 ->
  steps (k a) (record w evs1) o evs2 ->
  evs = evs1 ++ evs2 ->
  steps (bind m k) w o evs.
Proof. intros H1 H2 ->. by eapply steps_bind. Qed.

Lemma steps_Sleep_when b d w :
  steps (when b (time_Sleep d)) w (Returned tt) (if b then [EvSleep d] else []).
Proof. apply steps_when, steps_emit. Qed.

Lemma steps_bind_load {A} l cfg (k : Config -> Go A) w o evs :
  configs w !! l = Some cfg ->
  steps (k cfg) w o evs ->
  steps (bind (load l) k) w o evs.
Proof.
  intros Hl Hk. eapply steps_bind_eq; [by apply steps_load| |reflexivity].
  by rewrite record_nil.
Qed.

(* ------------------------------------------------------------------ *)
(** ** The retry loop *)

Lemma retry_outs_nonempty srv req k n : retry_outs srv req k (S n) <> [].
Proof. simpl. discriminate. Qed.

Lemma schedule_cons_cons delay i req o1 o2 outs :
  schedule delay i req (o1 :: o2 :: outs)
  = EvDo req o1 :: EvSleep (delay i) :: schedule delay (i + 1) req (o2 :: outs).
Proof. reflexivity. Qed.

Lemma last_cons_cons {A} (x y : A) l : last (x :: y :: l) = last (y :: l).
Proof. reflexivity. Qed.

Lemma retry_loop_steps n : forall i rc req lst w,
  (n = 0%nat \/ Z.of_nat n = rc + 1 - i) ->
  steps (retry_loop n i rc req lst) w
    (Returned (from_option Some lst
                 (last (retry_outs (remote w) req (attempts (events w)) n))))
    (schedule backoff i req (retry_outs (remote w) req (attempts (events w)) n)).
Proof.
  induction n as [|n IH]; intros i rc req lst w Hinv.
  - apply steps_ret.
  - destruct Hinv as [Hinv|Hinv]; [discriminate|].
    cbn [retry_loop retry_outs].
    set (k := attempts (events w)).
    set (out := remote w k req).
    destruct (retryable out) eqn:Hr.
    + destruct n as [|n].
      * (* the last round: i = rc, no sleep *)
        assert (Hi : (i <? rc) = false) by (apply Z.ltb_ge; lia).
        eapply steps_bind_eq; [apply steps_Do| |].
        -- fold k out. rewrite Hr, Hi.
           eapply steps_bind_eq; [apply (steps_Sleep_when false)| apply steps_ret | reflexivity].
        -- reflexivity.
      * assert (Hi : (i <? rc) = true) by (apply Z.ltb_lt; lia).
        specialize (IH (i + 1) rc req (Some out) (record w [EvDo req out; EvSleep (backoff i)])).
        assert (Hk : attempts (events (record w [EvDo req out; EvSleep (backoff i)])) = S k).
        { simpl. rewrite attempts_app. simpl. fold k. lia. }
        rewrite Hk in IH. simpl remote in IH.
        remember (retry_outs (remote w) req (S k) (S n)) as outs eqn:Houts.
        destruct outs as [|o outs]; [by destruct (retry_outs_nonempty _ _ _ _ (eq_sym Houts))|].
        rewrite schedule_cons_cons, last_cons_cons.
        assert (Hl : from_option Some lst (last (o :: outs))
                     = from_option Some (Some out) (last (o :: outs))).
        { destruct (last (o :: outs)) eqn:E; [done|]. by apply last_None in E. }
        rewrite Hl.
        eapply steps_bind_eq; [apply steps_Do| |].
        -- fold k out. rewrite Hr, Hi.
           eapply steps_bind_eq; [apply (steps_Sleep_when true)| |reflexivity].
           rewrite record_record. apply IH. right. lia.
        -- reflexivity.
    + eapply steps_bind_eq; [apply steps_Do| |].
      * fold k out. rewrite Hr. apply steps_ret.
      * reflexivity.
Qed.

Lemma retry_steps cfg req w :
  steps (retry cfg req) w
    (Returned (last (retry_result cfg w req)))
    (schedule backoff 0 req (retry_result cfg w req)).
Proof.
  unfold retry, retry_result.
  pose proof (retry_loop_steps (Z.to_nat (RetryCount cfg + 1)) 0 (RetryCount cfg) req None w) as H.
  destruct (last _) eqn:E in H |- *; simpl in H; apply H; lia.
Qed.

(* ------------------------------------------------------------------ *)
(** ** Traces within the retry contract *)

Lemma retry_outs_length srv req n : forall k,
  (length (retry_outs srv req k n) <= n)%nat.
Proof.
  induction n as [|n IH]; intros k; simpl; [lia|].
  destruct (retryable _); simpl; [specialize (IH (S k))|]; lia.
Qed.

Lemma retry_outs_init srv req n : forall k,
  Forall (fun out => retryable out = true) (removelast (retry_outs srv req k n)).
Proof.
  induction n as [|n IH]; intros k; [constructor|].
  cbn [retry_outs]. destruct (retryable (srv k req)) eqn:Hr; [|constructor].
  specialize (IH (S k)).
  destruct (retry_outs srv req (S k) n) eqn:E; [constructor|].
  cbn [removelast]. constructor; [done|]. exact IH.
Qed.

Lemma retry_outs_exhausted srv req n : forall k out,
  last (retry_outs srv req k n) = Some out -> retryable out = true ->
  length (retry_outs srv req k n) = n.
Proof.
  induction n as [|n IH]; intros k out; [done|].
  cbn [retry_outs]. destruct (retryable (srv k req)) eqn:Hr.
  - destruct n as [|n]; [done|].
    specialize (IH (S k) out).
    remember (retry_outs srv req (S k) (S n)) as outs eqn:Houts.
    destruct outs as [|o outs]; [by destruct (retry_outs_nonempty _ _ _ _ (eq_sym Houts))|].
    rewrite last_cons_cons. intros Hl Ho. simpl. f_equal. by apply IH.
  - simpl. intros [= <-]. congruence.
Qed.

Lemma retry_outs_served srv req n : forall k,
  Forall (fun out => exists k', out = srv k' req) (retry_outs srv req k n).
Proof.
  induction n as [|n IH]; intros k; [constructor|].
  cbn [retry_outs]. constructor; [by exists k|].
  destruct (retryable _); [apply IH | constructor].
Qed.

Lemma retry_result_bounded cfg w req :
  retry_result cfg w req <> [] ->
  bounded_exchange cfg (remote w) (req, retry_result cfg w req).
Proof.
  unfold retry_result, bounded_exchange, len. cbn [fst snd].
  set (n := Z.to_nat (RetryCount cfg + 1)).
  intros Hne.
  assert (Hn : n <> 0%nat) by (intros E; rewrite E in Hne; by apply Hne).
  pose proof (retry_outs_length (remote w) req n (attempts (events w))).
  repeat split.
  - done.
  - lia.
  - apply retry_outs_init.
  - intros out Hl Hr. rewrite (retry_outs_exhausted _ _ _ _ _ Hl Hr). lia.
  - apply retry_outs_served.
Qed.

Lemma net_schedule delay i req outs : forall i',
  i' = i -> net (schedule delay i' req outs) = schedule delay i req outs.
Proof.
  revert i. induction outs as [|o outs IH]; intros i i' ->; [done|].
  destruct outs as [|o' outs]; [done|].
  rewrite schedule_cons_cons. unfold net in *. simpl. do 2 f_equal.
  by apply IH.
Qed.

Lemma paced_nil cfg srv evs : net evs = [] -> paced cfg srv 0 evs.
Proof. intros He. exists []. rewrite He. repeat split; [constructor | done]. Qed.

Lemma paced_app cfg srv n1 n2 evs1 evs2 :
  paced cfg srv n1 evs1 -> paced cfg srv n2 evs2 ->
  paced cfg srv (n1 + n2) (evs1 ++ evs2).
Proof.
  intros (xs1 & E1 & B1 & L1) (xs2 & E2 & B2 & L2).
  exists (xs1 ++ xs2). repeat split.
  - rewrite net_app, E1, E2. unfold exchanges_trace. by rewrite flat_map_app.
  - by apply Forall_app.
  - rewrite length_app. lia.
Qed.

Lemma paced_le cfg srv n n' evs : (n <= n')%nat -> paced cfg srv n evs -> paced cfg srv n' evs.
Proof. intros Hle (xs & E & B & L). exists xs. repeat split; [done..|lia]. Qed.

Lemma paced_retry cfg w req :
  paced cfg (remote w) 1 (schedule backoff 0 req (retry_result cfg w req)).
Proof.
  destruct (retry_result cfg w req) as [|o outs] eqn:E.
  - apply (paced_le _ _ 0); [lia|]. by apply paced_nil.
  - exists [(req, o :: outs)]. repeat split.
    + unfold exchanges_trace. cbn [flat_map fst snd]. rewrite app_nil_r. by apply net_schedule.
    + constructor; [|constructor]. rewrite <- E. apply retry_result_bounded. by rewrite E.
    + simpl; lia.
Qed.

Section Runs.

Context (c : Client) (cfg : Config).

Lemma runs_ret {A} (a : A) : runs c cfg 0 (ret a).
Proof. intros w _. exists (Returned a), []. split; [apply steps_ret | by apply paced_nil]. Qed.

Lemma runs_panic {A} r : runs c cfg 0 (@panic A r).
Proof. intros w _. exists (Panicked r), []. split; [apply steps_panic | by apply paced_nil]. Qed.

Lemma runs_le {A} n n' (m : Go A) : (n <= n')%nat -> runs c cfg n m -> runs c cfg n' m.
Proof.
  intros Hle Hm w Hw. destruct (Hm w Hw) as (a & evs & Hs & Hp).
  exists a, evs. split; [done | by eapply paced_le].
Qed.

Lemma runs_bind {A B} n1 n2 (m : Go A) (k : A -> Go B) :
  runs c cfg n1 m -> (forall a, runs c cfg n2 (k a)) -> runs c cfg (n1 + n2) (bind m k).
Proof.
  intros Hm Hk w Hw. destruct (Hm w Hw) as ([a|r] & evs1 & Hs1 & Hp1).
  - destruct (Hk a (record w evs1) Hw) as (o & evs2 & Hs2 & Hp2).
    exists o, (evs1 ++ evs2). split; [by eapply steps_bind | by apply paced_app].
  - exists (Panicked r), evs1. split; [by apply steps_bind_panic|].
    apply (paced_le _ _ n1); [lia | done].
Qed.

Lemma runs_bind0 {A B} n (m : Go A) (k : A -> Go B) :
  runs c cfg 0 m -> (forall a, runs c cfg n (k a)) -> runs c cfg n (bind m k).
Proof. apply (runs_bind 0 n). Qed.

Lemma runs_emit_progress u t : runs c cfg 0 (emit (EvProgress u t)).
Proof. intros w _. exists (Returned tt), [EvProgress u t]. split; [apply steps_emit | by apply paced_nil]. Qed.

Lemma runs_emit_batch k t f : runs c cfg 0 (emit (EvBatchProgress k t f)).
Proof. intros w _. exists (Returned tt), [EvBatchProgress k t f]. split; [apply steps_emit | by apply paced_nil]. Qed.

Lemma runs_when b m : runs c cfg 0 m -> runs c cfg 0 (when b m).
Proof. destruct b; [done | intros _; apply runs_ret]. Qed.

Lemma runs_retry req : runs c cfg 1 (retry cfg req).
Proof.
  intros w _. eexists _, _. split; [apply retry_steps | apply paced_retry].
Qed.

Lemma runs_os_Open path : runs c cfg 0 (os_Open path).
Proof.
  intros w _. unfold os_Open, steps.
  destruct (disk w !! path); eexists _, []; (split; [by rewrite record_nil | by apply paced_nil]).
Qed.

End Runs.

(* ------------------------------------------------------------------ *)
(** ** io.Copy *)

Lemma copy_loop_plain rs : forall fuel s written w,
  (length rs < fuel)%nat ->
  steps (copy_loop fuel (PlainReader {| reads := rs; seek_end := s |}) written) w
    (Returned (written ++ fst (copied rs), snd (copied rs))) [].
Proof.
  induction rs as [|[chunk er] rs IH]; intros fuel s written w Hf;
    (destruct fuel as [|fuel]; [simpl in Hf; lia|]).
  - cbn [copy_loop Read Reader_Read reads].
    eapply steps_bind_eq; [apply steps_ret| |reflexivity]. apply steps_ret.
  - cbn [copy_loop Read Reader_Read reads].
    eapply steps_bind_eq; [apply steps_ret| |reflexivity].
    cbn [fst snd copied]. rewrite record_nil.
    destruct er as [[]|].
    1-5: rewrite <- (record_nil w) at 1; apply steps_ret.
    destruct (copied rs) as [data e] eqn:E. cbn [fst snd].
    specialize (IH fuel s (written ++ chunk) w). cbn [fst snd] in IH.
    rewrite app_assoc. apply IH. simpl in Hf. lia.
Qed.

Lemma read_progress_steps r total rd cb w :
  steps (Read (ProgressReader {| pr_reader := r; pr_total := total; pr_read := rd;
                                pr_callback := cb |})) w
    (Returned (fst (Reader_Read r),
               ProgressReader {| pr_reader := snd (Reader_Read r); pr_total := total;
                                 pr_read := wrap64 (rd + len (fst (fst (Reader_Read r))));
                                 pr_callback := cb |}))
    (if cb then [EvProgress (wrap64 (rd + len (fst (fst (Reader_Read r))))) total] else []).
Proof.
  unfold steps, Read, progressReader_Read, bind, when, emit, ret, record.
  cbn [pr_reader pr_callback pr_total pr_read].
  destruct (Reader_Read r) as [res r'], cb; cbn [fst snd]; [done|].
  destruct w; simpl; by rewrite app_nil_r.
Qed.

Lemma copy_loop_progress rs : forall fuel s total rd cb written w,
  (length rs < fuel)%nat ->
  steps (copy_loop fuel
           (ProgressReader {| pr_reader := {| reads := rs; seek_end := s |};
                              pr_total := total; pr_read := rd; pr_callback := cb |})
           written) w
    (Returned (written ++ fst (copied rs), snd (copied rs)))
    (if cb then (fun u => EvProgress u total) <$> running64 rd (read_sizes rs) else []).
Proof.
  induction rs as [|[chunk er] rs IH]; intros fuel s total rd cb written w Hf;
    (destruct fuel as [|fuel]; [simpl in Hf; lia|]).
  - cbn [copy_loop].
    eapply steps_bind_eq.
    + apply read_progress_steps.
    + cbn [fst snd copied]. apply steps_ret.
    + by destruct cb.
  - cbn [copy_loop].
    destruct er as [er|].
    + eapply steps_bind_eq.
      * apply read_progress_steps.
      * cbn [fst snd reads]. instantiate (1 := []).
        destruct er; apply steps_ret.
      * by destruct er, cb.
    + eapply steps_bind_eq.
      * apply read_progress_steps.
      * cbn [fst snd reads copied].
        destruct (copied rs) as [data e] eqn:E. cbn [fst snd].
        rewrite app_assoc. apply IH. simpl in Hf. lia.
      * by destruct cb.
Qed.

Lemma io_Copy_steps src w :
  steps (io_Copy src) w (Returned (copied (src_reads src))) (copy_events src).
Proof.
  unfold io_Copy.
  destruct src as [[rs s]|[[rs s] total rd cb]];
    cbn [pending reads pr_reader src_reads copy_events pr_callback pr_total pr_read].
  - pose proof (copy_loop_plain rs (S (length rs)) s [] w) as H.
    destruct (copied rs); apply H; lia.
  - pose proof (copy_loop_progress rs (S (length rs)) s total rd cb [] w) as H.
    destruct (copied rs); apply H; lia.
Qed.

Lemma net_copy_events src : net (copy_events src) = [].
Proof.
  destruct src as [|pr]; [done|]. simpl. destruct (pr_callback pr); [|done].
  induction (running64 _ _); [done|]. done.
Qed.

Lemma runs_io_Copy c cfg src : runs c cfg 0 (io_Copy src).
Proof.
  intros w _. eexists _, _. split; [apply io_Copy_steps|].
  apply paced_nil, net_copy_events.
Qed.

(* ------------------------------------------------------------------ *)
(** ** Every operation is paced *)

Section Operations.

Context `{Library} (c : Client) (cfg : Config).

Lemma runs_any_ret {A} n (a : A) : runs c cfg n (ret a).
Proof. apply (runs_le _ _ 0); [lia | apply runs_ret]. Qed.

Lemma runs_any_panic {A} n r : runs c cfg n (@panic A r).
Proof. apply (runs_le _ _ 0); [lia | apply runs_panic]. Qed.

Lemma runs_bind_load {A} n (k : Config -> Go A) :
  runs c cfg n (k cfg) -> runs c cfg n (bind (load (config c)) k).
Proof.
  intros Hk w Hw. destruct (Hk w Hw) as (a & evs & Hs & Hp).
  exists a, evs. split; [|done].
  eapply steps_bind_eq; [by apply steps_load | by rewrite record_nil | done].
Qed.

Lemma runs_bind_retry {A} n req (k : option Outcome -> Go A) :
  (forall a, runs c cfg 0 (k a)) -> runs c cfg (S n) (bind (retry cfg req) k).
Proof.
  intros Hk. apply (runs_le _ _ (1 + 0)); [lia|].
  apply runs_bind; [apply runs_retry | done].
Qed.

Ltac runs_tac :=
  repeat first
    [ apply runs_any_ret
    | apply runs_any_panic
    | apply runs_bind_load
    | apply runs_bind_retry; intros ?
    | apply runs_bind0;
        [ first [ apply runs_io_Copy | apply runs_os_Open
                | apply runs_when; first [apply runs_emit_progress | apply runs_emit_batch] ]
        | intros ? ]
    | match goal with
      | |- runs _ _ _ (match ?x with _ => _ end) => destruct x
      end ].

Lemma runs_uploadReader reader filename size req n :
  runs c cfg (S n) (uploadReader c reader filename size req).
Proof. unfold uploadReader. runs_tac. Qed.

Lemma runs_UploadFile req n : runs c cfg (S n) (UploadFile c req).
Proof. unfold UploadFile. runs_tac; apply runs_uploadReader. Qed.

Lemma runs_UploadFromReader req : runs c cfg 1 (UploadFromReader c req).
Proof. apply runs_uploadReader. Qed.

Lemma runs_UploadBytes req : runs c cfg 1 (UploadBytes c req).
Proof. apply runs_uploadReader. Qed.

Lemma runs_BatchUpload_loop req files : forall i res,
  runs c cfg (length files) (BatchUpload_loop c req i files res).
Proof.
  induction files as [|f files IH]; intros i res; cbn [BatchUpload_loop length].
  - apply runs_ret.
  - apply runs_bind0; [apply runs_when, runs_emit_batch|intros _].
    apply (runs_bind _ _ 1 (length files)); [apply runs_UploadFile|].
    intros r. apply IH.
Qed.

Lemma runs_BatchUpload req : runs c cfg (length (Files req)) (BatchUpload c req).
Proof.
  unfold BatchUpload.
  apply (runs_le _ _ (length (Files req) + 0)); [lia|].
  apply runs_bind; [apply runs_BatchUpload_loop|intros res].
  apply runs_bind0; [apply runs_when, runs_emit_batch|intros _]. apply runs_ret.
Qed.

Lemma runs_doRequestWithRetry req : runs c cfg 1 (doRequestWithRetry c req).
Proof. unfold doRequestWithRetry. runs_tac. Qed.

Lemma runs_roundtrip {T} req (decode : Response -> result T) :
  runs c cfg 1 (roundtrip c req decode).
Proof.
  unfold roundtrip. apply (runs_le _ _ (1 + 0)); [lia|].
  apply runs_bind; [apply runs_doRequestWithRetry|intros r]. runs_tac.
Qed.

Lemma runs_fmap {A B} (f : A -> B) n (m : Go A) :
  runs c cfg n m -> runs c cfg n (fmap_Go f m).
Proof.
  intros Hm. unfold fmap_Go. apply (runs_le _ _ (n + 0)); [lia|].
  apply runs_bind; [done | intros a; apply runs_ret].
Qed.

(** Every operation stays within its number of exchanges, each of them
    within the retry contract. *)
Lemma runs_call op : runs c cfg (request_limit op) (call c op).
Proof.
  destruct op; cbn [call request_limit]; apply runs_fmap.
  - apply runs_UploadFile.
  - apply runs_UploadFromReader.
  - apply runs_UploadBytes.
  - apply runs_BatchUpload.
  - unfold Ping. runs_tac.
  - unfold DeleteFile. runs_tac; apply runs_roundtrip.
  - unfold GetFileURL. runs_tac; apply runs_roundtrip.
  - unfold GetFileInfo. runs_tac; apply runs_roundtrip.
  - unfold ListFiles. runs_tac; apply runs_roundtrip.
  - unfold ListBuckets. runs_tac; apply runs_roundtrip.
  - unfold CreateBucket. runs_tac; apply runs_roundtrip.
  - unfold DeleteBucket. runs_tac; apply runs_roundtrip.
  - unfold GetBucketDomains. runs_tac; apply runs_roundtrip.
  - unfold SetBucketPrivate. runs_tac; apply runs_roundtrip.
  - unfold CopyFile. runs_tac; apply runs_roundtrip.
  - unfold MoveFile. runs_tac; apply runs_roundtrip.
Qed.

End Operations.

(* ------------------------------------------------------------------ *)
(** ** Attempts and delays *)

Lemma attempts_net evs : attempts (net evs) = attempts evs.
Proof. induction evs as [|[] evs IH]; simpl; auto. Qed.

Lemma attempts_schedule delay req outs : forall i,
  attempts (schedule delay i req outs) = length outs.
Proof.
  induction outs as [|o outs IH]; intros i; [done|].
  destruct outs as [|o' outs]; [done|].
  rewrite schedule_cons_cons. cbn [attempts length]. by rewrite IH.
Qed.

Lemma attempts_exchanges delay xs :
  attempts (exchanges_trace delay xs) = total_attempts xs.
Proof.
  induction xs as [|x xs IH]; [done|].
  unfold exchanges_trace in *. cbn [flat_map total_attempts foldr].
  by rewrite attempts_app, attempts_schedule, IH.
Qed.

Lemma total_attempts_bound cfg srv xs :
  0 <= RetryCount cfg ->
  Forall (bounded_exchange cfg srv) xs ->
  Z.of_nat (total_attempts xs) <= Z.of_nat (length xs) * (RetryCount cfg + 1).
Proof.
  intros Hrc. induction 1 as [|x xs Hx _ IH]; [simpl; lia|].
  destruct Hx as (_ & Hlen & _). unfold len in Hlen.
  cbn [total_attempts foldr length]. fold (total_attempts xs). nia.
Qed.

Lemma runs_during `{Library} c cfg op w :
  configs w !! config c = Some cfg ->
  paced cfg (remote w) (request_limit op) (during (call c op) w) /\
  configs (snd (call c op w)) = configs w.
Proof.
  intros Hw. destruct (runs_call c cfg op w Hw) as (a & evs & Hs & Hp).
  rewrite (steps_during _ _ _ _ Hs). split; [done|].
  unfold steps in Hs. by rewrite Hs.
Qed.

Lemma single_exchange cfg srv (xs : list Exchange) :
  Forall (bounded_exchange cfg srv) xs -> (length xs <= 1)%nat ->
  total_attempts xs <> 0%nat ->
  exists x, xs = [x] /\ bounded_exchange cfg srv x /\ total_attempts xs = length (snd x).
Proof.
  intros HB Hl Hne. destruct xs as [|x [|y xs]]; [done| |simpl in Hl; lia].
  exists x. split; [done|]. split; [by inversion HB|]. simpl. lia.
Qed.

Lemma last_is_Some {A} (l : list A) : l <> [] -> exists x, last l = Some x.
Proof.
  intros Hl. destruct (last l) eqn:E; [by eexists|]. by apply last_None in E.
Qed.

Lemma last_elem_of {A} (l : list A) x : last l = Some x -> x ∈ l.
Proof.
  rewrite last_Some. intros [l' ->]. apply elem_of_app. right. by apply list_elem_of_singleton.
Qed.

Lemma retryable_5xx srv k r : always_5xx srv -> retryable (srv k r) = true.
Proof.
  intros Hs. destruct (Hs k r) as (resp & -> & Hst). simpl.
  apply negb_true_iff, Z.ltb_ge. lia.
Qed.

Lemma not_retryable_400 srv k r : always_400 srv -> retryable (srv k r) = false.
Proof.
  intros Hs. destruct (Hs k r) as (resp & -> & Hst). simpl. by rewrite Hst.
Qed.

Lemma schedule_ext (f g : Z -> Duration) req outs : forall i,
  (forall j, i <= j < i + len outs - 1 -> f j = g j) ->
  schedule f i req outs = schedule g i req outs.
Proof.
  induction outs as [|o outs IH]; intros i Hfg; [done|].
  destruct outs as [|o' outs]; [done|].
  rewrite !schedule_cons_cons. rewrite (Hfg i), (IH (i + 1)); [done| |].
  - intros j Hj. apply Hfg. unfold len in *. cbn [length] in *. lia.
  - unfold len. cbn [length]. lia.
Qed.

Lemma backoff_linear i : 0 <= i -> i + 1 <= 9223372036 -> backoff i = linear i.
Proof.
  intros H0 H1. unfold backoff, linear, Duration_mul, wrap64, Second.
  rewrite Z.mod_small; lia.
Qed.

Lemma schedule_at delay req outs : forall (j : nat) i o o',
  outs !! j = Some o -> outs !! S j = Some o' ->
  schedule delay i req outs !! (2 * j)%nat = Some (EvDo req o) /\
  schedule delay i req outs !! (2 * j + 1)%nat = Some (EvSleep (delay (i + Z.of_nat j))) /\
  schedule delay i req outs !! (2 * j + 2)%nat = Some (EvDo req o').
Proof.
  induction outs as [|o1 outs IH]; intros j i o o' Hj Hj'; [done|].
  destruct outs as [|o2 outs]; [done|].
  rewrite schedule_cons_cons.
  destruct j as [|j].
  - simpl in Hj, Hj'. injection Hj as <-. injection Hj' as <-.
    replace (i + Z.of_nat 0) with i by lia. repeat split; done.
  - simpl in Hj, Hj'.
    destruct (IH j (i + 1) o o' Hj Hj') as (E1 & E2 & E3).
    replace (i + Z.of_nat (S j)) with (i + 1 + Z.of_nat j) by lia.
    replace (2 * S j)%nat with (S (S (2 * j))) by lia.
    replace (S (S (2 * j)) + 1)%nat with (S (S (2 * j + 1))) by lia.
    replace (S (S (2 * j)) + 2)%nat with (S (S (2 * j + 2))) by lia.
    repeat split; done.
Qed.

(** C8. Within the range in which the delay fits a Duration, every
    operation's network trace is the trace of its exchanges in which
    attempt i and attempt i+1 of a request are separated by one sleep of
    exactly (i+1) seconds: linear, without jitter and without a cap. *)
Theorem backoff_is_linear `{Library} (c : Client) (cfg : Config) (op : Operation) (w : World) :
  configs w !! config c = Some cfg ->
  RetryCount cfg <= 9223372036 ->
  exists xs : list Exchange,
    net (during (call c op) w) = exchanges_trace linear xs /\
    (length xs <= request_limit op)%nat /\
    forall req outs (i : nat) o o',
      (req, outs) ∈ xs -> outs !! i = Some o -> outs !! S i = Some o' ->
      schedule linear 0 req outs !! (2 * i)%nat = Some (EvDo req o) /\
      schedule linear 0 req outs !! (2 * i + 1)%nat
        = Some (EvSleep ((Z.of_nat i + 1) * Second)) /\
      schedule linear 0 req outs !! (2 * i + 2)%nat = Some (EvDo req o').
Proof.
  intros Hw Hrc.
  destruct (runs_during c cfg op w Hw) as [(xs & Hnet & HB & Hlen) _].
  exists xs. split; [|split; [done|]].
  - rewrite Hnet. unfold exchanges_trace.
    clear Hnet Hlen. induction HB as [|x xs Hx _ IH]; [done|].
    cbn [flat_map]. rewrite IH. f_equal.
    apply schedule_ext. intros j Hj. apply backoff_linear; [lia|].
    destruct Hx as (_ & Hl & _). lia.
  - intros req outs i o o' _ Hi Hi'.
    destruct (schedule_at linear req outs i 0 o o' Hi Hi') as (E1 & E2 & E3).
    repeat split; [done| |done]. rewrite E2. reflexivity.
Qed.

(* ------------------------------------------------------------------ *)
(** ** Uploads, step by step *)

Lemma attempts_copy_events src : attempts (copy_events src) = 0%nat.
Proof.
  destruct src as [|pr]; [done|]. simpl. destruct (pr_callback pr); [|done].
  by induction (running64 _ _).
Qed.

Lemma retry_result_record cfg w evs req :
  attempts evs = 0%nat -> retry_result cfg (record w evs) req = retry_result cfg w req.
Proof.
  intros He. unfold retry_result. simpl. rewrite attempts_app, He. by rewrite Nat.add_0_r.
Qed.

Section Plans.

Context `{Library} (c : Client) (cfg : Config).

Lemma uploadReader_steps reader filename size req w :
  configs w !! config c = Some cfg ->
  steps (uploadReader c reader filename size req) w
    (fst (upload_plan cfg reader filename req w))
    (snd (upload_plan cfg reader filename req w)).
Proof.
  intros Hw. unfold uploadReader, upload_plan.
  pose proof (io_Copy_steps reader w) as Hcopy.
  destruct (copied (src_reads reader)) as [data [e|]]; cbn [fst snd].
  - eapply steps_bind_eq; [exact Hcopy|apply steps_ret|by rewrite app_nil_r].
  - destruct (upload_request cfg filename data req) as [httpReq|e] eqn:Hreq; cbn [fst snd].
    + eapply steps_bind; [exact Hcopy|]. cbn [fst snd].
      eapply steps_bind_load; [done|]. rewrite Hreq.
      rewrite <- (retry_result_record cfg w _ httpReq (attempts_copy_events reader)).
      eapply steps_bind_eq; [apply retry_steps| |by rewrite app_nil_r].
      destruct (last _) as [[resp|e]|]; cbn [upload_return];
        first [apply steps_ret | apply steps_panic].
    + eapply steps_bind_eq; [exact Hcopy| |by rewrite app_nil_r]. cbn [fst snd].
      eapply steps_bind_load; [done|]. rewrite Hreq. apply steps_ret.
Qed.

Lemma UploadFile_steps req w :
  configs w !! config c = Some cfg ->
  steps (UploadFile c req) w (fst (UploadFile_plan cfg req w)) (snd (UploadFile_plan cfg req w)).
Proof.
  intros Hw. unfold UploadFile, UploadFile_plan, os_Open, file_reader.
  destruct (disk w !! FilePath req) as [data|] eqn:Hd.
  - unfold steps, bind. rewrite Hd.
    destruct (OnProgress req) eqn:Hp; rewrite <- ?Hp; by apply uploadReader_steps.
  - unfold steps, bind. rewrite Hd. cbn [fst snd]. by rewrite record_nil.
Qed.

End Plans.

(* ------------------------------------------------------------------ *)
(** ** Readers over bytes and running totals *)

Lemma copyBufSize_pos : (0 < copyBufSize)%nat.
Proof. unfold copyBufSize. lia. Qed.

Lemma chunks_concat size : (0 < size)%nat -> forall fuel data,
  (length data <= fuel)%nat -> concat (chunks_of fuel size data) = data.
Proof.
  intros Hs. induction fuel as [|fuel IH]; intros data Hf.
  - destruct data; [done | simpl in Hf; lia].
  - destruct data as [|b data]; [done|].
    cbn [chunks_of concat]. rewrite IH.
    + apply take_drop.
    + rewrite length_drop. simpl in *. lia.
Qed.

Lemma copied_clean chunks :
  copied ((fun c => (c, None)) <$> chunks) = (concat chunks, None).
Proof.
  induction chunks as [|c chunks IH]; [done|].
  cbn [fmap list_fmap copied concat]. change (list_fmap _ _ ?f ?l) with (f <$> l).
  by rewrite IH.
Qed.

Lemma copied_bytes data : copied (reads (bytes_NewReader data)) = (data, None).
Proof.
  unfold bytes_NewReader. cbn [reads]. rewrite copied_clean.
  by rewrite (chunks_concat _ copyBufSize_pos).
Qed.

Lemma read_sizes_clean chunks :
  foldr Z.add 0 (read_sizes ((fun c => (c, None)) <$> chunks)) = len (concat chunks).
Proof.
  induction chunks as [|c chunks IH]; [done|].
  cbn [fmap list_fmap read_sizes concat foldr]. change (list_fmap _ _ ?f ?l) with (f <$> l).
  rewrite IH. unfold len. rewrite length_app. lia.
Qed.

Lemma delivered_bytes data : delivered (bytes_NewReader data) = len data.
Proof.
  unfold delivered, bytes_NewReader. cbn [reads]. rewrite read_sizes_clean.
  by rewrite (chunks_concat _ copyBufSize_pos).
Qed.

Lemma read_sizes_nonneg rs : Forall (fun n => 0 <= n) (read_sizes rs).
Proof.
  induction rs as [|[chunk [e|]] rs IH]; cbn [read_sizes];
    repeat constructor; unfold len; try lia. exact IH.
Qed.

Lemma read_sizes_nonempty rs : read_sizes rs <> [].
Proof. by destruct rs as [|[chunk [e|]] rs]. Qed.

Lemma wrap64_small z : min_int <= z <= max_int -> wrap64 z = z.
Proof.
  unfold min_int, max_int, wrap64. intros Hz. rewrite Z.mod_small; lia.
Qed.

Lemma running64_exact sizes : forall acc,
  Forall (fun n => 0 <= n) sizes -> 0 <= acc ->
  acc + foldr Z.add 0 sizes <= max_int ->
  running64 acc sizes = running acc sizes.
Proof.
  induction sizes as [|n sizes IH]; intros acc Hs Hacc Hsum; [done|].
  inversion Hs as [|? ? Hn Hs']; subst. cbn [foldr] in Hsum.
  assert (Hrest : 0 <= foldr Z.add 0 sizes).
  { clear -Hs'. induction Hs'; simpl; lia. }
  cbn [running64 running]. rewrite wrap64_small by (unfold min_int, max_int in *; lia).
  f_equal. apply IH; [done|lia|lia].
Qed.

Lemma running_bounds sizes : forall acc j v,
  Forall (fun n => 0 <= n) sizes ->
  running acc sizes !! j = Some v -> acc <= v <= acc + foldr Z.add 0 sizes.
Proof.
  induction sizes as [|n sizes IH]; intros acc j v Hs Hj; [done|].
  inversion Hs as [|? ? Hn Hs']; subst. cbn [running foldr] in *.
  assert (Hrest : 0 <= foldr Z.add 0 sizes).
  { clear -Hs'. induction Hs'; simpl; lia. }
  destruct j as [|j]; simpl in Hj.
  - injection Hj as <-. lia.
  - specialize (IH _ _ _ Hs' Hj). lia.
Qed.

Lemma running_sorted sizes : forall acc (i j : nat) u v,
  Forall (fun n => 0 <= n) sizes -> (i <= j)%nat ->
  running acc sizes !! i = Some u -> running acc sizes !! j = Some v -> u <= v.
Proof.
  induction sizes as [|n sizes IH]; intros acc i j u v Hs Hij Hi Hj; [done|].
  inversion Hs as [|? ? Hn Hs']; subst. cbn [running] in *.
  destruct i as [|i], j as [|j]; simpl in Hi, Hj; try lia.
  - injection Hi as <-. injection Hj as <-. lia.
  - injection Hi as <-. by destruct (running_bounds _ _ _ _ Hs' Hj).
  - eapply (IH _ i j); eauto; lia.
Qed.

Lemma running_last sizes : forall acc,
  sizes <> [] -> last (running acc sizes) = Some (acc + foldr Z.add 0 sizes).
Proof.
  induction sizes as [|n sizes IH]; intros acc Hne; [done|].
  destruct sizes as [|m sizes].
  - simpl. f_equal. lia.
  - cbn [running foldr] in *. rewrite last_cons_cons.
    rewrite (IH (acc + n)) by done. f_equal. simpl. lia.
Qed.

Lemma progress_calls_fmap total us :
  progress_calls ((fun u => EvProgress u total) <$> us) = (fun u => (u, total)) <$> us.
Proof. induction us as [|u us IH]; [done|]. simpl. by f_equal. Qed.

Lemma progress_calls_schedule delay req outs : forall i,
  progress_calls (schedule delay i req outs) = [].
Proof.
  induction outs as [|o outs IH]; intros i; [done|].
  destruct outs as [|o' outs]; [done|].
  rewrite schedule_cons_cons. simpl. apply IH.
Qed.

(** The observer calls of a copy through a [progressReader] whose total
    is the number of bytes its reader delivers. *)
Lemma copy_reports_progress r total :
  delivered r = total -> total <= max_int ->
  reports_progress r total
    (progress_calls
       (copy_events (ProgressReader {| pr_reader := r; pr_total := total; pr_read := 0;
                                       pr_callback := true |}))).
Proof.
  intros Hd Hmax. unfold delivered in Hd.
  cbn [copy_events pr_callback pr_total pr_read pr_reader].
  pose proof (read_sizes_nonneg (reads r)) as Hnn.
  rewrite progress_calls_fmap.
  rewrite running64_exact; [|exact Hnn|lia|by rewrite Hd].
  unfold reports_progress. repeat split.
  - intros i j u v Hij Hi Hj.
    rewrite <- list_fmap_compose in Hi, Hj.
    rewrite list_fmap_id in Hi, Hj. by eapply running_sorted.
  - apply Forall_fmap, Forall_forall. intros v Hv. simpl.
    apply list_elem_of_lookup in Hv as [j Hj].
    pose proof (running_bounds _ _ _ _ Hnn Hj) as Hb. rewrite Hd in Hb. split; [lia | done].
  - rewrite fmap_last, running_last by apply read_sizes_nonempty.
    simpl. by rewrite Hd.
Qed.

(* ------------------------------------------------------------------ *)
(** ** Progress reports and the upload envelope *)

Lemma progress_calls_upload_plan `{Library} cfg reader filename req w :
  progress_calls (snd (upload_plan cfg reader filename req w))
  = progress_calls (copy_events reader).
Proof.
  unfold upload_plan.
  destruct (copied (src_reads reader)) as [data [e|]]; [done|].
  destruct (upload_request cfg filename data req); cbn [snd]; [|done].
  by rewrite progress_calls_app, progress_calls_schedule, app_nil_r.
Qed.

(** C4. An upload with an observer, from a source whose size is known,
    calls the observer once after every read with the bytes read so far
    and the total; the counts never decrease and never exceed the total,
    and the last call reports the whole size.  Stated for a local file,
    for bytes in memory and for a reader whose determined size is the
    number of bytes it delivers.  A reader whose size cannot be
    determined (not positive once the seek has been tried) gets no
    observer call. *)
Theorem progress_reports `{Library} (c : Client) (cfg : Config) (w : World) :
  configs w !! config c = Some cfg ->
  (forall req data,
      disk w !! FilePath req = Some data -> OnProgress req = true ->
      len data <= max_int ->
      reports_progress (bytes_NewReader data) (len data)
        (progress_calls (during (UploadFile c req) w))) /\
  (forall req,
      ub_OnProgress req = true -> len (ub_Data req) <= max_int ->
      reports_progress (bytes_NewReader (ub_Data req)) (len (ub_Data req))
        (progress_calls (during (UploadBytes c req) w))) /\
  (forall req,
      fr_OnProgress req = true -> 0 < determined_size req ->
      delivered (fr_Reader req) = determined_size req ->
      determined_size req <= max_int ->
      reports_progress (fr_Reader req) (determined_size req)
        (progress_calls (during (UploadFromReader c req) w))) /\
  (forall req,
      determined_size req <= 0 ->
      progress_calls (during (UploadFromReader c req) w) = []) /\
  (forall req,
      fr_Size req <= 0 -> seek_end (fr_Reader req) = None ->
      progress_calls (during (UploadFromReader c req) w) = []).
Proof.
  intros Hw.
  assert (Hnone : forall req, determined_size req <= 0 ->
            progress_calls (during (UploadFromReader c req) w) = []).
  { intros req Hsize. unfold UploadFromReader.
    rewrite (steps_during _ _ _ _ (uploadReader_steps c cfg _ _ _ _ w Hw)).
    apply Z.ltb_ge in Hsize. rewrite Hsize, andb_false_r, progress_calls_upload_plan.
    reflexivity. }
  split; [|split; [|split; [|split]]].
  - intros req data Hd Hp Hmax.
    rewrite (steps_during _ _ _ _ (UploadFile_steps c cfg req w Hw)).
    unfold UploadFile_plan, file_reader. rewrite Hd, Hp, progress_calls_upload_plan.
    apply copy_reports_progress; [apply delivered_bytes | done].
  - intros req Hp Hmax. unfold UploadBytes.
    rewrite (steps_during _ _ _ _ (uploadReader_steps c cfg _ _ _ _ w Hw)).
    rewrite Hp, progress_calls_upload_plan.
    apply copy_reports_progress; [apply delivered_bytes | done].
  - intros req Hp Hpos Hd Hmax. unfold UploadFromReader.
    rewrite (steps_during _ _ _ _ (uploadReader_steps c cfg _ _ _ _ w Hw)).
    apply Z.ltb_lt in Hpos. rewrite Hp, Hpos, progress_calls_upload_plan. cbn [andb].
    by apply copy_reports_progress.
  - exact Hnone.
  - intros req Hsize Hseek. apply Hnone. unfold determined_size.
    rewrite Hseek. by destruct (fr_Size req <=? 0).
Qed.

Lemma outcomes_app a b : outcomes (a ++ b) = outcomes a ++ outcomes b.
Proof. apply omap_app. Qed.

Lemma outcomes_schedule delay req outs : forall i,
  outcomes (schedule delay i req outs) = outs.
Proof.
  induction outs as [|o outs IH]; intros i; [done|].
  destruct outs as [|o' outs]; [done|].
  rewrite schedule_cons_cons. simpl. f_equal. apply IH.
Qed.

Lemma outcomes_copy_events src : outcomes (copy_events src) = [].
Proof.
  destruct src as [|pr]; [done|]. simpl. destruct (pr_callback pr); [|done].
  by induction (running64 _ _).
Qed.

(** Whatever reader and request an upload goes through, a last outcome
    that is a response decides what is returned. *)
Lemma upload_plan_reply `{Library} cfg reader filename req w resp :
  last (outcomes (snd (upload_plan cfg reader filename req w))) = Some (Responded resp) ->
  fst (upload_plan cfg reader filename req w) = Returned (upload_reply resp).
Proof.
  unfold upload_plan.
  destruct (copied (src_reads reader)) as [data [e|]]; cbn [fst snd].
  { by rewrite outcomes_copy_events. }
  destruct (upload_request cfg filename data req); cbn [fst snd].
  - rewrite outcomes_app, outcomes_copy_events, outcomes_schedule. simpl.
    by intros ->.
  - by rewrite outcomes_copy_events.
Qed.

Lemma upload_reply_failure resp text doc env :
  StatusCode resp = 200 -> Body resp = Readable text doc ->
  json_Unmarshal dec_uploadResponse zero_uploadResponse doc = Some env ->
  up_Success env = false -> up_Code env <> 200 ->
  upload_reply resp
  = Err (ErrAPI {| api_StatusCode := 200;
                   api_Message := if is_empty (up_Message env) then up_Msg env
                                  else up_Message env;
                   api_Details := "" |}).
Proof.
  intros Hst Hb Hdoc Hs Hc. unfold upload_reply. rewrite Hb, Hst, Hdoc, Hs.
  apply Z.eqb_neq in Hc. by rewrite Hc.
Qed.

(** C1 (as amended). When the last response to an upload (UploadFile,
    UploadFromReader, UploadBytes) has status 200 and its envelope decodes
    with success false and a code other than 200, the upload returns an
    APIError with the status code 200 and the envelope's message, the
    [message] member when it is not empty and the [msg] member otherwise;
    it does not return the decoded data. *)
Theorem upload_failure_envelope `{Library} (c : Client) (cfg : Config) (op : Operation)
  (w : World) (resp : Response) (text : string) (doc : option JSON) (env : uploadResponse) :
  configs w !! config c = Some cfg ->
  is_upload op = true ->
  last (outcomes (during (call c op) w)) = Some (Responded resp) ->
  StatusCode resp = 200 ->
  Body resp = Readable text doc ->
  json_Unmarshal dec_uploadResponse zero_uploadResponse doc = Some env ->
  up_Success env = false ->
  up_Code env <> 200 ->
  value (call c op) w
  = Returned (ReplyUpload
      (Err (ErrAPI {| api_StatusCode := 200;
                      api_Message := if is_empty (up_Message env) then up_Msg env
                                     else up_Message env;
                      api_Details := "" |}))).
Proof.
  intros Hw Hop Hlast Hst Hb Hdoc Hs Hc.
  pose proof (upload_reply_failure resp text doc env Hst Hb Hdoc Hs Hc) as Hreply.
  destruct op; try discriminate Hop; cbn [call] in *.
  - pose proof (UploadFile_steps c cfg req w Hw) as Hsteps.
    pose proof (steps_fmap ReplyUpload _ _ _ _ Hsteps) as Hf.
    rewrite (steps_during _ _ _ _ Hf) in Hlast. rewrite (steps_value _ _ _ _ Hf).
    unfold UploadFile_plan in *.
    destruct (disk w !! FilePath req) as [data|]; [|done].
    by rewrite (upload_plan_reply _ _ _ _ _ _ Hlast), Hreply.
  - pose proof (uploadReader_steps c cfg _ _ _ _ w Hw : steps (UploadFromReader c req) w _ _) as Hsteps.
    pose proof (steps_fmap ReplyUpload _ _ _ _ Hsteps) as Hf.
    rewrite (steps_during _ _ _ _ Hf) in Hlast. rewrite (steps_value _ _ _ _ Hf).
    by rewrite (upload_plan_reply _ _ _ _ _ _ Hlast), Hreply.
  - pose proof (uploadReader_steps c cfg _ _ _ _ w Hw : steps (UploadBytes c req) w _ _) as Hsteps.
    pose proof (steps_fmap ReplyUpload _ _ _ _ Hsteps) as Hf.
    rewrite (steps_during _ _ _ _ Hf) in Hlast. rewrite (steps_value _ _ _ _ Hf).
    by rewrite (upload_plan_reply _ _ _ _ _ _ Hlast), Hreply.
Qed.

(* ------------------------------------------------------------------ *)
(** ** Requests *)

Lemma requests_schedule delay req outs : forall i,
  requests (schedule delay i req outs) = replicate (length outs) req.
Proof.
  induction outs as [|o outs IH]; intros i; [done|].
  destruct outs as [|o' outs]; [done|].
  rewrite schedule_cons_cons. cbn [requests omap list_omap length replicate]. f_equal.
  apply IH.
Qed.

Lemma requests_copy_events src : requests (copy_events src) = [].
Proof.
  destruct src as [|pr]; [done|]. simpl. destruct (pr_callback pr); [|done].
  by induction (running64 _ _).
Qed.

Lemma retry_result_nonempty cfg w req : 0 <= RetryCount cfg -> retry_result cfg w req <> [].
Proof.
  intros Hrc. unfold retry_result.
  destruct (Z.to_nat (RetryCount cfg + 1)) as [|n] eqn:E; [lia|]. apply retry_outs_nonempty.
Qed.

Lemma doRequestWithRetry_steps c cfg req w :
  configs w !! config c = Some cfg ->
  steps (doRequestWithRetry c req) w
    (Returned
       match last (retry_result cfg w req) with
       | Some (TransportError e) =>
           Err (Errorf ("request failed after " +:+ Itoa (RetryCount cfg) +:+ " retries") e)
       | Some (Responded resp) => Ok (Some resp)
       | None => Ok None
       end)
    (schedule backoff 0 req (retry_result cfg w req)).
Proof.
  intros Hw. unfold doRequestWithRetry.
  eapply steps_bind_load; [done|].
  eapply steps_bind_eq; [apply retry_steps| |by rewrite app_nil_r].
  destruct (last (retry_result cfg w req)) as [[resp|e]|]; apply steps_ret.
Qed.

Lemma roundtrip_steps {T} c cfg req (decode : Response -> result T) w :
  configs w !! config c = Some cfg ->
  exists a, steps (roundtrip c req decode) w a
              (schedule backoff 0 req (retry_result cfg w req)).
Proof.
  intros Hw. unfold roundtrip.
  pose proof (doRequestWithRetry_steps c cfg req w Hw) as Hr.
  destruct (last (retry_result cfg w req)) as [[resp|e]|].
  - destruct (negb (StatusCode resp =? 200)) eqn:Hst; eexists;
      (eapply steps_bind_eq; [exact Hr| |by rewrite app_nil_r]);
      cbn beta iota; rewrite Hst; apply steps_ret.
  - eexists. eapply steps_bind_eq; [exact Hr|apply steps_ret|by rewrite app_nil_r].
  - eexists. eapply steps_bind_eq; [exact Hr|apply steps_panic|by rewrite app_nil_r].
Qed.

Lemma Duration_String_Hour : Duration_String Hour = "1h0m0s"%string.
Proof. reflexivity. Qed.

Lemma GetFileURL_request_expires `{Library} cfg bucket key r :
  GetFileURL_request cfg bucket key Hour = Ok r ->
  Query r !! "expires"%string = Some ["1h0m0s"%string].
Proof.
  unfold GetFileURL_request.
  destruct (http_NewRequest _ _ _) as [httpReq|e]; [|done].
  intros [= <-]. cbn [Query set_Header set_Query]. change (0 <? Hour) with true.
  cbn [Query set_Query]. rewrite Duration_String_Hour. unfold Values_Set.
  apply lookup_insert_eq.
Qed.

Lemma GetFileURL_steps `{Library} c cfg bucket key expires w :
  configs w !! config c = Some cfg ->
  exists a,
    steps (GetFileURL c bucket key expires) w a
      (match GetFileURL_request cfg bucket key expires with
       | Ok r => schedule backoff 0 r (retry_result cfg w r)
       | Err _ => []
       end).
Proof.
  intros Hw. unfold GetFileURL.
  destruct (GetFileURL_request cfg bucket key expires) as [r|e] eqn:Hr.
  - destruct (roundtrip_steps c cfg r (decode_data (dec_wrapped "url" dec_string) ""%string) w Hw)
      as [a Ha].
    exists a. eapply steps_bind_load; [done|]. by rewrite Hr.
  - exists (Returned (Err e)). eapply steps_bind_load; [done|]. rewrite Hr. apply steps_ret.
Qed.

(** C7. Every request [GetFileURL] sends for an expiry of one hour carries
    the query parameter expires=1h0m0s, whatever the bucket and the key;
    and it does send one when the URL parses and RetryCount is not
    negative. *)
Theorem GetFileURL_expires `{Library} (c : Client) (cfg : Config) (bucket key : string)
  (w : World) :
  configs w !! config c = Some cfg ->
  (forall r, r ∈ requests (during (GetFileURL c bucket key Hour) w) ->
     Query r !! "expires"%string = Some [Duration_String Hour] /\
     Values_Get (Query r) "expires" = "1h0m0s"%string) /\
  (forall r, GetFileURL_request cfg bucket key Hour = Ok r -> 0 <= RetryCount cfg ->
     r ∈ requests (during (GetFileURL c bucket key Hour) w)).
Proof.
  intros Hw. destruct (GetFileURL_steps c cfg bucket key Hour w Hw) as [a Ha].
  rewrite (steps_during _ _ _ _ Ha).
  destruct (GetFileURL_request cfg bucket key Hour) as [r0|e] eqn:Hr.
  - rewrite requests_schedule. split.
    + intros r Hin. apply elem_of_replicate in Hin as [-> _].
      pose proof (GetFileURL_request_expires _ _ _ _ Hr) as Hq.
      unfold Values_Get. by rewrite Hq, Duration_String_Hour.
    + intros r [= <-] Hrc. apply elem_of_replicate. split; [done|].
      pose proof (retry_result_nonempty cfg w r0 Hrc). by destruct (retry_result cfg w r0).
  - split; [intros r Hin; by apply elem_of_nil in Hin | done].
Qed.

Lemma Values_Add_lookup (q : gmap string (list string)) k t :
  Values_Add q k t !! k = Some (default [] (q !! k) ++ [t]).
Proof. unfold Values_Add. apply lookup_insert_eq. Qed.

Lemma add_allowedTypes_lookup ts : forall q : gmap string (list string),
  ts <> [] ->
  add_allowedTypes q ts !! "allowedTypes"%string
  = Some (default [] (q !! "allowedTypes"%string) ++ ts).
Proof.
  unfold add_allowedTypes.
  induction ts as [|t ts IH]; intros q Hne; [done|]. cbn [fold_left].
  destruct ts as [|t' ts].
  - cbn [fold_left]. apply Values_Add_lookup.
  - rewrite IH by done. rewrite Values_Add_lookup.
    simpl. by rewrite <- app_assoc.
Qed.

Lemma form_fields_names req p :
  p ∈ form_fields req -> part_name p <> "allowedTypes"%string.
Proof.
  unfold form_fields.
  rewrite !elem_of_app.
  destruct (is_empty (Bucket req)), (is_empty (Key req)), (Compress req),
    (0 <? Quality req), (Watermark req), (is_empty (WatermarkText req)),
    (is_empty (WatermarkPosition req));
    rewrite ?elem_of_cons, ?elem_of_app, ?elem_of_cons, ?elem_of_nil;
    intros Hp; decompose [or] Hp; subst; try done.
Qed.

Lemma form_fields_processing req :
  Compress req = true -> Quality req = 80 -> Watermark req = true ->
  WatermarkText req = "X"%string ->
  FormField "compress" "true" ∈ form_fields req /\
  FormField "quality" "80" ∈ form_fields req /\
  FormField "watermark" "true" ∈ form_fields req /\
  FormField "watermarkText" "X" ∈ form_fields req.
Proof.
  intros Hc Hq Hw Ht. unfold form_fields. rewrite Hc, Hq, Hw, Ht.
  change (0 <? 80) with true. change (is_empty "X") with false. change (Itoa 80) with "80"%string.
  repeat (rewrite elem_of_app || rewrite elem_of_cons). intuition auto.
Qed.

(** C6. Every request [uploadReader] sends has a multipart body that
    starts with the payload as form file [file]; for Compress, Quality 80,
    Watermark and WatermarkText X the body has the text fields
    compress=true, quality=80, watermark=true and watermarkText=X; no part
    of the body is named allowedTypes, and the allowed types are the
    values added, in order, to the query parameter allowedTypes.  A request
    is sent when the payload could be read, the URL parses and RetryCount
    is not negative. *)
Theorem upload_form_fields `{Library} (c : Client) (cfg : Config) (reader : ioReader)
  (filename : string) (size : Z) (req : UploadRequest) (w : World) :
  configs w !! config c = Some cfg ->
  Compress req = true -> Quality req = 80 -> Watermark req = true ->
  WatermarkText req = "X"%string ->
  (forall r, r ∈ requests (during (uploadReader c reader filename size req) w) ->
     exists parts,
       ReqBody r = MultipartBody
                     (FormFile "file" filename (fst (copied (src_reads reader))) :: parts) /\
       FormField "compress" "true" ∈ parts /\
       FormField "quality" "80" ∈ parts /\
       FormField "watermark" "true" ∈ parts /\
       FormField "watermarkText" "X" ∈ parts /\
       (forall p, p ∈ parts -> part_name p <> "allowedTypes"%string) /\
       exists q0,
         url_Parse (TrimRight (BaseURL cfg) "/" +:+ "/api/public/upload") = Some q0 /\
         (AllowedTypes req <> [] ->
            Query r !! "allowedTypes"%string
            = Some (default [] (q0 !! "allowedTypes"%string) ++ AllowedTypes req)) /\
         (AllowedTypes req = [] -> Query r = q0)) /\
  (snd (copied (src_reads reader)) = None ->
   is_Some (url_Parse (TrimRight (BaseURL cfg) "/" +:+ "/api/public/upload")) ->
   0 <= RetryCount cfg ->
   requests (during (uploadReader c reader filename size req) w) <> []).
Proof.
  intros Hw Hc Hq Hwm Ht.
  rewrite (steps_during _ _ _ _ (uploadReader_steps c cfg reader filename size req w Hw)).
  unfold upload_plan.
  destruct (copied (src_reads reader)) as [data [e|]] eqn:Hcopy; cbn [fst snd].
  { rewrite requests_copy_events. split; [intros r Hin; by apply elem_of_nil in Hin | done]. }
  unfold upload_request, http_NewRequest.
  destruct (url_Parse (TrimRight (BaseURL cfg) "/" +:+ "/api/public/upload")) as [q0|] eqn:Hu;
    cbn [snd].
  2: { rewrite requests_copy_events.
       split; [intros r Hin; by apply elem_of_nil in Hin | by intros _ [? ?]]. }
  rewrite requests_app, requests_copy_events, requests_schedule. cbn [app].
  split.
  - intros r Hin. apply elem_of_replicate in Hin as [-> _].
    destruct (form_fields_processing req Hc Hq Hwm Ht) as (F1 & F2 & F3 & F4).
    exists (form_fields req).
    split; [by destruct (0 <? len (AllowedTypes req))|].
    do 4 (split; [done|]). split; [apply form_fields_names|].
    exists q0. split; [done|]. split.
    + intros Hne. destruct (AllowedTypes req) as [|t ts] eqn:Hts; [done|].
      change (0 <? len (t :: ts)) with (0 <? Z.of_nat (S (length ts))).
      replace (0 <? Z.of_nat (S (length ts))) with true by (symmetry; apply Z.ltb_lt; lia).
      cbn [Query set_Query set_Header]. by apply add_allowedTypes_lookup.
    + intros ->. reflexivity.
  - intros _ _ Hrc Hnil.
    match type of Hnil with
    | context [retry_result cfg w ?r] =>
        pose proof (retry_result_nonempty cfg w r Hrc) as Hne;
        destruct (retry_result cfg w r); [done | discriminate Hnil]
    end.
Qed.

(* ------------------------------------------------------------------ *)
(** ** NewClient *)

Lemma with_config_id w p cfg : configs w !! p = Some cfg -> with_config w p cfg = w.
Proof. intros Hp. destruct w. unfold with_config. simpl in *. by rewrite insert_id. Qed.

Lemma with_config_twice w p a b : with_config (with_config w p a) p b = with_config w p b.
Proof. unfold with_config. simpl. by rewrite insert_insert_eq. Qed.

Lemma with_config_lookup w p cfg : configs (with_config w p cfg) !! p = Some cfg.
Proof. apply lookup_insert_eq. Qed.

Lemma store_run p old cfg w :
  configs w !! p = Some old -> store p cfg w = (Returned tt, with_config w p cfg).
Proof. intros Hp. unfold store. by rewrite Hp. Qed.

Lemma load_run p cfg w : configs w !! p = Some cfg -> load p w = (Returned cfg, w).
Proof. intros Hp. unfold load. by rewrite Hp. Qed.

Lemma NewClient_run p cfg w :
  configs w !! p = Some cfg ->
  NewClient p w
  = (Returned {| config := p;
                 httpClient := {| http_Timeout := Timeout (with_defaults cfg) |} |},
     with_config w p (with_defaults cfg)).
Proof.
  intros Hp. unfold NewClient.
  unfold bind at 1. rewrite (load_run _ _ _ Hp).
  set (cfg1 := if Timeout cfg =? 0 then set_Timeout (30 * Second) cfg else cfg).
  assert (H1 : when (Timeout cfg =? 0) (store p (set_Timeout (30 * Second) cfg)) w
               = (Returned tt, with_config w p cfg1)).
  { subst cfg1. destruct (Timeout cfg =? 0); cbn [when].
    - by rewrite (store_run _ _ _ _ Hp).
    - by rewrite with_config_id. }
  unfold bind at 1. rewrite H1.
  unfold bind at 1. rewrite (load_run _ cfg1) by apply with_config_lookup.
  set (cfg2 := if RetryCount cfg1 =? 0 then set_RetryCount 3 cfg1 else cfg1).
  assert (H2 : when (RetryCount cfg1 =? 0) (store p (set_RetryCount 3 cfg1)) (with_config w p cfg1)
               = (Returned tt, with_config w p cfg2)).
  { subst cfg2. destruct (RetryCount cfg1 =? 0); cbn [when].
    - rewrite (store_run _ cfg1) by apply with_config_lookup. by rewrite with_config_twice.
    - done. }
  unfold bind at 1. rewrite H2.
  unfold bind at 1. rewrite (load_run _ cfg2) by apply with_config_lookup.
  set (cfg3 := if is_empty (UserAgent cfg2) then set_UserAgent DEFAULT_USER_AGENT cfg2 else cfg2).
  assert (H3 : when (is_empty (UserAgent cfg2)) (store p (set_UserAgent DEFAULT_USER_AGENT cfg2))
                 (with_config w p cfg2)
               = (Returned tt, with_config w p cfg3)).
  { subst cfg3. destruct (is_empty (UserAgent cfg2)); cbn [when].
    - rewrite (store_run _ cfg2) by apply with_config_lookup. by rewrite with_config_twice.
    - done. }
  unfold bind at 1. rewrite H3.
  unfold bind. rewrite (load_run _ cfg3) by apply with_config_lookup.
  assert (E : cfg3 = with_defaults cfg).
  { subst cfg3 cfg2 cfg1. unfold with_defaults.
    destruct cfg as [b k s t r u]; cbn.
    destruct (t =? 0); cbn; destruct (r =? 0); cbn; destruct (is_empty u); reflexivity. }
  by rewrite E.
Qed.

Lemma call_keeps_configs `{Library} c cfg op w :
  configs w !! config c = Some cfg -> configs (snd (call c op w)) = configs w.
Proof. intros Hw. by destruct (runs_during c cfg op w Hw). Qed.

(** C5. [NewClient] gives each unset field of the config it is passed its
    default (a timeout of 30 seconds, 3 retries, the default user agent)
    and leaves every set field as it is; it does so at construction:
    building a client from the resulting config changes nothing further,
    and no operation of the client, however many are called one after
    the other, writes to the config. *)
Theorem NewClient_defaults `{Library} (p : loc) (cfg : Config) (w : World) :
  configs w !! p = Some cfg ->
  exists c w',
    NewClient p w = (Returned c, w') /\
    config c = p /\
    configs w' = <[p := with_defaults cfg]> (configs w) /\
    Timeout (with_defaults cfg)
      = (if Timeout cfg =? 0 then 30000000000 else Timeout cfg) /\
    RetryCount (with_defaults cfg)
      = (if RetryCount cfg =? 0 then 3 else RetryCount cfg) /\
    UserAgent (with_defaults cfg)
      = (if is_empty (UserAgent cfg) then DEFAULT_USER_AGENT else UserAgent cfg) /\
    BaseURL (with_defaults cfg) = BaseURL cfg /\
    APIKey (with_defaults cfg) = APIKey cfg /\
    APISecret (with_defaults cfg) = APISecret cfg /\
    configs (snd (NewClient p w')) = configs w' /\
    forall op w'', configs w'' = configs w' -> configs (snd (call c op w'')) = configs w'.
Proof.
  intros Hp. rewrite (NewClient_run _ _ _ Hp). eexists _, _. split; [reflexivity|].
  split; [done|]. split; [done|]. do 6 (split; [done|]).
  split.
  - rewrite (NewClient_run _ (with_defaults cfg)) by apply with_config_lookup.
    cbn [snd]. rewrite with_config_twice.
    assert (E : with_defaults (with_defaults cfg) = with_defaults cfg).
    { unfold with_defaults. destruct cfg as [b k s t r u]; cbn.
      destruct (t =? 0) eqn:Et, (r =? 0) eqn:Er, (is_empty u) eqn:Eu; cbn;
        rewrite ?Et, ?Er, ?Eu; reflexivity. }
    by rewrite E.
  - intros op w'' Hsame. rewrite <- Hsame.
    apply (call_keeps_configs _ (with_defaults cfg)). rewrite Hsame.
    apply with_config_lookup.
Qed.

(** C9. A RetryCount of 0 and a Timeout of 0 are taken for unset:
    [NewClient] writes 3 and 30 seconds over them in the very Config the
    caller passed, which the client goes on to read; whatever the caller
    passes, neither field is 0 afterwards, nor is the timeout of the HTTP
    client. *)
Theorem NewClient_zero_is_unset (p : loc) (cfg : Config) (w : World) :
  configs w !! p = Some cfg ->
  exists c cfg',
    value (NewClient p) w = Returned c /\
    config c = p /\
    configs (snd (NewClient p w)) !! p = Some cfg' /\
    (RetryCount cfg = 0 -> RetryCount cfg' = 3) /\
    (Timeout cfg = 0 -> Timeout cfg' = 30 * Second) /\
    RetryCount cfg' <> 0 /\
    Timeout cfg' <> 0 /\
    http_Timeout (httpClient c) = Timeout cfg' /\
    cfg' = with_defaults cfg /\
    with_defaults (set_RetryCount 0 cfg) = with_defaults (set_RetryCount 3 cfg) /\
    with_defaults (set_Timeout 0 cfg) = with_defaults (set_Timeout (30 * Second) cfg).
Proof.
  intros Hp. unfold value. rewrite (NewClient_run _ _ _ Hp). cbn [fst snd].
  eexists _, (with_defaults cfg). split; [reflexivity|]. split; [done|].
  split; [apply with_config_lookup|].
  unfold with_defaults; cbn [RetryCount Timeout httpClient http_Timeout].
  repeat split.
  - by intros ->.
  - by intros ->.
  - destruct (RetryCount cfg =? 0) eqn:E; [done|]. by apply Z.eqb_neq.
  - destruct (Timeout cfg =? 0) eqn:E; [done|]. by apply Z.eqb_neq.
Qed.

(* ------------------------------------------------------------------ *)
(** ** BatchUpload *)

Lemma upload_reply_success resp data : success_envelope resp data -> upload_reply resp = Ok data.
Proof.
  intros (Hst & text & doc & env & Hb & Hdoc & Hs & <-).
  unfold upload_reply. rewrite Hb, Hst, Hdoc. cbn [negb Z.eqb Pos.eqb].
  destruct Hs as [-> | ->]; [done|]. by rewrite orb_true_r.
Qed.

Lemma upload_reply_error resp e :
  error_envelope resp e -> upload_reply resp = Err (ErrAPI e) /\ StatusCode resp < 500.
Proof.
  intros [(Hst & text & doc & env & Hb & Hdoc & Hs & Hc & ->)
         |(Hne & Hlt & text & doc & Hb & ->)].
  - split; [by apply (upload_reply_failure resp text doc env) | lia].
  - split; [|done]. unfold upload_reply. rewrite Hb.
    apply Z.eqb_neq in Hne. rewrite Hne. cbn [negb].
    by destruct (json_Unmarshal dec_APIError zero_APIError doc).
Qed.

Lemma upload_return_returns cfg outs :
  outs <> [] -> exists r, upload_return cfg (last outs) = Returned r.
Proof.
  intros Hne. destruct (last_is_Some outs Hne) as [[resp|e] ->]; by eexists.
Qed.

Lemma UploadFile_plan_returns `{Library} cfg req w :
  0 <= RetryCount cfg -> exists r, fst (UploadFile_plan cfg req w) = Returned r.
Proof.
  intros Hrc. unfold UploadFile_plan, upload_plan.
  destruct (disk w !! FilePath req) as [data|]; [|by eexists].
  destruct (copied _) as [d [e|]]; [by eexists|].
  destruct (upload_request _ _ _ _) as [httpReq|e]; [|by eexists].
  cbn [fst]. apply upload_return_returns. by apply retry_result_nonempty.
Qed.

Lemma split_results files : forall outs,
  length outs = length files ->
  (length (successes outs) + length (failures (zip files outs)) = length files)%nat.
Proof.
  induction files as [|f files IH]; intros [|[v|e] outs] Hl; try done;
    simpl in *; rewrite <- (IH outs) by lia; simpl; lia.
Qed.

Section Batch.

Context `{Library} (c : Client) (cfg : Config) (req : BatchUploadRequest).

(** The loop of [BatchUpload] either panics or returns the result it was
    given extended by one entry per file, a success or a failure, in the
    order of the files; it returns when RetryCount is not negative. *)
Lemma BatchUpload_loop_spec files : forall i res w,
  configs w !! config c = Some cfg ->
  exists a evs,
    steps (BatchUpload_loop c req i files res) w a evs /\
    (forall res', a = Returned res' ->
       exists outs,
         length outs = length files /\
         Success res' = Success res ++ successes outs /\
         Failed res' = Failed res ++ failures (zip files outs) /\
         Total res' = Total res) /\
    (0 <= RetryCount cfg -> exists res', a = Returned res').
Proof.
  induction files as [|f files IH]; intros i res w Hw.
  - exists (Returned res), []. split; [apply steps_ret|]. split; [|by eexists].
    intros res' [= <-]. exists []. by rewrite !app_nil_r.
  - cbn [BatchUpload_loop].
    set (pre := if bu_OnProgress req then [EvBatchProgress i (len (Files req)) f] else []).
    assert (Hpre : steps (when (bu_OnProgress req)
                            (emit (EvBatchProgress i (len (Files req)) f))) w
                     (Returned tt) pre) by apply steps_when, steps_emit.
    pose proof (UploadFile_steps c cfg (batch_item req f) (record w pre) Hw) as Hup.
    destruct (UploadFile_plan cfg (batch_item req f) (record w pre)) as [[r|msg] evs] eqn:Hplan;
      cbn [fst snd] in Hup.
    + destruct (IH (i + 1) (record_upload f r res) (record (record w pre) evs) Hw)
        as (a & evs' & Hs & Hres & Hret).
      exists a, (pre ++ evs ++ evs'). split; [|split].
      * eapply steps_bind; [exact Hpre|]. eapply steps_bind; [exact Hup|exact Hs].
      * intros res' Ha. destruct (Hres res' Ha) as (outs & Hl & HS & HF & HT).
        exists (r :: outs). split; [simpl; lia|].
        destruct r as [v|e]; cbn [record_upload Success Failed Total] in *;
          cbn [successes failures zip zip_with omap list_omap fst snd];
          rewrite HS, HF, HT, <- ?app_assoc; done.
      * done.
    + exists (Panicked msg), (pre ++ evs). split; [|split].
      * eapply steps_bind; [exact Hpre|]. by apply steps_bind_panic.
      * done.
      * intros Hrc. destruct (UploadFile_plan_returns cfg (batch_item req f) (record w pre) Hrc)
          as [r Hr]. rewrite Hplan in Hr. discriminate Hr.
Qed.

End Batch.

Lemma when_emit_run b e w :
  when b (emit e) w = (Returned tt, snd (when b (emit e) w)).
Proof. by destruct b. Qed.

(** The result of the loop holds, in order, what the uploads of the files
    returned. *)
Lemma BatchUpload_loop_uploads `{Library} c req files : forall i res w res',
  value (BatchUpload_loop c req i files res) w = Returned res' ->
  length (batch_uploads c req i files w) = length files /\
  Success res' = Success res ++ successes (batch_uploads c req i files w) /\
  Failed res' = Failed res ++ failures (zip files (batch_uploads c req i files w)) /\
  Total res' = Total res.
Proof.
  induction files as [|f files IH]; intros i res w res'.
  - cbn. intros [= <-]. by rewrite !app_nil_r.
  - unfold value. cbn [BatchUpload_loop batch_uploads]. unfold bind at 1.
    pose proof (when_emit_run (bu_OnProgress req)
                  (EvBatchProgress i (len (Files req)) f) w) as Hpre.
    set (w1 := snd (when (bu_OnProgress req)
                      (emit (EvBatchProgress i (len (Files req)) f)) w)) in *.
    rewrite Hpre. unfold bind at 1.
    destruct (UploadFile c (batch_item req f) w1) as [[r|msg] w2]; [|discriminate].
    intros Hv. destruct (IH (i + 1) (record_upload f r res) w2 res' Hv) as (Hl & HS & HF & HT).
    split; [simpl; lia|].
    destruct r as [v|e]; cbn [record_upload Success Failed Total] in *;
      cbn [successes failures zip zip_with omap list_omap fst snd];
      rewrite HS, HF, HT, <- ?app_assoc; done.
Qed.

(** The files of the failures are files of the batch, in their order. *)
Lemma failures_sublist files : forall outs,
  sublist (ue_File <$> failures (zip files outs)) files.
Proof.
  induction files as [|f files IH]; intros [|[v|e] outs];
    try apply sublist_nil_l; cbn [zip zip_with failures omap list_omap fst snd].
  - apply sublist_cons, IH.
  - cbn [fmap list_fmap ue_File]. apply sublist_skip, IH.
Qed.

(** C10. Whenever [BatchUpload] returns, it returns a nil error and a
    result whose Total is the number of files.  Every file has been
    uploaded by [UploadFile], one after the other in the order of the
    list: Success holds the results of the uploads that succeeded, Failed
    the file and the error text of those that failed, both in the order of
    the files, so that every file has exactly one entry in one of the two,
    the files of Failed follow one another as in the list, and the lengths
    add up to Total.  And [BatchUpload] does return when RetryCount is in
    range. *)
Theorem BatchUpload_result `{Library} (c : Client) (cfg : Config) (req : BatchUploadRequest)
  (w : World) :
  configs w !! config c = Some cfg ->
  (forall a, value (BatchUpload c req) w = Returned a ->
     exists res,
       a = Ok res /\
       Total res = len (Files req) /\
       length (batch_uploads c req 0 (Files req) w) = length (Files req) /\
       Success res = successes (batch_uploads c req 0 (Files req) w) /\
       Failed res = failures (zip (Files req) (batch_uploads c req 0 (Files req) w)) /\
       sublist (ue_File <$> Failed res) (Files req) /\
       len (Success res) + len (Failed res) = Total res) /\
  (retries_in_range cfg -> exists a, value (BatchUpload c req) w = Returned a).
Proof.
  intros Hw. split.
  - intros a Ha. unfold value, BatchUpload in Ha. unfold bind at 1 in Ha.
    destruct (BatchUpload_loop c req 0 (Files req)
                {| Success := []; Failed := []; Total := len (Files req) |} w)
      as [[res|msg] w'] eqn:Hloop; [|discriminate Ha].
    assert (a = Ok res) as ->.
    { unfold bind in Ha. rewrite when_emit_run in Ha. cbn in Ha. congruence. }
    destruct (BatchUpload_loop_uploads c req (Files req) 0
                {| Success := []; Failed := []; Total := len (Files req) |} w res)
      as (Hl & HS & HF & HT).
    { unfold value. by rewrite Hloop. }
    cbn [Success Failed Total app] in *. exists res.
    repeat (split; [done|]). split; [rewrite HF; apply failures_sublist|].
    rewrite HT, HS, HF. unfold len.
    pose proof (split_results (Files req) _ Hl). lia.
  - intros [Hrc _]. unfold BatchUpload.
    destruct (BatchUpload_loop_spec c cfg req (Files req) 0
                {| Success := []; Failed := []; Total := len (Files req) |} w Hw)
      as (a & evs & Hs & _ & Hret).
    destruct (Hret Hrc) as [res ->].
    assert (Hsteps : steps (BatchUpload c req) w (Returned (Ok res))
                       (evs ++ (if bu_OnProgress req
                                then [EvBatchProgress (len (Files req)) (len (Files req)) ""]
                                else []) ++ [])).
    { eapply steps_bind; [exact Hs|].
      eapply steps_bind; [apply steps_when, steps_emit|apply steps_ret]. }
    unfold BatchUpload in Hsteps. rewrite (steps_value _ _ _ _ Hsteps). by eexists.
Qed.

(* ------------------------------------------------------------------ *)
(** ** A batch of three files *)

Lemma batch_calls_copy_events src : batch_calls (copy_events src) = [].
Proof.
  destruct src as [|pr]; [done|]. simpl. destruct (pr_callback pr); [|done].
  by induction (running64 _ _).
Qed.

Lemma src_reads_file_reader req data :
  src_reads (file_reader req data) = reads (bytes_NewReader data).
Proof. unfold file_reader. by destruct (OnProgress req). Qed.

Lemma retry_result_answered cfg w req resp :
  0 <= RetryCount cfg ->
  remote w (attempts (events w)) req = Responded resp -> StatusCode resp < 500 ->
  retry_result cfg w req = [Responded resp].
Proof.
  intros Hrc Hr Hst. unfold retry_result.
  destruct (Z.to_nat (RetryCount cfg + 1)) as [|n] eqn:E; [lia|].
  cbn [retry_outs]. rewrite Hr. cbn [retryable].
  apply Z.ltb_lt in Hst. by rewrite Hst.
Qed.

(** An upload of a readable file whose single attempt the server answers
    with a response below 500. *)
Lemma UploadFile_answered `{Library} c cfg req data resp q0 w :
  configs w !! config c = Some cfg ->
  0 <= RetryCount cfg ->
  disk w !! FilePath req = Some data ->
  url_Parse (TrimRight (BaseURL cfg) "/" +:+ "/api/public/upload") = Some q0 ->
  (forall r, remote w (attempts (events w)) r = Responded resp) ->
  StatusCode resp < 500 ->
  exists evs,
    steps (UploadFile c req) w (Returned (upload_reply resp)) evs /\
    attempts evs = 1%nat /\ batch_calls evs = [].
Proof.
  intros Hw Hrc Hd Hu Hr Hst.
  pose proof (UploadFile_steps c cfg req w Hw) as Hs.
  unfold UploadFile_plan, upload_plan in Hs. rewrite Hd in Hs.
  rewrite src_reads_file_reader, copied_bytes in Hs.
  unfold upload_request, http_NewRequest in Hs. rewrite Hu in Hs.
  cbn [fst snd] in Hs.
  rewrite (retry_result_answered cfg w _ resp Hrc (Hr _) Hst) in Hs.
  cbn [last upload_return schedule] in Hs.
  eexists. split; [exact Hs|].
  rewrite attempts_app, batch_calls_app, attempts_copy_events, batch_calls_copy_events.
  done.
Qed.

(** C3. A batch of three readable files with the batch observer set, the
    server answering the first and third upload with a success envelope
    and the second with an error envelope: [BatchUpload] returns a nil
    error and a result with Total 3, the two decoded results in Success
    and, in Failed, the second file's path with the text of its error; the
    batch observer is called four times, with 0, 1 and 2 of 3 before the
    respective file and at last with 3 of 3. *)
Theorem BatchUpload_three_files `{Library} (c : Client) (cfg : Config)
  (req : BatchUploadRequest) (w : World) (f1 f2 f3 : string) (d1 d2 d3 : list byte)
  (r1 r2 r3 : Response) (u1 u3 : UploadResult) (e : APIError)
  (q0 : gmap string (list string)) :
  configs w !! config c = Some cfg ->
  retries_in_range cfg ->
  Files req = [f1; f2; f3] ->
  bu_OnProgress req = true ->
  disk w !! f1 = Some d1 -> disk w !! f2 = Some d2 -> disk w !! f3 = Some d3 ->
  url_Parse (TrimRight (BaseURL cfg) "/" +:+ "/api/public/upload") = Some q0 ->
  (forall r, remote w (attempts (events w)) r = Responded r1) ->
  (forall r, remote w (attempts (events w) + 1) r = Responded r2) ->
  (forall r, remote w (attempts (events w) + 2) r = Responded r3) ->
  success_envelope r1 u1 -> error_envelope r2 e -> success_envelope r3 u3 ->
  value (BatchUpload c req) w
  = Returned (Ok {| Success := [u1; u3];
                    Failed := [{| ue_File := f2; ue_Error := APIError_Error e |}];
                    Total := 3 |}) /\
  batch_calls (during (BatchUpload c req) w)
  = [(0, 3, f1); (1, 3, f2); (2, 3, f3); (3, 3, ""%string)] /\
  exists evs1 evs2 evs3,
    during (BatchUpload c req) w
    = [EvBatchProgress 0 3 f1] ++ evs1 ++ [EvBatchProgress 1 3 f2] ++ evs2
      ++ [EvBatchProgress 2 3 f3] ++ evs3 ++ [EvBatchProgress 3 3 ""] /\
    Forall (fun evs => attempts evs = 1%nat /\ batch_calls evs = []) [evs1; evs2; evs3].
Proof.
  intros Hw [Hrc _] Hfiles Hobs Hd1 Hd2 Hd3 Hu Hr1 Hr2 Hr3 He1 He2 He3.
  pose proof (upload_reply_success _ _ He1) as Hu1.
  destruct (upload_reply_error _ _ He2) as [Hu2 Hst2].
  pose proof (upload_reply_success _ _ He3) as Hu3.
  assert (Hst1 : StatusCode r1 < 500) by (destruct He1 as [-> _]; lia).
  assert (Hst3 : StatusCode r3 < 500) by (destruct He3 as [-> _]; lia).
  set (k := attempts (events w)) in *.
  (* first file *)
  set (w1 := record w [EvBatchProgress 0 3 f1]).
  destruct (UploadFile_answered c cfg (batch_item req f1) d1 r1 q0 w1 Hw Hrc Hd1 Hu)
    as (evs1 & Hs1 & Ha1 & Hb1); [|done|].
  { intros r. unfold w1. simpl. rewrite attempts_app. simpl. rewrite Nat.add_0_r. apply Hr1. }
  (* second file *)
  set (w2 := record (record w1 evs1) [EvBatchProgress 1 3 f2]).
  destruct (UploadFile_answered c cfg (batch_item req f2) d2 r2 q0 w2 Hw Hrc Hd2 Hu)
    as (evs2 & Hs2 & Ha2 & Hb2); [|done|].
  { intros r. unfold w2, w1. simpl. rewrite !attempts_app, Ha1. simpl.
    rewrite !Nat.add_0_r. apply Hr2. }
  (* third file *)
  set (w3 := record (record w2 evs2) [EvBatchProgress 2 3 f3]).
  destruct (UploadFile_answered c cfg (batch_item req f3) d3 r3 q0 w3 Hw Hrc Hd3 Hu)
    as (evs3 & Hs3 & Ha3 & Hb3); [|done|].
  { intros r. unfold w3, w2, w1. simpl. rewrite !attempts_app, Ha1, Ha2. simpl.
    rewrite !Nat.add_0_r. fold k. replace (k + 1 + 1)%nat with (k + 2)%nat by lia. apply Hr3. }
  rewrite Hu1 in Hs1. rewrite Hu2 in Hs2. rewrite Hu3 in Hs3.
  assert (Hsteps : steps (BatchUpload c req) w
            (Returned (Ok {| Success := [u1; u3];
                             Failed := [{| ue_File := f2; ue_Error := APIError_Error e |}];
                             Total := 3 |}))
            (([EvBatchProgress 0 3 f1] ++ evs1 ++
              [EvBatchProgress 1 3 f2] ++ evs2 ++
              [EvBatchProgress 2 3 f3] ++ evs3 ++ []) ++
             [EvBatchProgress 3 3 ""] ++ [])).
  { unfold BatchUpload. rewrite Hfiles, Hobs. change (len [f1; f2; f3]) with 3.
    eapply steps_bind.
    - cbn [BatchUpload_loop]. rewrite Hfiles, Hobs. change (len [f1; f2; f3]) with 3.
      eapply steps_bind; [apply (steps_when true), steps_emit|].
      eapply steps_bind; [exact Hs1|].
      eapply steps_bind; [apply (steps_when true), steps_emit|].
      eapply steps_bind; [exact Hs2|].
      eapply steps_bind; [apply (steps_when true), steps_emit|].
      eapply steps_bind; [exact Hs3|].
      apply steps_ret.
    - eapply steps_bind; [apply (steps_when true), steps_emit|]. apply steps_ret. }
  rewrite (steps_value _ _ _ _ Hsteps), (steps_during _ _ _ _ Hsteps). split; [done|].
  split.
  - rewrite !batch_calls_app, Hb1, Hb2, Hb3. reflexivity.
  - exists evs1, evs2, evs3. split.
    + rewrite !app_nil_r, <- !app_assoc. reflexivity.
    + repeat constructor; assumption.
Qed.

(* ------------------------------------------------------------------ *)
(** ** The theorems at concrete inputs *)

Lemma always_answers_5xx st text doc :
  500 <= st -> always_5xx (always {| StatusCode := st; Body := Readable text doc |}).
Proof. intros Hst k r. eexists. split; [reflexivity | exact Hst]. Defined.

Lemma always_answers_400 text doc :
  always_400 (always {| StatusCode := 400; Body := Readable text doc |}).
Proof. intros k r. eexists. split; reflexivity. Defined.

(** The runs of client_test.go, on the model: two 500s and then a success
    make three attempts, one and two seconds apart, and the upload
    succeeds; a 400 is not retried and comes back as an [APIError] with
    that status. *)
Example retry_mechanism :
  value (@UploadFile plain_urls test_client (file_request "/tmp/a.txt"))
    (test_world (test_config 3) third_time_lucky) = Returned (Ok success_data) /\
  (fun evs => (attempts evs, omap (fun e => match e with EvSleep d => Some d | _ => None end) evs))
    (during (@UploadFile plain_urls test_client (file_request "/tmp/a.txt"))
       (test_world (test_config 3) third_time_lucky))
  = (3%nat, [1000000000; 2000000000]).
Proof. split; vm_compute; reflexivity. Qed.

Example api_error :
  value (@UploadFile plain_urls test_client (file_request "/tmp/a.txt"))
    (test_world (test_config 3) (always too_large_response))
  = Returned (Err (ErrAPI {| api_StatusCode := 400; api_Message := ""; api_Details := "" |})) /\
  attempts (during (@UploadFile plain_urls test_client (file_request "/tmp/a.txt"))
              (test_world (test_config 3) (always too_large_response))) = 1%nat.
Proof. split; vm_compute; reflexivity. Qed.

(** C1, counterexample: a client built by [NewClient], against a server
    that answers every request with status 200 and a failure envelope:
    [GetFileURL] returns an empty URL and [DeleteFile] returns, both with a
    nil error. *)
Lemma failure_envelope_ignored :
  json_Unmarshal dec_uploadResponse zero_uploadResponse (Some failure_doc)
    = Some failure_envelope /\
  up_Success failure_envelope = false /\ up_Code failure_envelope <> 200 /\
  value (@session plain_urls 1%positive (OpGetFileURL "b" "k" Hour))
    (test_world (fresh_config 0) (always failure_response))
    = Returned (ReplyString (Ok ""%string)) /\
  value (@session plain_urls 1%positive (OpDeleteFile "b" "k"))
    (test_world (fresh_config 0) (always failure_response))
    = Returned (ReplyNone (Ok tt)).
Proof. repeat split; try (vm_compute; reflexivity). discriminate. Qed.

(** C1, witness: the same server and an upload of five bytes. *)
Lemma upload_failure_envelope_witness :
  value (@call plain_urls test_client (OpUploadBytes (bytes_request false)))
    (test_world (test_config 3) (always failure_response))
  = Returned (ReplyUpload
      (Err (ErrAPI {| api_StatusCode := 200; api_Message := "quota exceeded";
                      api_Details := "" |}))).
Proof.
  apply (@upload_failure_envelope plain_urls test_client (test_config 3)
           (OpUploadBytes (bytes_request false))
           (test_world (test_config 3) (always failure_response))
           failure_response failure_text (Some failure_doc) failure_envelope).
  - reflexivity.
  - reflexivity.
  - vm_compute. reflexivity.
  - reflexivity.
  - reflexivity.
  - vm_compute. reflexivity.
  - reflexivity.
  - discriminate.
Defined.


Lemma first_two (A B C : Prop) : A /\ B /\ C -> A /\ B.
Proof. intros (Ha & Hb & _). exact (conj Ha Hb). Defined.

(** C3, witness: three files, the second upload answered with the failure
    envelope. *)
Lemma BatchUpload_three_files_witness :
  value (@BatchUpload plain_urls test_client (batch_request three_files))
    (test_world (test_config 3) second_fails)
  = Returned (Ok {| Success := [success_data; success_data];
                    Failed := [{| ue_File := "/tmp/b.txt";
                                  ue_Error := "ling storage api error 200: quota exceeded" |}];
                    Total := 3 |}) /\
  batch_calls (during (@BatchUpload plain_urls test_client (batch_request three_files))
                 (test_world (test_config 3) second_fails))
  = [(0, 3, "/tmp/a.txt"%string); (1, 3, "/tmp/b.txt"%string); (2, 3, "/tmp/c.txt"%string);
     (3, 3, ""%string)].
Proof.
  eapply first_two.
  apply (@BatchUpload_three_files plain_urls test_client (test_config 3)
           (batch_request three_files) (test_world (test_config 3) second_fails)
           "/tmp/a.txt" "/tmp/b.txt" "/tmp/c.txt" hello hello []
           success_response failure_response success_response
           success_data success_data
           {| api_StatusCode := 200; api_Message := "quota exceeded"; api_Details := "" |} ∅).
  - reflexivity.
  - unfold retries_in_range, max_int. simpl. lia.
  - reflexivity.
  - reflexivity.
  - reflexivity.
  - reflexivity.
  - reflexivity.
  - reflexivity.
  - reflexivity.
  - reflexivity.
  - reflexivity.
  - split; [reflexivity|]. exists success_text, (Some success_doc), success_envelope_value.
    repeat split; try (vm_compute; reflexivity). right. reflexivity.
  - left. split; [reflexivity|]. exists failure_text, (Some failure_doc), failure_envelope.
    repeat split; try (vm_compute; reflexivity). discriminate.
  - split; [reflexivity|]. exists success_text, (Some success_doc), success_envelope_value.
    repeat split; try (vm_compute; reflexivity). right. reflexivity.
Defined.

Lemma small_len (data : list byte) : (length data < 10)%nat -> len data <= max_int.
Proof. unfold len, max_int. lia. Defined.

(** C4, witness: a file and a byte slice of five bytes, a stream of five
    bytes announced as such, and the same stream without a size. *)
Lemma progress_reports_witness :
  reports_progress (bytes_NewReader hello) 5
    (progress_calls (during (@UploadFile plain_urls test_client (file_request "/tmp/a.txt"))
                       (test_world (test_config 3) (always success_response)))) /\
  reports_progress (bytes_NewReader hello) 5
    (progress_calls (during (@UploadBytes plain_urls test_client (bytes_request true))
                       (test_world (test_config 3) (always success_response)))) /\
  reports_progress stream_reader 5
    (progress_calls (during (@UploadFromReader plain_urls test_client (reader_request 5))
                       (test_world (test_config 3) (always success_response)))) /\
  progress_calls (during (@UploadFromReader plain_urls test_client (reader_request 0))
                    (test_world (test_config 3) (always success_response))) = [].
Proof.
  destruct (@progress_reports plain_urls test_client (test_config 3)
              (test_world (test_config 3) (always success_response)) eq_refl)
    as (Hfile & Hbytes & Hreader & Hnone & _).
  split; [|split; [|split]].
  - apply (Hfile (file_request "/tmp/a.txt") hello); [reflexivity | reflexivity |].
    apply small_len. simpl. lia.
  - apply (Hbytes (bytes_request true)); [reflexivity |]. apply small_len. simpl. lia.
  - apply (Hreader (reader_request 5)); [reflexivity | reflexivity | reflexivity |].
    unfold max_int. vm_compute. discriminate.
  - apply (Hnone (reader_request 0)). vm_compute. discriminate.
Defined.

(** C5, witness: a config with nothing but the base URL and the key set. *)
Lemma NewClient_defaults_witness :
  exists c w',
    NewClient 1%positive (test_world (fresh_config 0) (always success_response))
      = (Returned c, w') /\
    configs w' !! 1%positive
      = Some {| BaseURL := "http://storage.test/"; APIKey := "key"; APISecret := "";
                Timeout := 30000000000; RetryCount := 3;
                UserAgent := "LingStorage-SDK/1.0.0" |} /\
    configs (snd (@call plain_urls c (OpDeleteFile "b" "k") w')) = configs w'.
Proof.
  destruct (@NewClient_defaults plain_urls 1%positive (fresh_config 0)
              (test_world (fresh_config 0) (always success_response)) eq_refl)
    as (c & w' & Hrun & _ & Hcfg & _ & _ & _ & _ & _ & _ & _ & Hops).
  exists c, w'. split; [exact Hrun|]. split; [|by apply Hops].
  rewrite Hcfg. reflexivity.
Defined.

(** C6, witness: the one request of an upload of five bytes with both
    image options and two allowed types. *)
Lemma upload_form_fields_witness :
  exists r parts,
    requests (during (@uploadReader plain_urls test_client
                        (PlainReader (bytes_NewReader hello)) "hello.txt" 5
                        (file_request "/tmp/a.txt"))
                (test_world (test_config 3) (always success_response))) = [r] /\
    ReqBody r = MultipartBody (FormFile "file" "hello.txt" hello :: parts) /\
    FormField "compress" "true" ∈ parts /\ FormField "quality" "80" ∈ parts /\
    FormField "watermark" "true" ∈ parts /\ FormField "watermarkText" "X" ∈ parts /\
    Query r !! "allowedTypes"%string = Some ["txt"%string; "md"%string].
Proof.
  destruct (@upload_form_fields plain_urls test_client (test_config 3)
              (PlainReader (bytes_NewReader hello)) "hello.txt" 5 (file_request "/tmp/a.txt")
              (test_world (test_config 3) (always success_response))
              eq_refl eq_refl eq_refl eq_refl eq_refl) as [Hall _].
  pose (evs := during (@uploadReader plain_urls test_client
                         (PlainReader (bytes_NewReader hello)) "hello.txt" 5
                         (file_request "/tmp/a.txt"))
                 (test_world (test_config 3) (always success_response))).
  destruct (requests evs) as [|r rs] eqn:Hreqs; [vm_compute in Hreqs; discriminate Hreqs|].
  destruct rs as [|r' rs]; [|vm_compute in Hreqs; discriminate Hreqs].
  subst evs. rewrite Hreqs in Hall.
  destruct (Hall r) as (parts & Hbody & F1 & F2 & F3 & F4 & _ & q0 & Hq0 & Hq & _).
  { apply elem_of_cons. by left. }
  exists r, parts. rewrite Hreqs. split; [reflexivity|].
  split; [exact Hbody|]. do 4 (split; [assumption|]).
  injection Hq0 as <-. rewrite Hq; [reflexivity | discriminate].
Defined.

(** C7, witness: the one request of [GetFileURL] for an hour. *)
Lemma GetFileURL_expires_witness :
  exists r,
    requests (during (@GetFileURL plain_urls test_client "b" "k" Hour)
                (test_world (test_config 3) (always success_response))) = [r] /\
    Values_Get (Query r) "expires" = "1h0m0s"%string.
Proof.
  destruct (@GetFileURL_expires plain_urls test_client (test_config 3) "b" "k"
              (test_world (test_config 3) (always success_response)) eq_refl) as [Hall _].
  destruct (requests (during (@GetFileURL plain_urls test_client "b" "k" Hour)
                        (test_world (test_config 3) (always success_response))))
    as [|r rs] eqn:Hreqs; [vm_compute in Hreqs; discriminate Hreqs|].
  destruct rs as [|r' rs]; [|vm_compute in Hreqs; discriminate Hreqs].
  exists r. split; [reflexivity|]. apply Hall, elem_of_cons. by left.
Defined.

(** C8, witness: a ping against a server that always answers 500. *)
Lemma backoff_is_linear_witness :
  RetryCount (test_config 3) <= 9223372036 /\
  exists xs : list Exchange,
    net (during (@call plain_urls test_client OpPing)
           (test_world (test_config 3) (always (status_only 500))))
    = exchanges_trace linear xs /\
    (length xs <= 1)%nat.
Proof.
  assert (Hrc : RetryCount (test_config 3) <= 9223372036) by (simpl; lia).
  split; [exact Hrc|].
  destruct (@backoff_is_linear plain_urls test_client (test_config 3) OpPing
              (test_world (test_config 3) (always (status_only 500))) eq_refl Hrc)
    as (xs & Hnet & Hlen & _).
  exists xs. split; [exact Hnet | exact Hlen].
Defined.

(** C9, witness: a config asking for zero retries and no timeout. *)
Lemma NewClient_zero_is_unset_witness :
  exists c cfg',
    value (NewClient 1%positive) (test_world (fresh_config 0) (always success_response))
      = Returned c /\
    configs (snd (NewClient 1%positive (test_world (fresh_config 0) (always success_response))))
      !! 1%positive = Some cfg' /\
    RetryCount cfg' = 3 /\ Timeout cfg' = 30 * Second.
Proof.
  destruct (NewClient_zero_is_unset 1%positive (fresh_config 0)
              (test_world (fresh_config 0) (always success_response)) eq_refl)
    as (c & cfg' & Hc & _ & Hcfg & Hr & Ht & _).
  exists c, cfg'. split; [exact Hc|]. split; [exact Hcfg|].
  split; [apply Hr | apply Ht]; reflexivity.
Defined.

(** C10, witness: the batch of three files of C3, with the answer to the
    second upload a failure. *)
Lemma BatchUpload_result_witness :
  retries_in_range (test_config 3) /\
  exists res,
    value (@BatchUpload plain_urls test_client (batch_request three_files))
      (test_world (test_config 3) second_fails) = Returned (Ok res) /\
    Success res = [success_data; success_data] /\
    ue_File <$> Failed res = ["/tmp/b.txt"%string] /\
    len (Success res) + len (Failed res) = Total res /\
    Total res = 3.
Proof.
  assert (Hrange : retries_in_range (test_config 3)) by (unfold retries_in_range, max_int; simpl; lia).
  split; [exact Hrange|].
  destruct (@BatchUpload_result plain_urls test_client (test_config 3)
              (batch_request three_files) (test_world (test_config 3) second_fails) eq_refl)
    as [Hres Hret].
  destruct (Hret Hrange) as [a Ha].
  destruct (Hres a Ha) as (res & -> & HT & _ & HS & HF & _ & Hsum).
  exists res. split; [exact Ha|].
  split; [rewrite HS; vm_compute; reflexivity|].
  split; [rewrite HF; vm_compute; reflexivity|].
  split; [exact Hsum | exact HT].
Defined.

(* ------------------------------------------------------------------ *)
(** ** What the last attempt decides *)

Lemma roundtrip_run {T} c cfg req (decode : Response -> result T) w :
  configs w !! config c = Some cfg ->
  steps (roundtrip c req decode) w
    (roundtrip_return cfg decode (last (retry_result cfg w req)))
    (schedule backoff 0 req (retry_result cfg w req)).
Proof.
  intros Hw. unfold roundtrip.
  pose proof (doRequestWithRetry_steps c cfg req w Hw) as Hr.
  destruct (last (retry_result cfg w req)) as [[resp|e]|]; cbn [roundtrip_return].
  - eapply steps_bind_eq; [exact Hr| |by rewrite app_nil_r].
    cbn beta iota. destruct (negb (StatusCode resp =? 200)); apply steps_ret.
  - eapply steps_bind_eq; [exact Hr|apply steps_ret|by rewrite app_nil_r].
  - eapply steps_bind_eq; [exact Hr|apply steps_panic|by rewrite app_nil_r].
Qed.

Lemma Ping_run `{Library} c cfg w :
  configs w !! config c = Some cfg ->
  (exists e, steps (Ping c) w (Returned (Err (Errorf "failed to create ping request" e))) []) \/
  (exists req,
     steps (Ping c) w (Ping_return cfg (last (retry_result cfg w req)))
       (schedule backoff 0 req (retry_result cfg w req))).
Proof.
  intros Hw. unfold Ping.
  destruct (http_NewRequest "HEAD" (TrimRight (BaseURL cfg) "/") NoBody) as [r|e] eqn:Hr.
  - right. eexists. eapply steps_bind_load; [done|]. rewrite Hr.
    eapply steps_bind_eq; [apply retry_steps| |by rewrite app_nil_r].
    destruct (last _) as [[resp|e]|]; cbn [Ping_return].
    + destruct (400 <=? StatusCode resp); apply steps_ret.
    + apply steps_ret.
    + apply steps_panic.
  - left. exists e. eapply steps_bind_load; [done|]. rewrite Hr. apply steps_ret.
Qed.

Section Roundtrip.

Context `{Library} (c : Client) (cfg : Config).

Lemma roundtrip_op {T} (wrap : result T -> Reply) (k : Config -> Go (result T))
  (X : result Request) (f : Request -> Request) (decode : Response -> result T) w :
  configs w !! config c = Some cfg ->
  k cfg = match X with
          | Err e => ret (Err (Errorf "failed to create request" e))
          | Ok r => roundtrip c (f r) decode
          end ->
  (exists e, steps (fmap_Go wrap (bind (load (config c)) k)) w
               (Returned (wrap (Err (Errorf "failed to create request" e)))) []) \/
  (exists req,
     steps (fmap_Go wrap (bind (load (config c)) k)) w
       (map_outcome wrap (roundtrip_return cfg decode (last (retry_result cfg w req))))
       (schedule backoff 0 req (retry_result cfg w req))).
Proof.
  intros Hw Hk. destruct X as [r|e].
  - right. exists (f r). apply (steps_fmap wrap).
    eapply steps_bind_load; [done|]. rewrite Hk. by apply roundtrip_run.
  - left. exists e. apply (steps_fmap wrap _ _ (Returned _)).
    eapply steps_bind_load; [done|]. rewrite Hk. apply steps_ret.
Qed.

Ltac roundtrip_with T decode wrap :=
  exists T, decode, wrap;
  split; [done|]; split; [done|];
  split; [first [ discriminate | by intros _ resp; exists tt ]|];
  cbn [call]; eapply (roundtrip_op wrap); [eassumption | reflexivity].

(** The shape of a run of an operation built on [doRequestWithRetry]:
    either the request cannot be made and nothing happens, or one request
    is put through the loop and the last outcome decides the reply. *)
Lemma call_roundtrip op w :
  is_roundtrip op = true ->
  configs w !! config c = Some cfg ->
  roundtrip_shape c cfg op w.
Proof.
  intros Hop Hw. destruct op; try discriminate Hop.
  - roundtrip_with unit no_decode ReplyNone.
  - exists string, (decode_data (dec_wrapped "url" dec_string) ""%string), ReplyString.
    do 3 (split; [done|]). cbn [call]. unfold GetFileURL, GetFileURL_request.
    eapply (roundtrip_op ReplyString _
              (http_NewRequest "GET"
                 (api cfg ("/api/public/files/" +:+ bucket +:+ "/" +:+ key +:+ "/url")) NoBody)
              (fun httpReq =>
                 let httpReq :=
                   if 0 <? expires
                   then set_Query (Values_Set (Query httpReq) "expires"
                                     (Duration_String expires)) httpReq
                   else httpReq in
                 set_Header (auth_headers cfg (Header httpReq)) httpReq));
      [eassumption|].
    cbn beta. by destruct (http_NewRequest _ _ _).
  - roundtrip_with FileInfo (decode_data dec_FileInfo zero_FileInfo) ReplyFileInfo.
  - roundtrip_with ListFilesResult (decode_data dec_ListFilesResult zero_ListFilesResult)
      ReplyListFiles.
  - roundtrip_with (list string)
      (decode_data (dec_wrapped "buckets" (dec_slice dec_string ""%string)) [])
      ReplyStrings.
  - roundtrip_with unit no_decode ReplyNone.
  - roundtrip_with unit no_decode ReplyNone.
  - roundtrip_with (list string)
      (decode_data (dec_wrapped "domains" (dec_slice dec_string ""%string)) [])
      ReplyStrings.
  - roundtrip_with unit no_decode ReplyNone.
  - roundtrip_with unit no_decode ReplyNone.
  - roundtrip_with unit no_decode ReplyNone.
Qed.

End Roundtrip.

Lemma upload_plan_settled `{Library} cfg reader filename req w out :
  last (outcomes (snd (upload_plan cfg reader filename req w))) = Some out ->
  fst (upload_plan cfg reader filename req w) = upload_return cfg (Some out).
Proof.
  unfold upload_plan.
  destruct (copied (src_reads reader)) as [data [e|]]; cbn [fst snd].
  { by rewrite outcomes_copy_events. }
  destruct (upload_request cfg filename data req); cbn [fst snd].
  - rewrite outcomes_app, outcomes_copy_events, outcomes_schedule. simpl.
    by intros ->.
  - by rewrite outcomes_copy_events.
Qed.

(** An upload is a run of [uploadReader], unless it is [UploadFile] of a
    file that cannot be opened. *)
Lemma call_upload `{Library} c cfg op w :
  is_upload op = true ->
  configs w !! config c = Some cfg ->
  (exists e, steps (call c op) w
               (Returned (ReplyUpload (Err (Errorf "failed to open file" e)))) []) \/
  (exists reader filename req,
     steps (call c op) w
       (map_outcome ReplyUpload (fst (upload_plan cfg reader filename req w)))
       (snd (upload_plan cfg reader filename req w))).
Proof.
  intros Hop Hw. destruct op; try discriminate Hop; cbn [call].
  - pose proof (UploadFile_steps c cfg req w Hw) as Hs. unfold UploadFile_plan in Hs.
    destruct (disk w !! FilePath req) as [data|].
    + right. eexists _, _, _. apply (steps_fmap ReplyUpload), Hs.
    + left. eexists. apply (steps_fmap ReplyUpload _ _ (Returned _)), Hs.
  - right. eexists _, _, _. apply (steps_fmap ReplyUpload).
    apply (uploadReader_steps c cfg _ _ (determined_size req) _ w Hw).
  - right. eexists _, _, _. apply (steps_fmap ReplyUpload).
    apply (uploadReader_steps c cfg _ _ (len (ub_Data req)) _ w Hw).
Qed.

Lemma outcomes_last_schedule delay req outs :
  last (outcomes (schedule delay 0 req outs)) = last outs.
Proof. by rewrite outcomes_schedule. Qed.

Lemma handleErrorResponse_readable resp text doc :
  Body resp = Readable text doc ->
  exists e,
    handleErrorResponse resp = ErrAPI e /\
    api_StatusCode e = StatusCode resp /\
    match json_Unmarshal dec_APIError zero_APIError doc with
    | Some a => api_Message e = api_Message a /\ api_Details e = api_Details a
    | None => api_Message e = text /\ api_Details e = ""%string
    end.
Proof.
  intros Hb. unfold handleErrorResponse. rewrite Hb.
  destruct (json_Unmarshal dec_APIError zero_APIError doc) as [a|]; eexists; by repeat split.
Qed.

Lemma upload_reply_non_200 resp text doc :
  StatusCode resp <> 200 -> Body resp = Readable text doc ->
  upload_reply resp = Err (handleErrorResponse resp).
Proof.
  intros Hst Hb. unfold upload_reply, handleErrorResponse. rewrite Hb.
  apply Z.eqb_neq in Hst. rewrite Hst. cbn [negb].
  by destruct (json_Unmarshal dec_APIError zero_APIError doc).
Qed.

(** What an operation other than [Ping] returns when its last attempt was
    answered with a status other than 200 and a body that can be read. *)
Lemma call_non_200 `{Library} c cfg op w resp text doc :
  configs w !! config c = Some cfg ->
  is_single op = true -> is_ping op = false ->
  last (outcomes (during (call c op) w)) = Some (Responded resp) ->
  StatusCode resp <> 200 -> Body resp = Readable text doc ->
  exists r, value (call c op) w = Returned r /\ reply_error r = Some (handleErrorResponse resp).
Proof.
  intros Hw Hs Hping Hlast Hst Hb.
  destruct (is_upload op) eqn:Hup.
  - destruct (call_upload c cfg op w Hup Hw) as [[e' Hsteps]|(reader & filename & req & Hsteps)];
      rewrite (steps_during _ _ _ _ Hsteps) in Hlast; [done|].
    rewrite (steps_value _ _ _ _ Hsteps), (upload_plan_settled _ _ _ _ _ _ Hlast).
    cbn [upload_return map_outcome]. rewrite (upload_reply_non_200 _ _ _ Hst Hb).
    eexists. split; reflexivity.
  - assert (Hrt : is_roundtrip op = true) by (unfold is_roundtrip; by rewrite Hup, Hs, Hping).
    destruct (call_roundtrip c cfg op w Hrt Hw)
      as (T & decode & wrap & Herr & _ & _ & [[e' Hsteps]|[req Hsteps]]);
      rewrite (steps_during _ _ _ _ Hsteps) in Hlast; [done|].
    rewrite (steps_value _ _ _ _ Hsteps). rewrite outcomes_last_schedule in Hlast.
    rewrite Hlast. cbn [roundtrip_return map_outcome].
    apply Z.eqb_neq in Hst. rewrite Hst. cbn [negb].
    eexists. split; [reflexivity|]. apply Herr.
Qed.

(* ------------------------------------------------------------------ *)
(** ** Errors *)

(** X1. When the last attempt of an operation other than [Ping] and
    [BatchUpload] is answered with a status other than 200 and a readable
    body, the operation returns an [*APIError].  Its status code is the
    HTTP status, whatever the body says; its message and details are the
    [message] and [details] members when the body is JSON that decodes into
    an [APIError], and else the message is the whole body text. *)
Theorem non_200_is_APIError `{Library} (c : Client) (cfg : Config) (op : Operation)
  (w : World) (resp : Response) (text : string) (doc : option JSON) :
  configs w !! config c = Some cfg ->
  is_single op = true -> is_ping op = false ->
  last (outcomes (during (call c op) w)) = Some (Responded resp) ->
  StatusCode resp <> 200 ->
  Body resp = Readable text doc ->
  exists r e,
    value (call c op) w = Returned r /\
    reply_error r = Some (ErrAPI e) /\
    api_StatusCode e = StatusCode resp /\
    match json_Unmarshal dec_APIError zero_APIError doc with
    | Some a => api_Message e = api_Message a /\ api_Details e = api_Details a
    | None => api_Message e = text /\ api_Details e = ""%string
    end.
Proof.
  intros Hw Hs Hping Hlast Hst Hb.
  destruct (call_non_200 c cfg op w resp text doc Hw Hs Hping Hlast Hst Hb) as (r & Hv & He).
  destruct (handleErrorResponse_readable resp text doc Hb) as (e & Hh & Hcode & Hmsg).
  exists r, e. rewrite <- Hh. by repeat split.
Qed.

Lemma foldName_APIError_fields key :
  foldName key ∉ ["statuscode"; "message"; "details"]%string ->
  find_field
    [ field "statusCode" dec_int api_StatusCode set_api_StatusCode;
      field "message" dec_string api_Message set_api_Message;
      field "details" dec_string api_Details set_api_Details ] key = None.
Proof.
  intros Hk. unfold find_field. cbn [find fst field].
  assert (Hne : forall name : string, foldName name ∈ ["statuscode"; "message"; "details"]%string ->
                         String.eqb name key = false).
  { intros name Hin. apply String.eqb_neq. by intros ->. }
  rewrite !Hne by (vm_compute; set_solver).
  assert (Hf : forall name : string, name ∈ ["statuscode"; "message"; "details"]%string ->
                        String.eqb name (foldName key) = false).
  { intros name Hin. apply String.eqb_neq. by intros ->. }
  change (foldName "statusCode") with "statuscode"%string.
  change (foldName "message") with "message"%string.
  change (foldName "details") with "details"%string.
  rewrite !Hf by set_solver. done.
Qed.

Lemma dec_APIError_no_fields members cur :
  Forall (fun m : string * JSON =>
            foldName (fst m) ∉ ["statuscode"; "message"; "details"]%string) members ->
  dec_APIError (JObject members) cur = Some cur.
Proof.
  unfold dec_APIError, dec_struct. induction 1 as [|m members Hm _ IH]; [done|].
  cbn [fold_left]. unfold dec_member at 2. by rewrite (foldName_APIError_fields _ Hm).
Qed.

(** X2. When the error body is a JSON object none of whose members is named
    [statusCode], [message] or [details] (in any letter case), the
    [*APIError] has an empty message: an error text the server sends under
    another name, such as [msg], does not reach the caller. *)
Theorem error_body_without_message `{Library} (c : Client) (cfg : Config) (op : Operation)
  (w : World) (resp : Response) (text : string) (members : list (string * JSON)) :
  configs w !! config c = Some cfg ->
  is_single op = true -> is_ping op = false ->
  last (outcomes (during (call c op) w)) = Some (Responded resp) ->
  StatusCode resp <> 200 ->
  Body resp = Readable text (Some (JObject members)) ->
  Forall (fun m : string * JSON =>
            foldName (fst m) ∉ ["statuscode"; "message"; "details"]%string) members ->
  exists r,
    value (call c op) w = Returned r /\
    reply_error r
    = Some (ErrAPI {| api_StatusCode := StatusCode resp; api_Message := "";
                      api_Details := "" |}) /\
    (forall e, reply_error r = Some e ->
       Error e = "ling storage api error " +:+ Itoa (StatusCode resp) +:+ ": ").
Proof.
  intros Hw Hs Hping Hlast Hst Hb Hm.
  destruct (call_non_200 c cfg op w resp text _ Hw Hs Hping Hlast Hst Hb) as (r & Hv & He).
  exists r. split; [done|].
  assert (Hh : handleErrorResponse resp
               = ErrAPI {| api_StatusCode := StatusCode resp; api_Message := "";
                           api_Details := "" |}).
  { unfold handleErrorResponse. rewrite Hb. cbn [json_Unmarshal].
    by rewrite (dec_APIError_no_fields _ _ Hm). }
  rewrite He, Hh. split; [done|]. by intros e [= <-].
Qed.

(** X3. When the last attempt of an operation ended in a transport error, the
    operation returns an error that wraps that transport error, under a
    text that names the configured RetryCount. *)
Theorem transport_error_is_wrapped `{Library} (c : Client) (cfg : Config) (op : Operation)
  (w : World) (e : error) :
  configs w !! config c = Some cfg ->
  is_single op = true ->
  last (outcomes (during (call c op) w)) = Some (TransportError e) ->
  exists r,
    value (call c op) w = Returned r /\
    reply_error r
    = Some (Errorf ((if is_ping op then "ping request failed after "
                     else "request failed after ")
                    +:+ Itoa (RetryCount cfg) +:+ " retries") e).
Proof.
  intros Hw Hs Hlast.
  destruct (is_upload op) eqn:Hup; [|destruct (is_ping op) eqn:Hping].
  - assert (is_ping op = false) as -> by (by destruct op).
    destruct (call_upload c cfg op w Hup Hw) as [[e' Hst]|(reader & filename & req & Hst)];
      rewrite (steps_during _ _ _ _ Hst) in Hlast; [done|].
    rewrite (steps_value _ _ _ _ Hst), (upload_plan_settled _ _ _ _ _ _ Hlast).
    eexists. split; reflexivity.
  - destruct op; try discriminate Hping. cbn [call] in *.
    destruct (Ping_run c cfg w Hw) as [[e' Hst]|[req Hst]];
      apply (steps_fmap ReplyNone) in Hst;
      rewrite (steps_during _ _ _ _ Hst) in Hlast; [done|].
    rewrite (steps_value _ _ _ _ Hst). rewrite outcomes_last_schedule in Hlast.
    rewrite Hlast. eexists. split; reflexivity.
  - assert (Hrt : is_roundtrip op = true) by (unfold is_roundtrip; by rewrite Hup, Hs, Hping).
    destruct (call_roundtrip c cfg op w Hrt Hw)
      as (T & decode & wrap & Herr & _ & _ & [[e' Hst]|[req Hst]]);
      rewrite (steps_during _ _ _ _ Hst) in Hlast; [done|].
    rewrite (steps_value _ _ _ _ Hst). rewrite outcomes_last_schedule in Hlast.
    rewrite Hlast. eexists. split; [reflexivity|]. apply Herr.
Qed.

(* ------------------------------------------------------------------ *)
(** ** Replies *)

(** X5. [Ping] decides on the status of the last answer alone: below 400 it
    reports success, from 400 on an error that names the status.  The body
    of the answer plays no part. *)
Theorem Ping_status `{Library} (c : Client) (cfg : Config) (w : World) (resp : Response) :
  configs w !! config c = Some cfg ->
  last (outcomes (during (Ping c) w)) = Some (Responded resp) ->
  value (Ping c) w
  = Returned (if 400 <=? StatusCode resp
              then Err (ErrText ("ping failed with status code: "
                                 +:+ Itoa (StatusCode resp)))
              else Ok tt).
Proof.
  intros Hw Hlast.
  destruct (Ping_run c cfg w Hw) as [[e' Hst]|[req Hst]];
    rewrite (steps_during _ _ _ _ Hst) in Hlast; [done|].
  rewrite (steps_value _ _ _ _ Hst). rewrite outcomes_last_schedule in Hlast.
  by rewrite Hlast.
Qed.

(** X6. The operations that return only an error (DeleteFile, CreateBucket,
    DeleteBucket, SetBucketPrivate, CopyFile, MoveFile) return nil as soon
    as the last answer has status 200: they never read its body. *)
Theorem commands_accept_any_200 `{Library} (c : Client) (cfg : Config) (op : Operation)
  (w : World) (resp : Response) :
  configs w !! config c = Some cfg ->
  is_command op = true ->
  last (outcomes (during (call c op) w)) = Some (Responded resp) ->
  StatusCode resp = 200 ->
  exists r, value (call c op) w = Returned r /\ reply_error r = None.
Proof.
  intros Hw Hop Hlast Hst.
  assert (Hrt : is_roundtrip op = true) by (by destruct op).
  destruct (call_roundtrip c cfg op w Hrt Hw)
    as (T & decode & wrap & _ & Hok & Hcmd & [[e' Hsteps]|[req Hsteps]]);
    rewrite (steps_during _ _ _ _ Hsteps) in Hlast; [done|].
  rewrite (steps_value _ _ _ _ Hsteps). rewrite outcomes_last_schedule in Hlast.
  rewrite Hlast. cbn [roundtrip_return map_outcome]. rewrite Hst. cbn [Z.eqb negb Pos.eqb].
  destruct (Hcmd Hop resp) as [v ->]. eexists. split; [reflexivity|]. apply Hok.
Qed.

(** X7. An upload whose last answer has status 200 and an envelope with
    [success] true or [code] 200 returns the data of the envelope; one of
    the two is enough, whatever the other says. *)
Theorem success_envelope_is_accepted `{Library} (c : Client) (cfg : Config) (op : Operation)
  (w : World) (resp : Response) (data : UploadResult) :
  configs w !! config c = Some cfg ->
  is_upload op = true ->
  last (outcomes (during (call c op) w)) = Some (Responded resp) ->
  success_envelope resp data ->
  value (call c op) w = Returned (ReplyUpload (Ok data)).
Proof.
  intros Hw Hup Hlast Henv.
  destruct (call_upload c cfg op w Hup Hw) as [[e' Hsteps]|(reader & filename & req & Hsteps)];
    rewrite (steps_during _ _ _ _ Hsteps) in Hlast; [done|].
  rewrite (steps_value _ _ _ _ Hsteps), (upload_plan_settled _ _ _ _ _ _ Hlast).
  cbn [upload_return map_outcome]. by rewrite (upload_reply_success _ _ Henv).
Qed.

(* ------------------------------------------------------------------ *)
(** ** Retries used up *)

Lemma outcomes_net evs : outcomes (net evs) = outcomes evs.
Proof. induction evs as [|[] evs IH]; simpl; auto. by f_equal. Qed.

Lemma sleeps_net evs : sleeps (net evs) = sleeps evs.
Proof. induction evs as [|[] evs IH]; simpl; auto. by f_equal. Qed.

Lemma sleeps_schedule delay req outs : forall i,
  sleeps (schedule delay i req outs)
  = (fun j => delay (i + Z.of_nat j)) <$> seq 0 (length outs - 1).
Proof.
  induction outs as [|o outs IH]; intros i; [done|].
  destruct outs as [|o' outs]; [done|].
  rewrite schedule_cons_cons. cbn [sleeps omap list_omap]. fold (sleeps).
  change (sleeps (schedule delay (i + 1) req (o' :: outs)))
    with (sleeps (schedule delay (i + 1) req (o' :: outs))).
  replace (length (o :: o' :: outs) - 1)%nat with (S (length (o' :: outs) - 1))
    by (simpl; lia).
  cbn [seq fmap list_fmap]. f_equal; [f_equal; lia|].
  change (omap _ (schedule delay (i + 1) req (o' :: outs)))
    with (sleeps (schedule delay (i + 1) req (o' :: outs))).
  rewrite IH. rewrite <- seq_shift, <- list_fmap_compose.
  apply list_fmap_ext. intros _ j _. simpl. f_equal. lia.
Qed.

(** The network side of a run of a single-request operation: the trace of
    one exchange within the retry contract, or nothing. *)
Lemma single_trace `{Library} c cfg op w :
  configs w !! config c = Some cfg ->
  is_single op = true ->
  net (during (call c op) w) = [] \/
  exists req outs,
    net (during (call c op) w) = schedule backoff 0 req outs /\
    bounded_exchange cfg (remote w) (req, outs).
Proof.
  intros Hw Hs. destruct (runs_during c cfg op w Hw) as [(xs & Hnet & HB & Hlen) _].
  assert (request_limit op = 1%nat) as Hlim by (by destruct op).
  rewrite Hlim in Hlen. destruct xs as [|[req outs] [|y xs]]; [by left| |simpl in Hlen; lia].
  right. exists req, outs. split; [|by inversion HB].
  rewrite Hnet. unfold exchanges_trace. cbn [flat_map fst snd]. by rewrite app_nil_r.
Qed.

Lemma triangle n :
  2 * foldr Z.add 0 ((fun i => Z.of_nat i + 1) <$> seq 0 n) = Z.of_nat n * (Z.of_nat n + 1).
Proof.
  induction n as [|n IH]; [done|].
  rewrite seq_S, fmap_app, foldr_app. cbn [fmap list_fmap foldr plus].
  assert (Hacc : forall (l : list Z) a, foldr Z.add a l = a + foldr Z.add 0 l).
  { induction l as [|x l IHl]; intros a; simpl; [lia|]. rewrite IHl. lia. }
  rewrite Hacc. lia.
Qed.

Lemma foldr_scaled (k : Z) (l : list Z) :
  foldr Z.add 0 ((fun x => x * k) <$> l) = foldr Z.add 0 l * k.
Proof.
  induction l as [|x l IH]; [done|]. cbn [fmap list_fmap foldr].
  change (list_fmap Z Z (fun x => x * k) l) with ((fun x => x * k) <$> l).
  rewrite IH. lia.
Qed.

Lemma last_schedule delay req outs out : forall i,
  last outs = Some out -> last (schedule delay i req outs) = Some (EvDo req out).
Proof.
  induction outs as [|o outs IH]; intros i; [done|].
  destruct outs as [|o' outs]; [by intros [= ->]|].
  rewrite schedule_cons_cons, last_cons_cons. intros Hl.
  rewrite !last_cons_cons. by apply IH.
Qed.

(** X4. When an operation ends on an attempt that calls for a retry, a
    transport error or a status of 500 or more, it has made RetryCount+1
    attempts and slept 1, 2, ..., RetryCount seconds between them, in this
    order: RetryCount*(RetryCount+1)/2 seconds in all, and none after the
    last attempt. *)
Theorem retries_used_up `{Library} (c : Client) (cfg : Config) (op : Operation) (w : World)
  (out : Outcome) :
  configs w !! config c = Some cfg ->
  is_single op = true ->
  RetryCount cfg <= 9223372036 ->
  last (outcomes (during (call c op) w)) = Some out ->
  retryable out = true ->
  Z.of_nat (attempts (during (call c op) w)) = RetryCount cfg + 1 /\
  sleeps (during (call c op) w)
  = (fun i => (Z.of_nat i + 1) * Second) <$> seq 0 (Z.to_nat (RetryCount cfg)) /\
  foldr Z.add 0 (sleeps (during (call c op) w))
  = RetryCount cfg * (RetryCount cfg + 1) / 2 * Second /\
  exists req, last (net (during (call c op) w)) = Some (EvDo req out).
Proof.
  intros Hw Hs Hrc Hlast Hretry.
  rewrite <- outcomes_net in Hlast. rewrite <- attempts_net, <- sleeps_net.
  destruct (single_trace c cfg op w Hw Hs) as [Hnil|(req & outs & Hnet & Hx)];
    [by rewrite Hnil in Hlast|].
  rewrite Hnet in *. rewrite outcomes_schedule in Hlast.
  destruct Hx as (Hn & Hle & _ & Hex & _). cbn [fst snd] in *.
  pose proof (Hex out Hlast Hretry) as Hlen. unfold len in Hlen.
  assert (Hpos : 0 <= RetryCount cfg) by (destruct outs; [done|simpl in Hlen; lia]).
  assert (Hsl : sleeps (schedule backoff 0 req outs)
                = (fun i => (Z.of_nat i + 1) * Second) <$> seq 0 (Z.to_nat (RetryCount cfg))).
  { rewrite sleeps_schedule.
    replace (length outs - 1)%nat with (Z.to_nat (RetryCount cfg)) by lia.
    apply list_fmap_ext. intros k j Hj.
    apply lookup_seq in Hj as [-> Hj]. simpl.
    rewrite backoff_linear by lia. unfold linear. lia. }
  split; [by rewrite attempts_schedule|]. split; [done|]. split.
  - rewrite Hsl.
    rewrite (list_fmap_compose (fun i => Z.of_nat i + 1) (fun x => x * Second)).
    rewrite foldr_scaled. f_equal.
    pose proof (triangle (Z.to_nat (RetryCount cfg))) as Ht.
    rewrite Z2Nat.id in Ht by lia. rewrite <- Ht.
    rewrite Z.mul_comm. by rewrite Z.div_mul.
  - exists req. by apply last_schedule.
Qed.

(* ------------------------------------------------------------------ *)
(** ** What every request carries *)

Section Sends.

Context (c : Client) (cfg : Config) (P : Request -> Prop).

Lemma sends_ret {A} (a : A) : sends c cfg P (ret a).
Proof. intros w _. exists (Returned a), []. split; [apply steps_ret | constructor]. Qed.

Lemma sends_panic {A} r : sends c cfg P (@panic A r).
Proof. intros w _. exists (Panicked r), []. split; [apply steps_panic | constructor]. Qed.

Lemma sends_bind {A B} (m : Go A) (k : A -> Go B) :
  sends c cfg P m -> (forall a, sends c cfg P (k a)) -> sends c cfg P (bind m k).
Proof.
  intros Hm Hk w Hw. destruct (Hm w Hw) as ([a|r] & evs1 & Hs1 & Hp1).
  - destruct (Hk a (record w evs1) Hw) as (o & evs2 & Hs2 & Hp2).
    exists o, (evs1 ++ evs2). split; [by eapply steps_bind|].
    rewrite requests_app. by apply Forall_app.
  - exists (Panicked r), evs1. split; [by apply steps_bind_panic | done].
Qed.

Lemma sends_bind_load {A} (k : Config -> Go A) :
  sends c cfg P (k cfg) -> sends c cfg P (bind (load (config c)) k).
Proof.
  intros Hk w Hw. destruct (Hk w Hw) as (a & evs & Hs & Hp).
  exists a, evs. split; [|done]. by eapply steps_bind_load.
Qed.

Lemma sends_quiet {A} (m : Go A) :
  (forall w, exists a evs, steps m w a evs /\ requests evs = []) -> sends c cfg P m.
Proof.
  intros Hm w _. destruct (Hm w) as (a & evs & Hs & Hr).
  exists a, evs. split; [done|]. rewrite Hr. constructor.
Qed.

Lemma sends_when_emit b e :
  requests [e] = [] -> sends c cfg P (when b (emit e)).
Proof.
  intros He. apply sends_quiet. intros w. destruct b.
  - exists (Returned tt), [e]. split; [apply steps_emit | done].
  - exists (Returned tt), []. split; [apply steps_ret | done].
Qed.

Lemma sends_io_Copy src : sends c cfg P (io_Copy src).
Proof.
  apply sends_quiet. intros w. eexists _, _. split; [apply io_Copy_steps|].
  apply requests_copy_events.
Qed.

Lemma sends_os_Open path : sends c cfg P (os_Open path).
Proof.
  apply sends_quiet. intros w. unfold os_Open, steps.
  destruct (disk w !! path); eexists _, []; (split; [by rewrite record_nil | done]).
Qed.

Lemma sends_retry req : P req -> sends c cfg P (retry cfg req).
Proof.
  intros Hreq w _. eexists _, _. split; [apply retry_steps|].
  rewrite requests_schedule. apply Forall_forall. intros r Hr.
  by apply elem_of_replicate in Hr as [-> _].
Qed.

Lemma sends_fmap {A B} (f : A -> B) (m : Go A) :
  sends c cfg P m -> sends c cfg P (fmap_Go f m).
Proof. intros Hm. unfold fmap_Go. apply sends_bind; [done | intros a; apply sends_ret]. Qed.

Lemma sends_roundtrip {T} req (decode : Response -> result T) :
  P req -> sends c cfg P (roundtrip c req decode).
Proof.
  intros Hreq. unfold roundtrip, doRequestWithRetry.
  apply sends_bind.
  - apply sends_bind_load. apply sends_bind; [by apply sends_retry|].
    intros [[resp|e]|]; apply sends_ret.
  - intros [[resp|]|e]; [destruct (negb _)| |]; first [apply sends_ret | apply sends_panic].
Qed.

End Sends.

Lemma addressed_intro cfg r path (h : gmap string string) :
  URL r = TrimRight (BaseURL cfg) "/" +:+ path ->
  (path = ""%string \/ String.prefix "/api/public/" path = true) ->
  Header r = auth_headers cfg h ->
  (h = ∅ \/ exists v, h = {[ CONETENT_TYPE := v ]}) ->
  addressed cfg r.
Proof. intros; split; eauto. Qed.

Lemma app_empty_r (s : string) : s +:+ "" = s.
Proof.
  induction s as [|a s IH]; [done|].
  change (String a (s +:+ "") = String a s). by rewrite IH.
Qed.

Lemma upload_request_addressed `{Library} cfg filename data req r :
  upload_request cfg filename data req = Ok r -> addressed cfg r.
Proof.
  unfold upload_request, http_NewRequest.
  destruct (url_Parse _) as [q|]; [|done]. intros [= <-].
  destruct (0 <? len (AllowedTypes req));
    (eapply (addressed_intro _ _ "/api/public/upload");
       [reflexivity | by right | reflexivity | right; eexists; apply insert_empty]).
Qed.

Section Addressed.

Context `{Library} (c : Client) (cfg : Config).

Lemma sends_uploadReader reader filename size req :
  sends c cfg (addressed cfg) (uploadReader c reader filename size req).
Proof.
  unfold uploadReader.
  apply sends_bind; [apply sends_io_Copy|intros copied].
  destruct (snd copied); [apply sends_ret|].
  apply sends_bind_load.
  destruct (upload_request cfg filename (fst copied) req) as [r|e] eqn:Hr; [|apply sends_ret].
  apply sends_bind; [apply sends_retry; by eapply upload_request_addressed|].
  intros [[resp|e]|]; first [apply sends_ret | apply sends_panic].
Qed.

Lemma sends_UploadFile req : sends c cfg (addressed cfg) (UploadFile c req).
Proof.
  unfold UploadFile. apply sends_bind; [apply sends_os_Open|].
  intros [[file size]|e]; [apply sends_uploadReader | apply sends_ret].
Qed.

Lemma sends_BatchUpload_loop req files : forall i res,
  sends c cfg (addressed cfg) (BatchUpload_loop c req i files res).
Proof.
  induction files as [|f files IH]; intros i res; cbn [BatchUpload_loop].
  - apply sends_ret.
  - apply sends_bind; [apply sends_when_emit; reflexivity|intros _].
    apply sends_bind; [apply sends_UploadFile|]. intros r. apply IH.
Qed.

Ltac plain_request path :=
  apply sends_bind_load; unfold http_NewRequest;
  destruct (url_Parse _) as [q|]; [|apply sends_ret];
  apply sends_roundtrip;
  eapply (addressed_intro _ _ path);
    [ reflexivity
    | by right
    | reflexivity
    | first [ by left | right; eexists; apply insert_empty ] ].

(** Every request of every operation is addressed below the base URL and
    carries the credentials. *)
Lemma sends_call op : sends c cfg (addressed cfg) (call c op).
Proof.
  destruct op; cbn [call]; apply sends_fmap.
  - apply sends_UploadFile.
  - apply sends_uploadReader.
  - apply sends_uploadReader.
  - unfold BatchUpload. apply sends_bind; [apply sends_BatchUpload_loop|intros res].
    apply sends_bind; [apply sends_when_emit; reflexivity|intros _]. apply sends_ret.
  - unfold Ping. apply sends_bind_load. unfold http_NewRequest.
    destruct (url_Parse _) as [q|]; [|apply sends_ret].
    apply sends_bind.
    + apply sends_retry. eapply (addressed_intro _ _ "");
        [cbn [URL set_Header]; by rewrite app_empty_r | by left | reflexivity | by left].
    + intros [[resp|e]|]; [destruct (400 <=? _)| |]; first [apply sends_ret | apply sends_panic].
  - unfold DeleteFile. plain_request ("/api/public/files/" +:+ bucket +:+ "/" +:+ key).
  - unfold GetFileURL, GetFileURL_request. apply sends_bind_load. unfold http_NewRequest.
    destruct (url_Parse _) as [q|]; [|apply sends_ret].
    apply sends_roundtrip.
    eapply (addressed_intro _ _ ("/api/public/files/" +:+ bucket +:+ "/" +:+ key +:+ "/url"));
      [by destruct (0 <? expires) | by right | by destruct (0 <? expires) | by left].
  - unfold GetFileInfo. plain_request ("/api/public/files/" +:+ bucket +:+ "/" +:+ key +:+ "/info").
  - unfold ListFiles. plain_request ("/api/public/buckets/" +:+ lf_Bucket req +:+ "/files").
  - unfold ListBuckets. plain_request "/api/public/buckets"%string.
  - unfold CreateBucket. plain_request "/api/public/buckets"%string.
  - unfold DeleteBucket. plain_request ("/api/public/buckets/" +:+ bucketName).
  - unfold GetBucketDomains. plain_request ("/api/public/buckets/" +:+ bucketName +:+ "/domains").
  - unfold SetBucketPrivate.
    plain_request ("/api/public/buckets/" +:+ sp_BucketName req +:+ "/private").
  - unfold CopyFile.
    plain_request ("/api/public/files/" +:+ cp_SrcBucket req +:+ "/" +:+ cp_SrcKey req +:+ "/copy").
  - unfold MoveFile.
    plain_request ("/api/public/files/" +:+ mv_SrcBucket req +:+ "/" +:+ mv_SrcKey req +:+ "/move").
Qed.

End Addressed.

Lemma call_requests_addressed `{Library} c cfg op w r :
  configs w !! config c = Some cfg ->
  r ∈ requests (during (call c op) w) -> addressed cfg r.
Proof.
  intros Hw Hr. destruct (sends_call c cfg op w Hw) as (a & evs & Hs & Hall).
  rewrite (steps_during _ _ _ _ Hs) in Hr.
  by apply (proj1 (Forall_forall _ _) Hall).
Qed.

Lemma auth_headers_lookup cfg (h : gmap string string) :
  (h = ∅ \/ exists v, h = {[ CONETENT_TYPE := v ]}) ->
  auth_headers cfg h !! USER_AGENT = Some (UserAgent cfg) /\
  auth_headers cfg h !! XAPIKEY
    = (if is_empty (APIKey cfg) then None else Some (APIKey cfg)) /\
  auth_headers cfg h !! XAPISECRET
    = (if is_empty (APISecret cfg) then None else Some (APISecret cfg)).
Proof.
  intros Hh.
  assert (Hk : h !! XAPIKEY = None /\ h !! XAPISECRET = None).
  { destruct Hh as [->|[v ->]]; [done|]. split; by apply lookup_singleton_ne. }
  destruct Hk as [Hk Hs]. unfold auth_headers.
  destruct (is_empty (APIKey cfg)), (is_empty (APISecret cfg));
    repeat split;
    repeat first [ rewrite lookup_insert_eq | rewrite lookup_insert_ne by done ]; done.
Qed.

(** X8. Every request an operation hands to the transport carries the
    [User-Agent] of the config; it carries [X-API-Key] exactly when the API
    key of the config is not empty, with the key as its value, and
    [X-API-Secret] exactly when the secret is not empty. *)
Theorem requests_carry_credentials `{Library} (c : Client) (cfg : Config) (op : Operation)
  (w : World) (r : Request) :
  configs w !! config c = Some cfg ->
  r ∈ requests (during (call c op) w) ->
  Header r !! USER_AGENT = Some (UserAgent cfg) /\
  Header r !! XAPIKEY = (if is_empty (APIKey cfg) then None else Some (APIKey cfg)) /\
  Header r !! XAPISECRET
    = (if is_empty (APISecret cfg) then None else Some (APISecret cfg)).
Proof.
  intros Hw Hr. destruct (call_requests_addressed c cfg op w r Hw Hr) as [_ (h & -> & Hh)].
  by apply auth_headers_lookup.
Qed.

Lemma TrimRight_no_slash s : ~ ends_with (TrimRight s "/") "/".
Proof.
  intros [s' Hs]. revert s' Hs. induction s as [|a s IH]; intros s' Hs.
  - by destruct s'.
  - cbn [TrimRight] in Hs.
    destruct (TrimRight s "/") as [|b t] eqn:Ht; cbn [is_empty andb] in Hs.
    + destruct (mem_char a "/") eqn:Ha.
      * by destruct s'.
      * destruct s' as [|a' s'']; [|by destruct s''].
        injection Hs as ->. vm_compute in Ha. discriminate.
    + destruct s' as [|a' s'']; [discriminate|].
      injection Hs as -> Hs. by apply (IH s'').
Qed.

(** X9. Every request goes to the base URL without its trailing slashes,
    followed by nothing ([Ping]) or by a path that starts with
    [/api/public/]; the part taken from the base URL never ends in a
    slash, so the two are joined by exactly one. *)
Theorem requests_below_base_url `{Library} (c : Client) (cfg : Config) (op : Operation)
  (w : World) (r : Request) :
  configs w !! config c = Some cfg ->
  r ∈ requests (during (call c op) w) ->
  exists path,
    URL r = TrimRight (BaseURL cfg) "/" +:+ path /\
    (path = ""%string \/ String.prefix "/api/public/" path = true) /\
    ~ ends_with (TrimRight (BaseURL cfg) "/") "/".
Proof.
  intros Hw Hr. destruct (call_requests_addressed c cfg op w r Hw Hr) as [(path & Hu & Hp) _].
  exists path. split; [done|]. split; [done|]. apply TrimRight_no_slash.
Qed.

(* ------------------------------------------------------------------ *)
(** ** Optional parameters *)

Lemma sends_elem {A} c cfg P (m : Go A) w r :
  sends c cfg P m -> configs w !! config c = Some cfg ->
  r ∈ requests (during m w) -> P r.
Proof.
  intros Hm Hw Hr. destruct (Hm w Hw) as (a & evs & Hs & Hall).
  rewrite (steps_during _ _ _ _ Hs) in Hr. by apply (proj1 (Forall_forall _ _) Hall).
Qed.

(** X10. [ListFiles] adds to the query of its URL exactly the filters that are
    set: [prefix], [marker] and [delimiter] when they are not empty, and
    [limit], in decimal, when it is positive.  A limit of zero or less is
    not sent. *)
Theorem ListFiles_query `{Library} (c : Client) (cfg : Config) (req : ListFilesRequest)
  (w : World) (r : Request) :
  configs w !! config c = Some cfg ->
  r ∈ requests (during (ListFiles c req) w) ->
  exists q0,
    url_Parse (TrimRight (BaseURL cfg) "/"
               +:+ "/api/public/buckets/" +:+ lf_Bucket req +:+ "/files") = Some q0 /\
    Query r !! "prefix"%string
      = (if is_empty (lf_Prefix req) then q0 !! "prefix"%string
         else Some [lf_Prefix req]) /\
    Query r !! "marker"%string
      = (if is_empty (lf_Marker req) then q0 !! "marker"%string
         else Some [lf_Marker req]) /\
    Query r !! "delimiter"%string
      = (if is_empty (lf_Delimiter req) then q0 !! "delimiter"%string
         else Some [lf_Delimiter req]) /\
    Query r !! "limit"%string
      = (if 0 <? lf_Limit req then Some [Itoa (lf_Limit req)]
         else q0 !! "limit"%string) /\
    forall k : string,
      k ∉ ["prefix"; "marker"; "delimiter"; "limit"]%string -> Query r !! k = q0 !! k.
Proof.
  intros Hw Hr. pattern r. eapply sends_elem; [|exact Hw|exact Hr].
  unfold ListFiles. apply sends_bind_load. unfold http_NewRequest, api.
  destruct (url_Parse _) as [q0|] eqn:Hq; [|apply sends_ret].
  apply sends_roundtrip. exists q0. split; [done|].
  cbn [Query set_Header set_Query]. unfold set_unless_empty, Values_Set.
  assert (Hin : forall k : string, k ∉ ["prefix"; "marker"; "delimiter"; "limit"]%string ->
             k <> "prefix"%string /\ k <> "marker"%string /\ k <> "delimiter"%string
             /\ k <> "limit"%string).
  { intros k Hk. repeat split; intros ->; apply Hk; set_solver. }
  destruct (is_empty (lf_Prefix req)), (is_empty (lf_Marker req)),
    (is_empty (lf_Delimiter req)), (0 <? lf_Limit req);
    (split; [|split; [|split; [|split]]]);
    try (repeat first [ rewrite lookup_insert_eq | rewrite lookup_insert_ne by done ]; done);
    intros k (? & ? & ? & ?)%Hin;
    repeat (rewrite lookup_insert_ne by done); done.
Qed.

(** X11. [GetFileURL] sends the parameter [expires] exactly when the duration
    is positive, as the text Go prints for the duration; for a duration of
    zero or less the query of the URL is sent as it is. *)
Theorem GetFileURL_expires_param `{Library} (c : Client) (cfg : Config)
  (bucket key : string) (expires : Duration) (w : World) (r : Request) :
  configs w !! config c = Some cfg ->
  r ∈ requests (during (GetFileURL c bucket key expires) w) ->
  exists q0,
    url_Parse (TrimRight (BaseURL cfg) "/"
               +:+ "/api/public/files/" +:+ bucket +:+ "/" +:+ key +:+ "/url") = Some q0 /\
    Query r = (if 0 <? expires then <["expires"%string := [Duration_String expires]]> q0
               else q0).
Proof.
  intros Hw Hr. pattern r. eapply sends_elem; [|exact Hw|exact Hr].
  unfold GetFileURL, GetFileURL_request. apply sends_bind_load.
  unfold http_NewRequest, api.
  destruct (url_Parse _) as [q0|] eqn:Hq; [|apply sends_ret].
  apply sends_roundtrip. exists q0. split; [done|]. by destruct (0 <? expires).
Qed.

(* ------------------------------------------------------------------ *)
(** ** The three ways to upload *)

Lemma copy_events_progress src : Forall (fun e => is_progress e = true) (copy_events src).
Proof.
  destruct src as [|pr]; [constructor|]. simpl. destruct (pr_callback pr); [|constructor].
  by apply Forall_fmap, Forall_true.
Qed.

Lemma schedule_net delay req outs : forall i,
  Forall (fun e => is_net e = true) (schedule delay i req outs).
Proof.
  induction outs as [|o outs IH]; intros i; [constructor|].
  destruct outs as [|o' outs]; [by apply Forall_cons|].
  rewrite schedule_cons_cons. apply Forall_cons; split; [done|].
  apply Forall_cons; split; [done|]. apply IH.
Qed.

(** X12. An upload reads its whole source, and makes every call of the
    observer, before it hands the first request to the transport: the
    trace of an upload is observer calls followed by attempts and sleeps.
    Retries add no observer call. *)
Theorem progress_precedes_network `{Library} (c : Client) (cfg : Config) (op : Operation)
  (w : World) :
  configs w !! config c = Some cfg ->
  is_upload op = true ->
  exists evs1 evs2,
    during (call c op) w = evs1 ++ evs2 /\
    Forall (fun e => is_progress e = true) evs1 /\
    Forall (fun e => is_net e = true) evs2.
Proof.
  intros Hw Hup.
  destruct (call_upload c cfg op w Hup Hw) as [[e' Hsteps]|(reader & filename & req & Hsteps)];
    rewrite (steps_during _ _ _ _ Hsteps).
  { exists [], []. by repeat constructor. }
  unfold upload_plan.
  destruct (copied (src_reads reader)) as [data [e|]]; cbn [snd].
  { exists (copy_events reader), []. rewrite app_nil_r.
    split; [done|]. split; [apply copy_events_progress | constructor]. }
  destruct (upload_request cfg filename data req); cbn [snd].
  - eexists _, _. split; [reflexivity|].
    split; [apply copy_events_progress | apply schedule_net].
  - exists (copy_events reader), []. rewrite app_nil_r.
    split; [done|]. split; [apply copy_events_progress | constructor].
Qed.

(** X14. [UploadBytes] is [UploadFromReader] over [bytes.NewReader] of the
    data, except for an empty payload with an observer. *)
Theorem UploadBytes_is_UploadFromReader `{Library} (c : Client) (req : UploadBytesRequest)
  (w : World) :
  (ub_OnProgress req = true -> ub_Data req <> []) ->
  UploadFromReader c (as_reader_request req) w = UploadBytes c req w.
Proof.
  intros Hreq. unfold UploadFromReader, UploadBytes.
  assert (Hsize : determined_size (as_reader_request req) = len (ub_Data req)).
  { unfold determined_size. cbn [as_reader_request fr_Size fr_Reader seek_end bytes_NewReader].
    by destruct (len (ub_Data req) <=? 0). }
  rewrite Hsize. cbn [as_reader_request fr_OnProgress fr_Reader fr_Filename fr_Bucket fr_Key
    fr_AllowedTypes fr_Compress fr_Quality fr_Watermark fr_WatermarkText fr_WatermarkPosition].
  destruct (ub_OnProgress req); [|done]. specialize (Hreq eq_refl).
  assert ((0 <? len (ub_Data req)) = true) as ->.
  { apply Z.ltb_lt. unfold len. destruct (ub_Data req); [done|simpl; lia]. }
  by rewrite andb_true_r.
Qed.

(** X15. The [Size] an [UploadFromReaderRequest] declares is not sent and is
    not checked against the bytes read: with any other [Size], and with or
    without an observer, the same requests go out and the same result comes
    back. *)
Theorem declared_size_is_not_sent `{Library} (c : Client) (cfg : Config)
  (req : UploadFromReaderRequest) (size : Z) (observe : bool) (w : World) :
  configs w !! config c = Some cfg ->
  value (UploadFromReader c (declare size observe req)) w = value (UploadFromReader c req) w /\
  net (during (UploadFromReader c (declare size observe req)) w)
  = net (during (UploadFromReader c req) w).
Proof.
  intros Hw. unfold UploadFromReader.
  rewrite !(steps_value _ _ _ _ (uploadReader_steps c cfg _ _ _ _ w Hw)).
  rewrite !(steps_during _ _ _ _ (uploadReader_steps c cfg _ _ _ _ w Hw)).
  cbn [declare fr_Reader fr_Filename fr_Bucket fr_Key fr_AllowedTypes fr_Compress fr_Quality
       fr_Watermark fr_WatermarkText fr_WatermarkPosition fr_OnProgress].
  set (r1 := if observe && _ then _ else _). set (r2 := if fr_OnProgress req && _ then _ else _).
  assert (Hr : src_reads r1 = src_reads r2).
  { subst r1 r2. by destruct (observe && _), (fr_OnProgress req && _). }
  unfold upload_plan. rewrite Hr.
  destruct (copied (src_reads r2)) as [data [e|]]; cbn [fst snd].
  { by rewrite !net_copy_events. }
  destruct (upload_request cfg _ data _); cbn [fst snd].
  - by rewrite !net_app, !net_copy_events.
  - by rewrite !net_copy_events.
Qed.

Lemma progress_calls_length_fmap {A} (f : Z -> A) acc sizes :
  length (f <$> running acc sizes) = length sizes.
Proof.
  rewrite length_fmap. revert acc. induction sizes as [|n sizes IH]; intros acc; [done|].
  simpl. by rewrite IH.
Qed.

(** X16. An observer on [UploadFromReader] is called once for every [Read] of
    the copy, the read that reports the end included, with the bytes read
    so far and the declared (or sought) size as total.  The last call
    reports what the reader delivered, be it more or less than the total. *)
Theorem progress_follows_reads `{Library} (c : Client) (cfg : Config)
  (req : UploadFromReaderRequest) (w : World) :
  configs w !! config c = Some cfg ->
  fr_OnProgress req = true ->
  0 < determined_size req ->
  delivered (fr_Reader req) <= max_int ->
  progress_calls (during (UploadFromReader c req) w)
  = (fun u => (u, determined_size req)) <$> running 0 (read_sizes (reads (fr_Reader req))) /\
  length (progress_calls (during (UploadFromReader c req) w))
  = length (read_sizes (reads (fr_Reader req))) /\
  last (progress_calls (during (UploadFromReader c req) w))
  = Some (delivered (fr_Reader req), determined_size req).
Proof.
  intros Hw Hp Hpos Hmax.
  assert (Hcalls : progress_calls (during (UploadFromReader c req) w)
            = (fun u => (u, determined_size req))
                <$> running 0 (read_sizes (reads (fr_Reader req)))).
  { unfold UploadFromReader.
    rewrite (steps_during _ _ _ _ (uploadReader_steps c cfg _ _ _ _ w Hw)).
    apply Z.ltb_lt in Hpos. rewrite Hp, Hpos, progress_calls_upload_plan.
    cbn [andb copy_events pr_callback pr_total pr_read pr_reader].
    rewrite progress_calls_fmap.
    rewrite running64_exact; [done|apply read_sizes_nonneg|lia|exact Hmax]. }
  rewrite Hcalls. split; [done|]. split; [apply progress_calls_length_fmap|].
  rewrite fmap_last, running_last by apply read_sizes_nonempty. reflexivity.
Qed.

(** X17. An empty payload with an observer: [UploadBytes] and [UploadFile] call
    the observer once, with 0 bytes of a total of 0; [UploadFromReader]
    over the same bytes does not call it. *)
Theorem empty_payload_progress `{Library} (c : Client) (cfg : Config) (w : World) :
  configs w !! config c = Some cfg ->
  (forall req, ub_Data req = [] -> ub_OnProgress req = true ->
     progress_calls (during (UploadBytes c req) w) = [(0, 0)] /\
     progress_calls (during (UploadFromReader c (as_reader_request req)) w) = []) /\
  (forall req, disk w !! FilePath req = Some [] -> OnProgress req = true ->
     progress_calls (during (UploadFile c req) w) = [(0, 0)]).
Proof.
  intros Hw. split.
  - intros req Hd Hp. split.
    + unfold UploadBytes.
      rewrite (steps_during _ _ _ _ (uploadReader_steps c cfg _ _ _ _ w Hw)).
      by rewrite Hp, Hd, progress_calls_upload_plan.
    + unfold UploadFromReader.
      rewrite (steps_during _ _ _ _ (uploadReader_steps c cfg _ _ _ _ w Hw)).
      rewrite progress_calls_upload_plan.
      unfold determined_size. cbn [as_reader_request fr_Size fr_Reader fr_OnProgress].
      by rewrite Hd, Hp.
  - intros req Hd Hp.
    rewrite (steps_during _ _ _ _ (UploadFile_steps c cfg req w Hw)).
    unfold UploadFile_plan, file_reader. by rewrite Hd, Hp, progress_calls_upload_plan.
Qed.

Lemma copied_failing chunks chunk e rest :
  e <> EOF ->
  copied (((fun c => (c, None)) <$> chunks) ++ (chunk, Some e) :: rest)
  = (concat chunks ++ chunk, Some e).
Proof.
  intros He. induction chunks as [|c chunks IH]; cbn [fmap list_fmap app copied concat].
  - by destruct e.
  - change (list_fmap _ _ (fun c => (c, None)) chunks)
      with ((fun c : list byte => (c, @None error)) <$> chunks).
    rewrite IH. by rewrite app_assoc.
Qed.

Lemma read_sizes_failing chunks chunk (e : error) rest :
  length (read_sizes (((fun c => (c, None)) <$> chunks) ++ (chunk, Some e) :: rest))
  = S (length chunks).
Proof.
  induction chunks as [|c chunks IH]; [done|].
  cbn [fmap list_fmap app read_sizes length]. f_equal. exact IH.
Qed.

Lemma running64_length sizes : forall acc, length (running64 acc sizes) = length sizes.
Proof. induction sizes as [|n sizes IH]; intros acc; simpl; [done|]. by rewrite IH. Qed.

(** X18. When a [Read] of the source fails with an error other than [io.EOF],
    [UploadFromReader] returns that error, wrapped, and hands nothing to
    the transport; an observer has by then been called once for every
    read, the failed one included. *)
Theorem read_error_aborts_upload `{Library} (c : Client) (cfg : Config)
  (req : UploadFromReaderRequest) (w : World) (chunks : list (list byte))
  (chunk : list byte) (e : error) (rest : list ReadResult) :
  configs w !! config c = Some cfg ->
  reads (fr_Reader req) = ((fun c => (c, None)) <$> chunks) ++ (chunk, Some e) :: rest ->
  e <> EOF ->
  value (UploadFromReader c req) w
  = Returned (Err (Errorf "failed to copy file data" e)) /\
  net (during (UploadFromReader c req) w) = [] /\
  (fr_OnProgress req = true -> 0 < determined_size req ->
   length (progress_calls (during (UploadFromReader c req) w)) = S (length chunks)).
Proof.
  intros Hw Hreads He. unfold UploadFromReader.
  rewrite (steps_value _ _ _ _ (uploadReader_steps c cfg _ _ _ _ w Hw)).
  rewrite (steps_during _ _ _ _ (uploadReader_steps c cfg _ _ _ _ w Hw)).
  set (reader := if fr_OnProgress req && _ then _ else _).
  assert (Hsrc : src_reads reader = reads (fr_Reader req)).
  { subst reader. by destruct (fr_OnProgress req && _). }
  unfold upload_plan. rewrite Hsrc, Hreads, (copied_failing _ _ _ _ He). cbn [fst snd].
  split; [done|]. split; [apply net_copy_events|].
  intros Hp Hpos. subst reader. apply Z.ltb_lt in Hpos. rewrite Hp, Hpos.
  cbn [andb copy_events pr_callback pr_total pr_read pr_reader].
  rewrite progress_calls_fmap, length_fmap, running64_length, Hreads.
  apply read_sizes_failing.
Qed.

(* ------------------------------------------------------------------ *)
(** ** Batches of any length *)

Lemma batch_calls_schedule delay req outs : forall i,
  batch_calls (schedule delay i req outs) = [].
Proof.
  induction outs as [|o outs IH]; intros i; [done|].
  destruct outs as [|o' outs]; [done|].
  rewrite schedule_cons_cons. simpl. apply IH.
Qed.

Lemma batch_calls_UploadFile_plan `{Library} cfg req w :
  batch_calls (snd (UploadFile_plan cfg req w)) = [].
Proof.
  unfold UploadFile_plan, upload_plan.
  destruct (disk w !! FilePath req) as [data|]; [|done].
  destruct (copied _) as [d [e|]]; cbn [snd]; [apply batch_calls_copy_events|].
  destruct (upload_request _ _ _ _) as [httpReq|e]; cbn [snd];
    [|apply batch_calls_copy_events].
  by rewrite batch_calls_app, batch_calls_copy_events, batch_calls_schedule.
Qed.

Section BatchTrace.

Context `{Library} (c : Client) (cfg : Config) (req : BatchUploadRequest).

Lemma BatchUpload_loop_steps files : forall i res w,
  configs w !! config c = Some cfg ->
  0 <= RetryCount cfg ->
  exists res',
    steps (BatchUpload_loop c req i files res) w (Returned res')
      (batch_trace cfg req i files w).
Proof.
  induction files as [|f files IH]; intros i res w Hw Hrc.
  - exists res. apply steps_ret.
  - cbn [BatchUpload_loop batch_trace].
    set (pre := if bu_OnProgress req then [EvBatchProgress i (len (Files req)) f] else []).
    assert (Hpre : steps (when (bu_OnProgress req)
                            (emit (EvBatchProgress i (len (Files req)) f))) w
                     (Returned tt) pre) by apply steps_when, steps_emit.
    pose proof (UploadFile_steps c cfg (batch_item req f) (record w pre) Hw) as Hup.
    destruct (UploadFile_plan_returns cfg (batch_item req f) (record w pre) Hrc) as [r Hr].
    rewrite Hr in Hup.
    destruct (IH (i + 1) (record_upload f r res)
                (record (record w pre)
                   (snd (UploadFile_plan cfg (batch_item req f) (record w pre)))) Hw Hrc)
      as [res' Hs].
    exists res'. eapply steps_bind; [exact Hpre|]. eapply steps_bind; [exact Hup|exact Hs].
Qed.

Lemma BatchUpload_steps w :
  configs w !! config c = Some cfg ->
  0 <= RetryCount cfg ->
  exists res,
    steps (BatchUpload c req) w (Returned (Ok res))
      (batch_trace cfg req 0 (Files req) w
       ++ (if bu_OnProgress req
           then [EvBatchProgress (len (Files req)) (len (Files req)) ""] else [])).
Proof.
  intros Hw Hrc. unfold BatchUpload.
  destruct (BatchUpload_loop_steps (Files req) 0
              {| Success := []; Failed := []; Total := len (Files req) |} w Hw Hrc)
    as [res Hs].
  exists res. eapply steps_bind; [exact Hs|].
  eapply steps_bind_eq; [apply steps_when, steps_emit|apply steps_ret|by rewrite app_nil_r].
Qed.

Lemma batch_calls_batch_trace files : forall i w,
  batch_calls (batch_trace cfg req i files w)
  = if bu_OnProgress req
    then imap (fun k f => (i + Z.of_nat k, len (Files req), f)) files
    else [].
Proof.
  induction files as [|f files IH]; intros i w; [by destruct (bu_OnProgress req)|].
  cbn [batch_trace]. rewrite !batch_calls_app, batch_calls_UploadFile_plan, IH.
  destruct (bu_OnProgress req); [|done]. cbn [batch_calls omap list_omap app imap].
  f_equal; [do 2 f_equal; lia|]. apply imap_ext. intros k x _. simpl. do 2 f_equal. lia.
Qed.

End BatchTrace.

(** X19. With the batch observer set and a RetryCount in range (not
    negative and below the largest int, so that every upload comes to an
    end), [BatchUpload] of [n] files calls the observer [n+1] times: before the
    [k]-th file with [k], [n] and the path of the file, for [k] from 0, and
    once at the end with [n], [n] and the empty path.  Without an observer
    there is no call. *)
Theorem BatchUpload_progress `{Library} (c : Client) (cfg : Config)
  (req : BatchUploadRequest) (w : World) :
  configs w !! config c = Some cfg ->
  retries_in_range cfg ->
  batch_calls (during (BatchUpload c req) w)
  = if bu_OnProgress req
    then imap (fun k f => (Z.of_nat k, len (Files req), f)) (Files req)
         ++ [(len (Files req), len (Files req), ""%string)]
    else [].
Proof.
  intros Hw [Hrc _]. destruct (BatchUpload_steps c cfg req w Hw Hrc) as [res Hs].
  rewrite (steps_during _ _ _ _ Hs), batch_calls_app, batch_calls_batch_trace.
  destruct (bu_OnProgress req); [|done]. f_equal.
Qed.

Lemma upload_request_body `{Library} cfg filename data req r :
  upload_request cfg filename data req = Ok r ->
  ReqBody r = MultipartBody (FormFile "file" filename data :: form_fields req).
Proof.
  unfold upload_request, http_NewRequest.
  destruct (url_Parse _) as [q|]; [|done]. intros [= <-].
  by destruct (0 <? len (AllowedTypes req)).
Qed.

Lemma requests_UploadFile_plan `{Library} cfg req w r :
  r ∈ requests (snd (UploadFile_plan cfg req w)) ->
  exists data,
    disk w !! FilePath req = Some data /\
    ReqBody r = MultipartBody (FormFile "file" (Base (FilePath req)) data :: form_fields req).
Proof.
  unfold UploadFile_plan, upload_plan.
  destruct (disk w !! FilePath req) as [data|]; [|by intros ?%elem_of_nil].
  rewrite src_reads_file_reader, copied_bytes.
  destruct (upload_request _ _ _ _) as [httpReq|e] eqn:Hreq; cbn [snd].
  - rewrite requests_app, requests_copy_events, requests_schedule. cbn [app].
    intros [-> _]%elem_of_replicate. exists data. split; [done|].
    by eapply upload_request_body.
  - rewrite requests_copy_events. by intros ?%elem_of_nil.
Qed.

Lemma requests_batch_trace `{Library} cfg req files : forall i w r,
  r ∈ requests (batch_trace cfg req i files w) ->
  exists f data,
    f ∈ files /\ disk w !! f = Some data /\
    ReqBody r = MultipartBody (FormFile "file" (Base f) data
                               :: form_fields (batch_item req f)).
Proof.
  induction files as [|f files IH]; intros i w r; [by intros ?%elem_of_nil|].
  cbn [batch_trace]. rewrite !requests_app.
  intros [Hr|[Hr|Hr]%elem_of_app]%elem_of_app.
  - destruct (bu_OnProgress req); by apply elem_of_nil in Hr.
  - apply (requests_UploadFile_plan cfg (batch_item req f)) in Hr as (data & Hd & Hb).
    exists f, data. split; [apply elem_of_cons; by left|]. by split.
  - apply IH in Hr as (f' & data & Hin & Hd & Hb).
    exists f', data. split; [apply elem_of_cons; by right|]. by split.
Qed.

Lemma is_empty_spec (s : string) : is_empty s = true <-> s = ""%string.
Proof. destruct s; by split. Qed.

Lemma form_fields_key req v :
  FormField "key" v ∈ form_fields req <-> Key req <> ""%string /\ v = Key req.
Proof.
  unfold form_fields. rewrite !elem_of_app.
  assert (Hno : forall l : list Part,
             Forall (fun p => part_name p <> "key"%string) l -> ~ FormField "key" v ∈ l).
  { intros l Hl Hin. rewrite Forall_forall in Hl. by apply (Hl _ Hin). }
  split.
  - intros [HA|[HB|[HC|HD]]].
    + exfalso. revert HA. apply Hno.
      destruct (is_empty (Bucket req)); repeat apply Forall_cons_2; by try apply Forall_nil.
    + destruct (is_empty (Key req)) eqn:Hk; [by apply elem_of_nil in HB|].
      apply list_elem_of_singleton in HB. injection HB as ->. split; [|done].
      intros He%is_empty_spec. congruence.
    + exfalso. revert HC. apply Hno.
      destruct (Compress req), (0 <? Quality req);
        repeat apply Forall_cons_2; by try apply Forall_nil.
    + exfalso. revert HD. apply Hno.
      destruct (Watermark req), (is_empty (WatermarkText req)),
        (is_empty (WatermarkPosition req));
        repeat apply Forall_cons_2; by try apply Forall_nil.
  - intros [Hne ->]. right; left.
    destruct (is_empty (Key req)) eqn:Hk; [by apply is_empty_spec in Hk|].
    by apply list_elem_of_singleton.
Qed.

(** X20. Every request of [BatchUpload] uploads one of the files of the batch,
    under the last element of its path as file name.  It carries a [key]
    field exactly when a key prefix is set, and the key is then the prefix,
    a slash and that last element: the directories of the path play no
    part in it. *)
Theorem BatchUpload_keys `{Library} (c : Client) (cfg : Config) (req : BatchUploadRequest)
  (w : World) (r : Request) :
  configs w !! config c = Some cfg ->
  0 <= RetryCount cfg ->
  r ∈ requests (during (BatchUpload c req) w) ->
  exists f data parts,
    f ∈ Files req /\ disk w !! f = Some data /\
    ReqBody r = MultipartBody (FormFile "file" (Base f) data :: parts) /\
    forall v, FormField "key" v ∈ parts <->
              KeyPrefix req <> ""%string /\ v = KeyPrefix req +:+ "/" +:+ Base f.
Proof.
  intros Hw Hrc Hr. destruct (BatchUpload_steps c cfg req w Hw Hrc) as [res Hs].
  rewrite (steps_during _ _ _ _ Hs), requests_app in Hr.
  apply elem_of_app in Hr as [Hr|Hr];
    [|destruct (bu_OnProgress req); by apply elem_of_nil in Hr].
  apply requests_batch_trace in Hr as (f & data & Hin & Hd & Hb).
  exists f, data, (form_fields (batch_item req f)). do 3 (split; [done|]).
  intros v. rewrite form_fields_key. cbn [batch_item Key].
  destruct (KeyPrefix req) as [|a s]; cbn [is_empty]; [by split; intros [? ?]|].
  split; intros [_ ->]; by split.
Qed.

Lemma BatchUpload_loop_missing `{Library} c req files : forall i res w,
  (forall f, f ∈ files -> disk w !! f = None) ->
  exists evs,
    steps (BatchUpload_loop c req i files res) w
      (Returned {| Success := Success res; Failed := Failed res ++ (not_found <$> files);
                   Total := Total res |}) evs /\
    net evs = [].
Proof.
  induction files as [|f files IH]; intros i res w Hmiss.
  - exists []. split; [|done]. cbn [BatchUpload_loop fmap list_fmap].
    rewrite app_nil_r. destruct res. apply steps_ret.
  - cbn [BatchUpload_loop].
    set (pre := if bu_OnProgress req then [EvBatchProgress i (len (Files req)) f] else []).
    assert (Hpre : steps (when (bu_OnProgress req)
                            (emit (EvBatchProgress i (len (Files req)) f))) w
                     (Returned tt) pre) by apply steps_when, steps_emit.
    assert (Hup : steps (UploadFile c (batch_item req f)) (record w pre)
                    (Returned (Err (Errorf "failed to open file"
                       (ErrLib ("open " +:+ f +:+ ": no such file or directory"))))) []).
    { unfold steps, UploadFile, bind, os_Open. cbn [batch_item FilePath record disk].
      rewrite (Hmiss f) by (apply elem_of_cons; by left). by rewrite record_nil. }
    destruct (IH (i + 1)
                (record_upload f (Err (Errorf "failed to open file"
                   (ErrLib ("open " +:+ f +:+ ": no such file or directory")))) res)
                (record (record w pre) []))
      as (evs & Hs & Hnet).
    { intros f' Hf'. apply Hmiss, elem_of_cons. by right. }
    exists (pre ++ [] ++ evs). split.
    + eapply steps_bind; [exact Hpre|]. eapply steps_bind; [exact Hup|].
      cbn [record_upload Success Failed Total] in Hs.
      rewrite <- app_assoc in Hs. exact Hs.
    + rewrite !net_app, Hnet. subst pre. by destruct (bu_OnProgress req).
Qed.

(** X21. When none of the files of a batch exists, [BatchUpload] hands nothing
    to the transport and still returns a nil error: every file is listed
    in [Failed], in order, with the text of the failure to open it. *)
Theorem BatchUpload_missing_files `{Library} (c : Client) (req : BatchUploadRequest)
  (w : World) :
  (forall f, f ∈ Files req -> disk w !! f = None) ->
  value (BatchUpload c req) w
  = Returned (Ok {| Success := []; Failed := not_found <$> Files req;
                    Total := len (Files req) |}) /\
  net (during (BatchUpload c req) w) = [].
Proof.
  intros Hmiss.
  destruct (BatchUpload_loop_missing c req (Files req) 0
              {| Success := []; Failed := []; Total := len (Files req) |} w Hmiss)
    as (evs & Hs & Hnet).
  assert (Hsteps : steps (BatchUpload c req) w
            (Returned (Ok {| Success := []; Failed := not_found <$> Files req;
                             Total := len (Files req) |}))
            (evs ++ (if bu_OnProgress req
                     then [EvBatchProgress (len (Files req)) (len (Files req)) ""]
                     else []) ++ [])).
  { eapply steps_bind; [exact Hs|].
    eapply steps_bind; [apply steps_when, steps_emit|apply steps_ret]. }
  rewrite (steps_value _ _ _ _ Hsteps), (steps_during _ _ _ _ Hsteps).
  split; [done|]. rewrite !net_app, Hnet. by destruct (bu_OnProgress req).
Qed.

(* ------------------------------------------------------------------ *)
(** ** How many attempts *)

Lemma always_5xx_retryable srv : always_5xx srv -> always_retryable srv.
Proof. intros Hs k r. by apply retryable_5xx. Qed.

Lemma always_400_not_retryable srv : always_400 srv -> never_retryable srv.
Proof. intros Hs k r. by apply not_retryable_400. Qed.

Lemma retry_outs_all srv req n :
  always_retryable srv -> forall k, length (retry_outs srv req k n) = n.
Proof.
  intros Hs. induction n as [|n IH]; intros k; [done|].
  cbn [retry_outs]. rewrite Hs. cbn [length]. by rewrite IH.
Qed.

Lemma retry_outs_one srv req n k :
  never_retryable srv -> length (retry_outs srv req k (S n)) = 1%nat.
Proof. intros Hs. cbn [retry_outs]. by rewrite Hs. Qed.

Lemma attempts_for_nil srv n : attempts_for srv n 0 0.
Proof. by repeat split. Qed.

Lemma attempts_for_add srv n m a m' a' :
  attempts_for srv n m a -> attempts_for srv n m' a' ->
  attempts_for srv n (m + m') (a + a').
Proof.
  intros (Hle & Hall & Hnone) (Hle' & Hall' & Hnone'). split; [lia|]. split.
  - intros Hs. rewrite (Hall Hs), (Hall' Hs). lia.
  - intros Hs. by rewrite (Hnone Hs), (Hnone' Hs).
Qed.

(** One run of the loop makes at least one attempt when RetryCount is not
    negative, all of them when every attempt ends retryably, and one when
    none does. *)
Lemma attempts_for_retry cfg w req :
  0 <= RetryCount cfg ->
  attempts_for (remote w) (Z.to_nat (RetryCount cfg + 1)) 1 (length (retry_result cfg w req)).
Proof.
  intros Hrc. unfold retry_result.
  destruct (Z.to_nat (RetryCount cfg + 1)) as [|n] eqn:Hn; [lia|].
  split; [|split].
  - cbn [retry_outs length]. lia.
  - intros Hs. rewrite retry_outs_all; [lia|done].
  - intros Hs. by rewrite retry_outs_one.
Qed.

Section Sent.

Context `{Library} (c : Client) (cfg : Config).
Hypothesis Hparse : base_url_parses cfg.

Lemma http_NewRequest_Ok method path body :
  exists r, http_NewRequest method (api cfg path) body = Ok r.
Proof.
  unfold http_NewRequest, api. destruct (Hparse path) as [q ->]. by eexists.
Qed.

Lemma upload_request_Ok filename data req :
  exists r, upload_request cfg filename data req = Ok r.
Proof.
  unfold upload_request.
  destruct (http_NewRequest_Ok "POST" "/api/public/upload" (upload_body filename data req))
    as [r Hr].
  unfold api in Hr. rewrite Hr. by eexists.
Qed.

(** An upload whose source can be read puts one request through the loop. *)
Lemma upload_plan_sent reader filename req w :
  snd (copied (src_reads reader)) = None ->
  exists httpReq,
    net (snd (upload_plan cfg reader filename req w))
    = schedule backoff 0 httpReq (retry_result cfg w httpReq).
Proof.
  intros Hc. unfold upload_plan. destruct (copied (src_reads reader)) as [data e].
  cbn [snd] in Hc. subst e.
  destruct (upload_request_Ok filename data req) as [r ->]. exists r. cbn [snd].
  rewrite net_app, net_copy_events. by apply net_schedule.
Qed.

Lemma UploadFile_plan_sent req w :
  is_Some (disk w !! FilePath req) ->
  exists httpReq,
    net (snd (UploadFile_plan cfg req w))
    = schedule backoff 0 httpReq (retry_result cfg w httpReq).
Proof.
  intros [data Hd]. unfold UploadFile_plan. rewrite Hd. apply upload_plan_sent.
  by rewrite src_reads_file_reader, copied_bytes.
Qed.

Lemma roundtrip_op_sent {T} (wrap : result T -> Reply) (k : Config -> Go (result T))
  (X : result Request) (f : Request -> Request) (decode : Response -> result T) w :
  configs w !! config c = Some cfg ->
  k cfg = match X with
          | Err e => ret (Err (Errorf "failed to create request" e))
          | Ok r => roundtrip c (f r) decode
          end ->
  (exists r, X = Ok r) ->
  exists req,
    net (during (fmap_Go wrap (bind (load (config c)) k)) w)
    = schedule backoff 0 req (retry_result cfg w req).
Proof.
  intros Hw Hk [r ->]. exists (f r).
  erewrite steps_during.
  2:{ apply (steps_fmap wrap). eapply steps_bind_load; [done|]. rewrite Hk.
      by apply roundtrip_run. }
  by apply net_schedule.
Qed.

Ltac sent_with wrap :=
  cbn [call]; eapply (roundtrip_op_sent wrap);
  [eassumption | reflexivity | apply http_NewRequest_Ok].

(** With its payload readable, an operation other than [BatchUpload] puts
    exactly one request through the loop. *)
Lemma call_sent op w :
  configs w !! config c = Some cfg ->
  is_single op = true ->
  payload_readable op w ->
  exists req,
    net (during (call c op) w) = schedule backoff 0 req (retry_result cfg w req).
Proof.
  intros Hw Hop Hp. destruct op; try discriminate Hop.
  - cbn [call payload_readable] in *.
    rewrite (steps_during _ _ _ _
               (steps_fmap ReplyUpload _ _ _ _ (UploadFile_steps c cfg req w Hw))).
    by apply UploadFile_plan_sent.
  - cbn [call payload_readable] in *. unfold UploadFromReader.
    erewrite steps_during.
    2:{ apply (steps_fmap ReplyUpload). by apply (uploadReader_steps c cfg). }
    apply upload_plan_sent. by destruct (fr_OnProgress req && (0 <? determined_size req)).
  - cbn [call]. unfold UploadBytes.
    erewrite steps_during.
    2:{ apply (steps_fmap ReplyUpload). by apply (uploadReader_steps c cfg). }
    apply upload_plan_sent.
    destruct (ub_OnProgress req); cbn [src_reads pr_reader]; by rewrite copied_bytes.
  - cbn [call].
    destruct (http_NewRequest_Ok "HEAD" "" NoBody) as [r Hr].
    unfold api in Hr. rewrite app_empty_r in Hr.
    set (req := set_Header (auth_headers cfg (Header r)) r).
    assert (Hs : steps (Ping c) w (Ping_return cfg (last (retry_result cfg w req)))
                   (schedule backoff 0 req (retry_result cfg w req))).
    { unfold Ping. eapply steps_bind_load; [done|]. rewrite Hr.
      eapply steps_bind_eq; [apply retry_steps| |by rewrite app_nil_r].
      fold req. destruct (last (retry_result cfg w req)) as [[resp|e]|]; cbn [Ping_return].
      - destruct (400 <=? StatusCode resp); apply steps_ret.
      - apply steps_ret.
      - apply steps_panic. }
    exists req. rewrite (steps_during _ _ _ _ (steps_fmap ReplyNone _ _ _ _ Hs)).
    by apply net_schedule.
  - sent_with ReplyNone.
  - cbn [call]. unfold GetFileURL.
    destruct (http_NewRequest_Ok "GET"
                ("/api/public/files/" +:+ bucket +:+ "/" +:+ key +:+ "/url") NoBody)
      as [r Hr].
    eexists. erewrite steps_during.
    2:{ apply (steps_fmap ReplyString). eapply steps_bind_load; [done|].
        unfold GetFileURL_request. rewrite Hr. by apply roundtrip_run. }
    by apply net_schedule.
  - sent_with ReplyFileInfo.
  - sent_with ReplyListFiles.
  - sent_with ReplyStrings.
  - sent_with ReplyNone.
  - sent_with ReplyNone.
  - sent_with ReplyStrings.
  - sent_with ReplyNone.
  - sent_with ReplyNone.
  - sent_with ReplyNone.
Qed.

(** The attempts of a batch whose files can all be opened. *)
Lemma attempts_batch_trace req files : forall i w,
  0 <= RetryCount cfg ->
  (forall f, f ∈ files -> is_Some (disk w !! f)) ->
  attempts_for (remote w) (Z.to_nat (RetryCount cfg + 1)) (length files)
    (attempts (batch_trace cfg req i files w)).
Proof.
  induction files as [|f files IH]; intros i w Hrc Hd; [apply attempts_for_nil|].
  cbn [batch_trace].
  set (pre := if bu_OnProgress req then [EvBatchProgress i (len (Files req)) f] else []).
  set (evs := snd (UploadFile_plan cfg (batch_item req f) (record w pre))).
  rewrite !attempts_app.
  assert (attempts pre = 0%nat) as -> by (unfold pre; by destruct (bu_OnProgress req)).
  cbn [Nat.add]. change (length (f :: files)) with (1 + length files)%nat.
  apply attempts_for_add.
  - destruct (UploadFile_plan_sent (batch_item req f) (record w pre)) as [r Hr].
    { apply Hd, elem_of_cons. by left. }
    unfold evs. rewrite <- attempts_net, Hr, attempts_schedule.
    apply (attempts_for_retry cfg (record w pre) r Hrc).
  - apply (IH (i + 1) (record (record w pre) evs) Hrc).
    intros g Hg. apply Hd, elem_of_cons. by right.
Qed.

(** The attempts of an operation that gets to send its requests. *)
Lemma call_attempts op w :
  configs w !! config c = Some cfg ->
  0 <= RetryCount cfg ->
  payload_readable op w ->
  attempts_for (remote w) (Z.to_nat (RetryCount cfg + 1)) (request_limit op)
    (attempts (during (call c op) w)).
Proof.
  intros Hw Hrc Hp. destruct (is_single op) eqn:Hop.
  - destruct (call_sent op w Hw Hop Hp) as [req Hreq].
    rewrite <- attempts_net, Hreq, attempts_schedule.
    assert (request_limit op = 1%nat) as -> by (by destruct op).
    by apply attempts_for_retry.
  - destruct op; try discriminate Hop. cbn [call request_limit payload_readable] in *.
    destruct (BatchUpload_steps c cfg req w Hw Hrc) as [res Hs].
    rewrite (steps_during _ _ _ _ (steps_fmap ReplyBatch _ _ _ _ Hs)), attempts_app.
    assert (attempts (if bu_OnProgress req
                      then [EvBatchProgress (len (Files req)) (len (Files req)) ""]
                      else []) = 0%nat) as -> by (by destruct (bu_OnProgress req)).
    rewrite Nat.add_0_r. by apply attempts_batch_trace.
Qed.

End Sent.


(* ------------------------------------------------------------------ *)
(** ** The helpers of utils.go *)

Lemma FormatBytes_loop_step rounds n div exp :
  FormatBytes_loop (S rounds) n div exp
  = if unit_ <=? n
    then FormatBytes_loop rounds (Z.quot n unit_) (wrap64 (div * unit_)) (wrap64 (exp + 1))
    else (n, div, exp).
Proof. reflexivity. Qed.

Lemma FormatBytes_loop_rounds (j : nat) : forall rounds n div exp,
  (j <= rounds)%nat ->
  unit_ ^ Z.of_nat j <= n < unit_ ^ (Z.of_nat j + 1) ->
  0 <= div -> div * unit_ ^ Z.of_nat j <= max_int ->
  0 <= exp -> exp + Z.of_nat j <= max_int ->
  FormatBytes_loop (S rounds) n div exp
  = (Z.quot n (unit_ ^ Z.of_nat j), div * unit_ ^ Z.of_nat j, exp + Z.of_nat j).
Proof.
  unfold unit_. induction j as [|j IH]; intros rounds n div exp Hj Hn Hd Hdm He Hem.
  - rewrite FormatBytes_loop_step. change (1024 ^ Z.of_nat 0) with 1 in *.
    change (1024 ^ (Z.of_nat 0 + 1)) with 1024 in *.
    assert ((unit_ <=? n) = false) as -> by (apply Z.leb_gt; unfold unit_; lia).
    rewrite Z.quot_1_r. f_equal; [f_equal|]; lia.
  - destruct rounds as [|rounds]; [lia|].
    assert (Hp : 0 < 1024 ^ Z.of_nat j) by (apply Z.pow_pos_nonneg; lia).
    assert (H1 : 1024 ^ Z.of_nat (S j) = 1024 ^ Z.of_nat j * 1024).
    { rewrite Nat2Z.inj_succ, Z.pow_succ_r by lia. lia. }
    assert (H2 : 1024 ^ (Z.of_nat (S j) + 1) = 1024 ^ Z.of_nat j * 1024 * 1024).
    { rewrite Z.pow_add_r, H1 by lia. lia. }
    assert (H3 : 1024 ^ (Z.of_nat j + 1) = 1024 ^ Z.of_nat j * 1024).
    { rewrite Z.pow_add_r by lia. lia. }
    rewrite H1 in *. rewrite H2 in Hn. rewrite H3 in IH.
    set (P := 1024 ^ Z.of_nat j) in *.
    assert (Hn0 : 0 <= n) by nia.
    rewrite FormatBytes_loop_step.
    assert ((unit_ <=? n) = true) as -> by (apply Z.leb_le; unfold unit_; nia).
    unfold unit_. rewrite (wrap64_small (div * 1024)) by (unfold max_int, min_int in *; nia).
    rewrite (wrap64_small (exp + 1)) by (unfold max_int, min_int in *; lia).
    rewrite (Z.quot_div_nonneg n 1024) by lia.
    rewrite IH.
    + rewrite !Z.quot_div_nonneg; [|nia|nia|apply Z.div_pos; lia|lia].
      rewrite Z.div_div by lia. f_equal; [f_equal|]; [f_equal; lia|lia|lia].
    + lia.
    + split.
      * apply Z.div_le_lower_bound; lia.
      * apply Z.div_lt_upper_bound; lia.
    + lia.
    + nia.
    + lia.
    + lia.
Qed.

Lemma FormatBytes_large (k : nat) (c : ascii) bytes :
  (k <= 5)%nat ->
  String.get k "KMGTPE" = Some c ->
  1024 ^ (Z.of_nat k + 1) <= bytes < 1024 ^ (Z.of_nat k + 2) ->
  FormatBytes bytes
  = Returned (Sprintf_f1 (float64_div (float64_of_int bytes)
                            (float64_of_int (1024 ^ (Z.of_nat k + 1))))
              +:+ " " +:+ String c "B").
Proof.
  intros Hk Hc Hb.
  assert (Hp : 0 < 1024 ^ Z.of_nat k) by (apply Z.pow_pos_nonneg; lia).
  assert (H1 : 1024 ^ (Z.of_nat k + 1) = 1024 ^ Z.of_nat k * 1024).
  { rewrite Z.pow_add_r by lia. lia. }
  assert (H2 : 1024 ^ (Z.of_nat k + 2) = 1024 ^ Z.of_nat k * 1024 * 1024).
  { rewrite Z.pow_add_r by lia. lia. }
  assert (Hmax : 1024 ^ Z.of_nat k <= 1024 ^ 5).
  { apply Z.pow_le_mono_r; lia. }
  unfold FormatBytes.
  assert ((bytes <? unit_) = false) as -> by (apply Z.ltb_ge; unfold unit_; nia).
  rewrite (FormatBytes_loop_rounds k 6 (Z.quot bytes unit_) unit_ 0); unfold unit_.
  - replace (0 + Z.of_nat k) with (Z.of_nat k) by lia.
    unfold index. assert ((Z.of_nat k <? 0) = false) as -> by (apply Z.ltb_ge; lia).
    rewrite Nat2Z.id, Hc.
    by replace (1024 * 1024 ^ Z.of_nat k) with (1024 ^ (Z.of_nat k + 1)) by (rewrite H1; lia).
  - lia.
  - rewrite Z.quot_div_nonneg by nia. rewrite H1. split.
    + apply Z.div_le_lower_bound; lia.
    + apply Z.div_lt_upper_bound; lia.
  - lia.
  - unfold max_int. change (1024 ^ 5) with 1125899906842624 in Hmax. lia.
  - lia.
  - unfold max_int. lia.
Qed.

Lemma magnitude bytes :
  1024 <= bytes -> bytes <= max_int ->
  exists (k : nat) (c : ascii),
    (k <= 5)%nat /\
    String.get k "KMGTPE" = Some c /\
    1024 ^ (Z.of_nat k + 1) <= bytes < 1024 ^ (Z.of_nat k + 2).
Proof.
  intros Hb Hmax. unfold max_int in Hmax.
  assert (Hk : exists k : nat, (k <= 5)%nat /\
                 1024 ^ (Z.of_nat k + 1) <= bytes < 1024 ^ (Z.of_nat k + 2)).
  { destruct (Z_lt_dec bytes (1024 ^ 2)); [exists 0%nat; simpl; lia|].
    destruct (Z_lt_dec bytes (1024 ^ 3)); [exists 1%nat; simpl; lia|].
    destruct (Z_lt_dec bytes (1024 ^ 4)); [exists 2%nat; simpl; lia|].
    destruct (Z_lt_dec bytes (1024 ^ 5)); [exists 3%nat; simpl; lia|].
    destruct (Z_lt_dec bytes (1024 ^ 6)); [exists 4%nat; simpl; lia|].
    exists 5%nat. simpl. lia. }
  destruct Hk as (k & Hk & Hrange).
  assert (Hc : exists c, String.get k "KMGTPE" = Some c).
  { do 6 (destruct k as [|k]; [by eexists|]). lia. }
  destruct Hc as [c Hc]. by exists k, c.
Qed.

Lemma FormatBytes_returns bytes :
  bytes <= max_int -> exists s, FormatBytes bytes = Returned s.
Proof.
  intros Hmax. destruct (Z_lt_dec bytes 1024) as [Hlt|Hge].
  - unfold FormatBytes.
    assert ((bytes <? unit_) = true) as -> by (apply Z.ltb_lt; unfold unit_; lia).
    by eexists.
  - destruct (magnitude bytes ltac:(lia) Hmax) as (k & c & Hk & Hc & Hrange).
    eexists. by apply (FormatBytes_large k c).
Qed.

(** X22. [FormatBytes] returns for every [int64]: the index into "KMGTPE"
    never leaves the string.  A count below 1024, a negative one
    included, is printed as it is, followed by " B".  A larger count lies
    between two consecutive powers of 1024, [1024^(k+1)] and [1024^(k+2)]
    for a [k] from 0 to 5, and is printed as its quotient by [1024^(k+1)],
    with one digit after the point, followed by the [k]-th of the letters
    K, M, G, T, P, E and a B. *)
Theorem FormatBytes_unit (bytes : Z) :
  bytes <= max_int ->
  (bytes < 1024 -> FormatBytes bytes = Returned (Itoa bytes +:+ " B")) /\
  (1024 <= bytes ->
   exists (k : nat) (c : ascii),
     (k <= 5)%nat /\
     String.get k "KMGTPE" = Some c /\
     1024 ^ (Z.of_nat k + 1) <= bytes < 1024 ^ (Z.of_nat k + 2) /\
     FormatBytes bytes
     = Returned (Sprintf_f1 (float64_div (float64_of_int bytes)
                               (float64_of_int (1024 ^ (Z.of_nat k + 1))))
                 +:+ " " +:+ String c "B")).
Proof.
  intros Hmax. split.
  - intros Hb. unfold FormatBytes.
    by assert ((bytes <? unit_) = true) as -> by (apply Z.ltb_lt; unfold unit_; lia).
  - intros Hb. destruct (magnitude bytes Hb Hmax) as (k & c & Hk & Hc & Hrange).
    exists k, c. do 3 (split; [done|]).
    by apply FormatBytes_large.
Qed.

(** X23. The number [FormatBytes] prints is not kept below 1024: the count just
    below a power of 1024 is printed as 1024.0 of the smaller unit. *)
Theorem FormatBytes_prints_1024 (k : nat) (c : ascii) :
  (k <= 4)%nat ->
  String.get k "KMGTPE" = Some c ->
  FormatBytes (1024 ^ (Z.of_nat k + 2) - 1) = Returned ("1024.0 " +:+ String c "B").
Proof.
  intros Hk Hc.
  do 5 (destruct k as [|k]; [injection Hc as <-; by vm_compute|]). lia.
Qed.

Lemma length_append (s t : string) :
  String.length (s +:+ t) = (String.length s + String.length t)%nat.
Proof.
  induction s as [|a s IH]; [done|].
  change (S (String.length (s +:+ t)) = S (String.length s + String.length t)).
  by rewrite IH.
Qed.

Lemma length_repeat_string s n :
  String.length (repeat_string s n) = (n * String.length s)%nat.
Proof.
  induction n as [|n IH]; [done|]. cbn [repeat_string]. rewrite length_append, IH. lia.
Qed.

Lemma quot_100 a :
  a = 100 * Z.quot a 100 + Z.rem a 100 /\
  (0 <= a -> 0 <= Z.rem a 100 < 100) /\
  (a <= 0 -> -100 < Z.rem a 100 <= 0).
Proof.
  split; [apply Z.quot_rem'|]. split; intros Ha.
  - apply Z.rem_bound_pos; lia.
  - pose proof (Z.rem_nonpos a 100 ltac:(lia) Ha).
    pose proof (Z.rem_bound_abs a 100 ltac:(lia)). lia.
Qed.

Lemma Repeat_returns s count :
  0 <= count -> Z.of_nat (String.length s) * count <= max_int ->
  Repeat s count = Returned (repeat_string s (Z.to_nat count)).
Proof.
  intros Hc Hm. unfold Repeat.
  assert ((count <? 0) = false) as -> by (apply Z.ltb_ge; lia).
  by assert ((max_int <? Z.of_nat (String.length s) * count) = false) as ->
    by (apply Z.ltb_ge; lia).
Qed.

Lemma Repeat_negative s count :
  count < 0 -> Repeat s count = Panicked "strings: negative Repeat count".
Proof.
  intros Hc. unfold Repeat. by assert ((count <? 0) = true) as -> by (apply Z.ltb_lt; lia).
Qed.

(** X24. For a percentage from 0 to 100 [CreateProgressBar] returns a bar of
    [width] cells between brackets, the first [percentage * width / 100]
    of them full: [3 * width + 2] bytes whatever the percentage. *)
Theorem CreateProgressBar_bar (percentage width : Z) :
  0 <= percentage <= 100 ->
  0 <= width <= 92233720368547758 ->
  exists filled : Z,
    filled = percentage * width / 100 /\
    0 <= filled <= width /\
    CreateProgressBar percentage width
    = Returned ("[" +:+ repeat_string full_block (Z.to_nat filled)
                +:+ repeat_string light_shade (Z.to_nat (width - filled)) +:+ "]") /\
    forall s, CreateProgressBar percentage width = Returned s ->
              Z.of_nat (String.length s) = 3 * width + 2.
Proof.
  intros Hp Hw. exists (percentage * width / 100).
  assert (Hf : 0 <= percentage * width / 100 <= width).
  { split; [apply Z.div_pos; nia|]. apply Z.div_le_upper_bound; nia. }
  split; [done|]. split; [done|].
  assert (Hbar : CreateProgressBar percentage width
            = Returned ("[" +:+ repeat_string full_block (Z.to_nat (percentage * width / 100))
                +:+ repeat_string light_shade (Z.to_nat (width - percentage * width / 100))
                +:+ "]")).
  { unfold CreateProgressBar.
    rewrite (wrap64_small (percentage * width)) by (unfold min_int, max_int; nia).
    rewrite Z.quot_div_nonneg by nia.
    rewrite Repeat_returns; [|lia|change (String.length full_block) with 3%nat;
                                  unfold max_int; lia].
    rewrite (wrap64_small (width - _)) by (unfold min_int, max_int; lia).
    rewrite Repeat_returns; [done|lia|change (String.length light_shade) with 3%nat;
                                      unfold max_int; lia]. }
  split; [done|]. rewrite Hbar. intros s [= <-].
  change ("[" +:+ ?x) with (String "[" x).
  cbn [String.length]. rewrite !length_append, !length_repeat_string.
  change (String.length full_block) with 3%nat.
  change (String.length light_shade) with 3%nat.
  change (String.length "]") with 1%nat. lia.
Qed.

Lemma CreateProgressBar_cases (percentage width : Z) :
  - 2 ^ 31 <= percentage <= 2 ^ 31 ->
  0 <= width <= 2 ^ 31 ->
  (0 <= Z.quot (percentage * width) 100 <= width ->
   exists s, CreateProgressBar percentage width = Returned s) /\
  (~ 0 <= Z.quot (percentage * width) 100 <= width ->
   CreateProgressBar percentage width = Panicked "strings: negative Repeat count").
Proof.
  intros Hp Hw.
  assert (Hpw : - 2 ^ 62 <= percentage * width <= 2 ^ 62) by nia.
  destruct (quot_100 (percentage * width)) as (Hq & Hpos & Hneg).
  unfold CreateProgressBar.
  rewrite (wrap64_small (percentage * width)) by (unfold min_int, max_int; lia).
  set (filled := Z.quot (percentage * width) 100) in *.
  assert (Hfb : - 2 ^ 62 <= filled <= 2 ^ 62) by lia.
  rewrite (wrap64_small (width - filled)) by (unfold min_int, max_int; lia).
  split.
  - intros Hf. rewrite Repeat_returns;
      [|lia|change (String.length full_block) with 3%nat; unfold max_int; lia].
    rewrite Repeat_returns;
      [by eexists|lia|change (String.length light_shade) with 3%nat; unfold max_int; lia].
  - intros Hf. destruct (Z_lt_dec filled 0) as [Hlt|Hge].
    + by rewrite Repeat_negative.
    + rewrite Repeat_returns;
        [|lia|change (String.length full_block) with 3%nat; unfold max_int; lia].
      rewrite Repeat_negative; [done|lia].
Qed.

Lemma full_cells_of_50 percentage :
  0 <= Z.quot (percentage * 50) 100 <= 50 <-> -1 <= percentage <= 101.
Proof. destruct (quot_100 (percentage * 50)) as (Hq & Hpos & Hneg). lia. Qed.

(** X25. [CreateProgressBar] returns exactly when the number of full cells,
    [percentage * width / 100] rounded toward zero, lies between 0 and
    [width]; otherwise [strings.Repeat] is handed a negative count and
    panics.  For the width of 50 that [OnProgress] asks for, the
    percentages from -1 to 101 are the ones that return. *)
Theorem CreateProgressBar_returns (percentage width : Z) :
  - 2 ^ 31 <= percentage <= 2 ^ 31 ->
  0 <= width <= 2 ^ 31 ->
  (0 <= Z.quot (percentage * width) 100 <= width ->
   exists s, CreateProgressBar percentage width = Returned s) /\
  (~ 0 <= Z.quot (percentage * width) 100 <= width ->
   CreateProgressBar percentage width = Panicked "strings: negative Repeat count") /\
  (width = 50 -> (0 <= Z.quot (percentage * width) 100 <= width <-> -1 <= percentage <= 101)).
Proof.
  intros Hp Hw. destruct (CreateProgressBar_cases percentage width Hp Hw) as [Hret Hpanic].
  split; [done|]. split; [done|]. intros ->. apply full_cells_of_50.
Qed.

Lemma whole_seconds_and_minutes :
  Forall (fun k => FormatDuration (k * Second) = Itoa k +:+ ".0s" /\
                   FormatDuration (k * Minute) = Itoa k +:+ ".0m" /\
                   FormatDuration (k * Hour) = Itoa k +:+ ".0h")
         (seqZ 1 59).
Proof. apply (bool_decide_unpack _). by vm_compute. Qed.

(** X26. [FormatDuration] prints a duration below one second, a negative one
    included, in whole milliseconds, rounded toward zero.  From one second
    on it prints seconds, from one minute on minutes, from one hour on
    hours, with one digit after the point; 1 to 59 whole seconds, minutes
    or hours are printed with a 0 after the point. *)
Theorem FormatDuration_units :
  (forall d, d < Second -> FormatDuration d = Itoa (Z.quot d 1000000) +:+ "ms") /\
  (forall k, 1 <= k <= 59 ->
     FormatDuration (k * Second) = Itoa k +:+ ".0s" /\
     FormatDuration (k * Minute) = Itoa k +:+ ".0m" /\
     FormatDuration (k * Hour) = Itoa k +:+ ".0h").
Proof.
  split.
  - intros d Hd. unfold FormatDuration.
    by assert ((d <? Second) = true) as -> by (by apply Z.ltb_lt).
  - intros k Hk. pose proof whole_seconds_and_minutes as Hall.
    rewrite Forall_forall in Hall. apply Hall, elem_of_seqZ. lia.
Qed.

(* ------------------------------------------------------------------ *)
(** ** The progress monitor of funcs.go *)

Lemma append_assoc (a b c : string) : (a +:+ b) +:+ c = a +:+ (b +:+ c).
Proof.
  induction a as [|x a IH]; [done|].
  change (String x ((a +:+ b) +:+ c) = String x (a +:+ (b +:+ c))). by rewrite IH.
Qed.

Lemma zero_over_positive (d : float64) :
  float64_gt d (SpecFloat.S754_zero false) = true ->
  float64_div (float64_of_int 0) d = SpecFloat.S754_zero false.
Proof. by destruct d as [[]|[]| |[] m e]. Qed.

Lemma speed_of_no_progress pm now uploaded :
  lastTime pm = ZeroTime \/ lastTime pm = Reading now \/ uploaded = lastUploaded pm ->
  speed_of pm now uploaded = SpecFloat.S754_zero false.
Proof.
  unfold speed_of. intros [->|[->| ->]]; [done| |].
  - assert (subMono now now = 0) as ->.
    { unfold subMono. rewrite Z.sub_diag. by rewrite Z.ltb_irrefl. }
    reflexivity.
  - destruct (lastTime pm) as [|last]; [done|].
    destruct (float64_gt _ _) eqn:Hd; [|done].
    rewrite Z.sub_diag. change (wrap64 0) with 0.
    by rewrite (zero_over_positive _ Hd).
Qed.

(** X27. As long as no bytes have moved between two calls, the monitor has no
    speed to show: on the first call of [OnProgress], on a call at the
    very instant of the one before, and on a call with the same byte count
    as the one before, the speed is 0 and the estimate reads
    "Calculating...".  The call leaves the instant and the byte count in
    the monitor. *)
Theorem OnProgress_without_progress `{Platform} (pm : ProgressMonitor)
  (now uploaded total : Z) (rep : Report) (pm' : ProgressMonitor) :
  lastTime pm = ZeroTime \/ lastTime pm = Reading now \/ uploaded = lastUploaded pm ->
  ProgressMonitor_OnProgress pm now uploaded total = Returned (rep, pm') ->
  match rep with
  | Called _ _ _ speed eta =>
      speed = SpecFloat.S754_zero false /\ eta = "Calculating..."%string
  | Printed line => exists pre, line = pre +:+ " 0.0 KB/s ETA: Calculating..."
  end /\
  lastTime pm' = Reading now /\ lastUploaded pm' = uploaded /\
  startTime pm' = startTime pm.
Proof.
  intros Hno. unfold ProgressMonitor_OnProgress. rewrite (speed_of_no_progress pm now uploaded Hno).
  change (eta_of (SpecFloat.S754_zero false) uploaded total) with "Calculating..."%string.
  destruct (callback pm).
  - intros [= <- <-]. by repeat split.
  - unfold print_progress.
    destruct (CreateProgressBar _ 50) as [bar|r]; [|done].
    destruct (FormatBytes uploaded) as [u|r]; [|done].
    destruct (FormatBytes total) as [t|r]; [|done].
    intros [= <- <-]. split; [|by repeat split].
    exists (String "013" bar +:+ " " +:+ Sprintf_f1
              (float64_mul (float64_div (float64_of_int uploaded) (float64_of_int total))
                 (float64_of_int 100))
            +:+ "% (" +:+ u +:+ "/" +:+ t +:+ ")").
    change (Sprintf_f1 (SpecFloat.S754_zero false) +:+ " KB/s") with "0.0 KB/s"%string.
    rewrite !append_assoc. reflexivity.
Qed.

(** X28. A monitor without a callback prints a bar of 50 cells, and so panics
    as soon as the percentage it computes, cut to an integer, is below -1
    or above 101: it returns exactly for the percentages from -1 to 101.
    A monitor with a callback always returns. *)
Theorem OnProgress_returns `{Platform} (pm : ProgressMonitor) (now uploaded total : Z)
  (p : Z) :
  p = int_of_float64 (float64_mul (float64_div (float64_of_int uploaded)
                                     (float64_of_int total)) (float64_of_int 100)) ->
  - 2 ^ 31 <= p <= 2 ^ 31 ->
  uploaded <= max_int -> total <= max_int ->
  (callback pm = true -> exists r, ProgressMonitor_OnProgress pm now uploaded total = Returned r) /\
  (callback pm = false -> -1 <= p <= 101 ->
   exists r, ProgressMonitor_OnProgress pm now uploaded total = Returned r) /\
  (callback pm = false -> ~ -1 <= p <= 101 ->
   ProgressMonitor_OnProgress pm now uploaded total = Panicked "strings: negative Repeat count").
Proof.
  intros Hp Hrange Hu Ht. unfold ProgressMonitor_OnProgress.
  destruct (CreateProgressBar_cases p 50 Hrange ltac:(lia)) as [Hret Hpanic].
  rewrite full_cells_of_50 in Hret, Hpanic.
  split; [|split].
  - intros ->. by eexists.
  - intros -> Hin. unfold print_progress. rewrite <- Hp.
    destruct (Hret Hin) as [bar ->].
    destruct (FormatBytes_returns uploaded Hu) as [u ->].
    destruct (FormatBytes_returns total Ht) as [t ->]. by eexists.
  - intros -> Hout. unfold print_progress. rewrite <- Hp. by rewrite (Hpanic Hout).
Qed.

(* ------------------------------------------------------------------ *)
(** ** More theorems at concrete inputs *)

(** X8, witness: the one request of a [DeleteFile] under the test config, which has a
    key and no secret. *)
Lemma requests_carry_credentials_witness :
  exists r,
    requests (during (@call plain_urls test_client (OpDeleteFile "b" "k"))
                (test_world (test_config 3) (always success_response))) = [r] /\
    Header r !! USER_AGENT = Some "LingStorage-SDK/1.0.0"%string /\
    Header r !! XAPIKEY = Some "key"%string /\
    Header r !! XAPISECRET = None.
Proof.
  destruct (requests (during (@call plain_urls test_client (OpDeleteFile "b" "k"))
                        (test_world (test_config 3) (always success_response))))
    as [|r rs] eqn:Hreqs; [vm_compute in Hreqs; discriminate Hreqs|].
  destruct rs as [|r' rs]; [|vm_compute in Hreqs; discriminate Hreqs].
  exists r. split; [reflexivity|].
  apply (@requests_carry_credentials plain_urls test_client (test_config 3)
           (OpDeleteFile "b" "k") (test_world (test_config 3) (always success_response)) r
           eq_refl).
  rewrite Hreqs. apply elem_of_cons. by left.
Defined.

(** X9, witness: the one request of a [DeleteFile]: the base URL of the test config
    ends in a slash, the URL of the request has one slash at the join. *)
Lemma requests_below_base_url_witness :
  exists r path,
    requests (during (@call plain_urls test_client (OpDeleteFile "b" "k"))
                (test_world (test_config 3) (always success_response))) = [r] /\
    URL r = "http://storage.test" +:+ path /\
    (path = ""%string \/ String.prefix "/api/public/" path = true).
Proof.
  destruct (requests (during (@call plain_urls test_client (OpDeleteFile "b" "k"))
                        (test_world (test_config 3) (always success_response))))
    as [|r rs] eqn:Hreqs; [vm_compute in Hreqs; discriminate Hreqs|].
  destruct rs as [|r' rs]; [|vm_compute in Hreqs; discriminate Hreqs].
  destruct (@requests_below_base_url plain_urls test_client (test_config 3)
              (OpDeleteFile "b" "k") (test_world (test_config 3) (always success_response)) r
              eq_refl) as (path & Hu & Hp & _).
  { rewrite Hreqs. apply elem_of_cons. by left. }
  exists r, path. split; [reflexivity|]. split; [exact Hu | exact Hp].
Defined.

(** X1, witness: a 404 with a plain text body, to a [GetFileInfo]. *)
Lemma non_200_is_APIError_witness :
  exists r e,
    value (@call plain_urls test_client (OpGetFileInfo "b" "k"))
      (test_world (test_config 3) (always not_found_response)) = Returned r /\
    reply_error r = Some (ErrAPI e) /\
    api_StatusCode e = 404 /\ api_Message e = "not found"%string.
Proof.
  destruct (@non_200_is_APIError plain_urls test_client (test_config 3)
              (OpGetFileInfo "b" "k") (test_world (test_config 3) (always not_found_response))
              not_found_response "not found" None eq_refl eq_refl eq_refl eq_refl
              ltac:(discriminate) eq_refl)
    as (r & e & Hv & He & Hc & Hm & _).
  exists r, e. split; [exact Hv|]. split; [exact He|]. split; [exact Hc | exact Hm].
Defined.

(** X2, witness: the answer of TestAPIError, [{"code":400,"msg":"File too large"}] with
    status 400: the text does not reach the caller. *)
Lemma error_body_without_message_witness :
  exists r,
    value (@call plain_urls test_client (OpUploadFile (file_request "/tmp/a.txt")))
      (test_world (test_config 3) (always too_large_response)) = Returned r /\
    reply_error r
    = Some (ErrAPI {| api_StatusCode := 400; api_Message := ""; api_Details := "" |}).
Proof.
  destruct (@error_body_without_message plain_urls test_client (test_config 3)
              (OpUploadFile (file_request "/tmp/a.txt"))
              (test_world (test_config 3) (always too_large_response))
              too_large_response _ _ eq_refl eq_refl eq_refl eq_refl
              ltac:(discriminate) eq_refl)
    as (r & Hv & He & _).
  { apply (bool_decide_unpack _). vm_compute. exact I. }
  exists r. split; [exact Hv | exact He].
Defined.

(** X3, witness: a [DeleteFile] against a server that cannot be reached. *)
Lemma transport_error_is_wrapped_witness :
  exists r,
    value (@call plain_urls test_client (OpDeleteFile "b" "k"))
      (test_world (test_config 3) unreachable) = Returned r /\
    reply_error r
    = Some (Errorf "request failed after 3 retries" (ErrLib "connection refused")).
Proof.
  apply (@transport_error_is_wrapped plain_urls test_client (test_config 3)
           (OpDeleteFile "b" "k") (test_world (test_config 3) unreachable)
           (ErrLib "connection refused") eq_refl eq_refl eq_refl).
Defined.

(** X4, witness: a [Ping] against a server that cannot be reached, with three retries:
    four attempts and six seconds of sleep. *)
Lemma retries_used_up_witness :
  Z.of_nat (attempts (during (@call plain_urls test_client OpPing)
                        (test_world (test_config 3) unreachable))) = 4 /\
  sleeps (during (@call plain_urls test_client OpPing)
            (test_world (test_config 3) unreachable))
  = [1 * Second; 2 * Second; 3 * Second] /\
  foldr Z.add 0 (sleeps (during (@call plain_urls test_client OpPing)
                           (test_world (test_config 3) unreachable)))
  = 6 * Second.
Proof.
  destruct (@retries_used_up plain_urls test_client (test_config 3) OpPing
              (test_world (test_config 3) unreachable)
              (TransportError (ErrLib "connection refused"))
              eq_refl eq_refl ltac:(simpl; lia) eq_refl eq_refl)
    as (Ha & Hs & Ht & _).
  split; [exact Ha|]. split; [exact Hs | exact Ht].
Defined.

(** X5, witness: a [Ping] answered with 204. *)
Lemma Ping_status_witness :
  value (@Ping plain_urls test_client) (test_world (test_config 3) (always (status_only 204)))
  = Returned (Ok tt).
Proof.
  apply (@Ping_status plain_urls test_client (test_config 3)
           (test_world (test_config 3) (always (status_only 204))) (status_only 204)
           eq_refl eq_refl).
Defined.

(** X6, witness: a [CopyFile] answered with status 200 and an envelope that reports a
    failure. *)
Lemma commands_accept_any_200_witness :
  exists r,
    value (@call plain_urls test_client
             (OpCopyFile {| cp_SrcBucket := "a"; cp_SrcKey := "k"; cp_DestBucket := "b";
                            cp_DestKey := "k" |}))
      (test_world (test_config 3) (always failure_response)) = Returned r /\
    reply_error r = None.
Proof.
  apply (@commands_accept_any_200 plain_urls test_client (test_config 3)
           (OpCopyFile {| cp_SrcBucket := "a"; cp_SrcKey := "k"; cp_DestBucket := "b";
                          cp_DestKey := "k" |})
           (test_world (test_config 3) (always failure_response)) failure_response
           eq_refl eq_refl eq_refl eq_refl).
Defined.

Lemma success_response_envelope : success_envelope success_response success_data.
Proof.
  split; [reflexivity|]. exists success_text, (Some success_doc), success_envelope_value.
  split; [reflexivity|]. split; [reflexivity|]. split; [by right | reflexivity].
Defined.

(** X7, witness: an [UploadBytes] answered with [{"code":200,...}], which has no
    [success] member. *)
Lemma success_envelope_is_accepted_witness :
  value (@call plain_urls test_client (OpUploadBytes (bytes_request false)))
    (test_world (test_config 3) (always success_response))
  = Returned (ReplyUpload (Ok success_data)).
Proof.
  apply (@success_envelope_is_accepted plain_urls test_client (test_config 3)
           (OpUploadBytes (bytes_request false))
           (test_world (test_config 3) (always success_response)) success_response
           success_data eq_refl eq_refl eq_refl success_response_envelope).
Defined.

(** X12, witness: an [UploadBytes] with an observer that succeeds at the third attempt. *)
Lemma progress_precedes_network_witness :
  exists evs1 evs2,
    during (@call plain_urls test_client (OpUploadBytes (bytes_request true)))
      (test_world (test_config 3) third_time_lucky) = evs1 ++ evs2 /\
    Forall (fun e => is_progress e = true) evs1 /\
    Forall (fun e => is_net e = true) evs2.
Proof.
  apply (@progress_precedes_network plain_urls test_client (test_config 3)
           (OpUploadBytes (bytes_request true))
           (test_world (test_config 3) third_time_lucky) eq_refl eq_refl).
Defined.

(** X14, witness: the upload of five bytes with an observer. *)
Lemma UploadBytes_is_UploadFromReader_witness :
  @UploadFromReader plain_urls test_client (as_reader_request (bytes_request true))
    (test_world (test_config 3) (always success_response))
  = @UploadBytes plain_urls test_client (bytes_request true)
      (test_world (test_config 3) (always success_response)).
Proof.
  apply (@UploadBytes_is_UploadFromReader plain_urls test_client (bytes_request true)
           (test_world (test_config 3) (always success_response))).
  intros _. discriminate.
Defined.

(** X15, witness: the stream of five bytes, declared as of 5 bytes with an observer, and
    as of unknown size without one. *)
Lemma declared_size_is_not_sent_witness :
  value (@UploadFromReader plain_urls test_client (declare 0 false (reader_request 5)))
    (test_world (test_config 3) (always success_response))
  = value (@UploadFromReader plain_urls test_client (reader_request 5))
      (test_world (test_config 3) (always success_response)) /\
  net (during (@UploadFromReader plain_urls test_client (declare 0 false (reader_request 5)))
         (test_world (test_config 3) (always success_response)))
  = net (during (@UploadFromReader plain_urls test_client (reader_request 5))
           (test_world (test_config 3) (always success_response))).
Proof.
  apply (@declared_size_is_not_sent plain_urls test_client (test_config 3)
           (reader_request 5) 0 false
           (test_world (test_config 3) (always success_response)) eq_refl).
Defined.

(** X16, witness: the stream of five bytes in two reads, declared as of 3 bytes: three
    calls, the last two with 5 bytes of 3. *)
Lemma progress_follows_reads_witness :
  progress_calls (during (@UploadFromReader plain_urls test_client (reader_request 3))
                    (test_world (test_config 3) (always success_response)))
  = [(2, 3); (5, 3); (5, 3)] /\
  last (progress_calls (during (@UploadFromReader plain_urls test_client (reader_request 3))
                          (test_world (test_config 3) (always success_response))))
  = Some (5, 3).
Proof.
  destruct (@progress_follows_reads plain_urls test_client (test_config 3)
              (reader_request 3) (test_world (test_config 3) (always success_response))
              eq_refl eq_refl ltac:(vm_compute; reflexivity) ltac:(vm_compute; discriminate))
    as (Hc & _ & Hl).
  split; [exact Hc | exact Hl].
Defined.

(** X17, witness: the file /tmp/c.txt of the test world is empty. *)
Lemma empty_payload_progress_witness :
  progress_calls (during (@UploadFile plain_urls test_client (file_request "/tmp/c.txt"))
                    (test_world (test_config 3) (always success_response)))
  = [(0, 0)].
Proof.
  destruct (@empty_payload_progress plain_urls test_client (test_config 3)
              (test_world (test_config 3) (always success_response)) eq_refl) as [_ Hf].
  apply (Hf (file_request "/tmp/c.txt")); reflexivity.
Defined.

(** X18, witness: a reader that fails at its second read. *)
Lemma read_error_aborts_upload_witness :
  value (@UploadFromReader plain_urls test_client broken_request)
    (test_world (test_config 3) (always success_response))
  = Returned (Err (Errorf "failed to copy file data" (ErrLib "unexpected EOF"))) /\
  net (during (@UploadFromReader plain_urls test_client broken_request)
         (test_world (test_config 3) (always success_response))) = [] /\
  length (progress_calls (during (@UploadFromReader plain_urls test_client broken_request)
                            (test_world (test_config 3) (always success_response)))) = 2%nat.
Proof.
  destruct (@read_error_aborts_upload plain_urls test_client (test_config 3) broken_request
              (test_world (test_config 3) (always success_response))
              [[Byte.x68]] [] (ErrLib "unexpected EOF") [] eq_refl eq_refl
              ltac:(discriminate))
    as (Hv & Hn & Hp).
  split; [exact Hv|]. split; [exact Hn|]. apply Hp; [reflexivity | vm_compute; reflexivity].
Defined.

(** X19, witness: the batch of three files of the test world. *)
Lemma BatchUpload_progress_witness :
  batch_calls (during (@BatchUpload plain_urls test_client (batch_request three_files))
                 (test_world (test_config 3) (always success_response)))
  = [(0, 3, "/tmp/a.txt"%string); (1, 3, "/tmp/b.txt"%string); (2, 3, "/tmp/c.txt"%string);
     (3, 3, ""%string)].
Proof.
  apply (@BatchUpload_progress plain_urls test_client (test_config 3)
           (batch_request three_files)
           (test_world (test_config 3) (always success_response)) eq_refl
           ltac:(unfold retries_in_range, max_int; simpl; lia)).
Defined.

(** X20, witness: the first request of the batch, which has the key prefix [batch]. *)
Lemma BatchUpload_keys_witness :
  exists r rest f data parts,
    requests (during (@BatchUpload plain_urls test_client (batch_request three_files))
                (test_world (test_config 3) (always success_response))) = r :: rest /\
    f ∈ three_files /\
    ReqBody r = MultipartBody (FormFile "file" (Base f) data :: parts) /\
    FormField "key" ("batch/" +:+ Base f) ∈ parts.
Proof.
  destruct (requests (during (@BatchUpload plain_urls test_client (batch_request three_files))
                        (test_world (test_config 3) (always success_response))))
    as [|r rest] eqn:Hreqs; [vm_compute in Hreqs; discriminate Hreqs|].
  destruct (@BatchUpload_keys plain_urls test_client (test_config 3)
              (batch_request three_files)
              (test_world (test_config 3) (always success_response)) r eq_refl
              ltac:(simpl; lia))
    as (f & data & parts & Hin & _ & Hb & Hk).
  { rewrite Hreqs. apply elem_of_cons. by left. }
  exists r, rest, f, data, parts. split; [reflexivity|]. split; [exact Hin|].
  split; [exact Hb|]. apply Hk. split; [discriminate | reflexivity].
Defined.

(** X21, witness: a batch of two files that do not exist. *)
Lemma BatchUpload_missing_files_witness :
  value (@BatchUpload plain_urls test_client (batch_request missing_files))
    (test_world (test_config 3) (always success_response))
  = Returned (Ok {| Success := [];
                    Failed := [not_found "/tmp/x.txt"; not_found "/tmp/y.txt"];
                    Total := 2 |}) /\
  net (during (@BatchUpload plain_urls test_client (batch_request missing_files))
         (test_world (test_config 3) (always success_response))) = [].
Proof.
  apply (@BatchUpload_missing_files plain_urls test_client (batch_request missing_files)
           (test_world (test_config 3) (always success_response))).
  intros f Hf. apply elem_of_cons in Hf as [->|Hf]; [reflexivity|].
  apply elem_of_cons in Hf as [->|Hf]; [reflexivity|]. by apply elem_of_nil in Hf.
Defined.

(** X10, witness: a listing with a prefix and a delimiter, no marker and no limit. *)
Lemma ListFiles_query_witness :
  exists r,
    requests (during (@ListFiles plain_urls test_client list_request)
                (test_world (test_config 3) (always success_response))) = [r] /\
    Query r !! "prefix"%string = Some ["img/"%string] /\
    Query r !! "marker"%string = None /\
    Query r !! "delimiter"%string = Some ["/"%string] /\
    Query r !! "limit"%string = None.
Proof.
  destruct (requests (during (@ListFiles plain_urls test_client list_request)
                        (test_world (test_config 3) (always success_response))))
    as [|r rs] eqn:Hreqs; [vm_compute in Hreqs; discriminate Hreqs|].
  destruct rs as [|r' rs]; [|vm_compute in Hreqs; discriminate Hreqs].
  destruct (@ListFiles_query plain_urls test_client (test_config 3) list_request
              (test_world (test_config 3) (always success_response)) r eq_refl)
    as (q0 & Hq0 & Hp & Hm & Hd & Hl & _).
  { rewrite Hreqs. apply elem_of_cons. by left. }
  injection Hq0 as <-.
  exists r. split; [reflexivity|]. split; [exact Hp|]. split; [exact Hm|].
  split; [exact Hd | exact Hl].
Defined.

(** X11, witness: a URL asked for without an expiry. *)
Lemma GetFileURL_expires_param_witness :
  exists r,
    requests (during (@GetFileURL plain_urls test_client "b" "k" 0)
                (test_world (test_config 3) (always success_response))) = [r] /\
    Query r = ∅.
Proof.
  destruct (requests (during (@GetFileURL plain_urls test_client "b" "k" 0)
                        (test_world (test_config 3) (always success_response))))
    as [|r rs] eqn:Hreqs; [vm_compute in Hreqs; discriminate Hreqs|].
  destruct rs as [|r' rs]; [|vm_compute in Hreqs; discriminate Hreqs].
  destruct (@GetFileURL_expires_param plain_urls test_client (test_config 3) "b" "k" 0
              (test_world (test_config 3) (always success_response)) r eq_refl)
    as (q0 & Hq0 & Hq).
  { rewrite Hreqs. apply elem_of_cons. by left. }
  injection Hq0 as <-. exists r. split; [reflexivity | exact Hq].
Defined.

(** X22, witness: minus five bytes, and one and a half kilobytes. *)
Lemma FormatBytes_unit_witness :
  FormatBytes (-5) = Returned "-5 B"%string /\
  exists (k : nat) (c : ascii),
    (k <= 5)%nat /\
    String.get k "KMGTPE" = Some c /\
    1024 ^ (Z.of_nat k + 1) <= 1536 < 1024 ^ (Z.of_nat k + 2) /\
    FormatBytes 1536
    = Returned (Sprintf_f1 (float64_div (float64_of_int 1536)
                              (float64_of_int (1024 ^ (Z.of_nat k + 1))))
                +:+ " " +:+ String c "B").
Proof.
  split.
  - apply (FormatBytes_unit (-5)); [vm_compute; discriminate | lia].
  - apply (FormatBytes_unit 1536); [vm_compute; discriminate | lia].
Defined.

(** X23, witness: one byte below a megabyte. *)
Lemma FormatBytes_prints_1024_witness :
  FormatBytes 1048575 = Returned "1024.0 KB"%string.
Proof. apply (FormatBytes_prints_1024 0 "K"); [lia | reflexivity]. Defined.

(** X24, witness: half of a bar of ten cells. *)
Lemma CreateProgressBar_bar_witness :
  exists filled : Z,
    filled = 50 * 10 / 100 /\
    0 <= filled <= 10 /\
    CreateProgressBar 50 10
    = Returned ("[" +:+ repeat_string full_block (Z.to_nat filled)
                +:+ repeat_string light_shade (Z.to_nat (10 - filled)) +:+ "]") /\
    forall s, CreateProgressBar 50 10 = Returned s ->
              Z.of_nat (String.length s) = 3 * 10 + 2.
Proof. apply (CreateProgressBar_bar 50 10); lia. Defined.

(** X25, witness: 102 percent of a width of 50. *)
Lemma CreateProgressBar_returns_witness :
  CreateProgressBar 102 50 = Panicked "strings: negative Repeat count".
Proof.
  destruct (CreateProgressBar_returns 102 50 ltac:(lia) ltac:(lia)) as (_ & Hp & _).
  apply Hp. vm_compute. intros [_ Hle]. by apply Hle.
Defined.

(** X26, witness: minus one and a half milliseconds, and the last whole second below a
    minute. *)
Lemma FormatDuration_units_witness :
  FormatDuration (-1500000) = "-1ms"%string /\
  FormatDuration (59 * Second) = Itoa 59 +:+ ".0s".
Proof.
  destruct FormatDuration_units as [Hms Hw]. split.
  - apply (Hms (-1500000)). reflexivity.
  - apply (Hw 59). lia.
Defined.

(** X27, witness: the first call on a new monitor, with 512 of 2048 bytes. *)
Lemma OnProgress_without_progress_witness :
  exists line pm',
    @ProgressMonitor_OnProgress amd64 (NewProgressMonitor 1000) 2000 512 2048 = Returned (Printed line, pm') /\
    (exists pre, line = pre +:+ " 0.0 KB/s ETA: Calculating...") /\
    lastTime pm' = Reading 2000 /\ lastUploaded pm' = 512.
Proof.
  destruct (@ProgressMonitor_OnProgress amd64 (NewProgressMonitor 1000) 2000 512 2048)
    as [[rep pm']|r] eqn:E; [|vm_compute in E; discriminate E].
  destruct (@OnProgress_without_progress amd64 (NewProgressMonitor 1000) 2000 512 2048
              rep pm' (or_introl eq_refl) E) as (Hrep & Hl & Hu & _).
  destruct rep as [u t p s eta|line]; [vm_compute in E; discriminate E|].
  exists line, pm'. split; [reflexivity|]. split; [exact Hrep|]. split; [exact Hl | exact Hu].
Defined.

(** X28, witness: 51 bytes of 50 are 102 percent. *)
Lemma OnProgress_returns_witness :
  @ProgressMonitor_OnProgress amd64 (NewProgressMonitor 1000) 2000 51 50
  = Panicked "strings: negative Repeat count".
Proof.
  destruct (@OnProgress_returns amd64 (NewProgressMonitor 1000) 2000 51 50 102
              ltac:(vm_compute; reflexivity) ltac:(lia)
              ltac:(vm_compute; discriminate) ltac:(vm_compute; discriminate))
    as (_ & _ & Hpanic).
  apply Hpanic; [reflexivity | lia].
Defined.

(** An operation that does not get to send makes no attempt, whatever
    [Do] would return: an [UploadFile] of a file that does not exist, and a
    [DeleteFile] of a key with a line feed, for which [http.NewRequest]
    fails. *)
Example nothing_sent :
  attempts (during (@call plain_urls test_client (OpUploadFile (file_request "/tmp/none.txt")))
              (test_world (test_config 3) (always (status_only 500)))) = 0%nat /\
  attempts (during (@call no_line_feeds test_client
                      (OpDeleteFile "b" (String "010" EmptyString)))
              (test_world (test_config 3) (always (status_only 500)))) = 0%nat.
Proof. split; vm_compute; reflexivity. Qed.

(** Every text is a URL for [plain_urls]. *)
Lemma plain_urls_parse cfg : @base_url_parses plain_urls cfg.
Proof. intros path. by exists ∅. Defined.

Lemma body_drained_retryable : always_retryable body_drained.
Proof. intros [|k] r; reflexivity. Defined.

